(** * EduScribe streaming pipeline: a shallow embedding of
    [backend/optimized_main.py]

    The development follows the Python module top to bottom:

    - the per-lecture dictionaries of [OptimizedAudioProcessor]
      ([transcription_buffers], [last_synthesis_time],
      [structured_notes_history]) are finite maps read with the default of
      the [defaultdict] they are built from;
    - every call that leaves the module (the clock, the transcription,
      retrieval, scoring, synthesis and persistence services, the websocket)
      is answered by an environment [env] that sees the calls made so far,
      and is recorded, in order, in the [trace] of the world;
    - Python exceptions are the [Raise] outcome of a computation; state
      changes made before a raise are kept, and [try_except] catches what
      [except Exception] catches (not [asyncio.CancelledError]);
    - [logger] calls are not modelled;
    - a coroutine gives control away at its awaits only:
      [process_lecture_audio] is the worker when nothing else runs during
      its awaits, and [store_transcription] runs lines 152-204 of its loop
      body with the other coroutines at work during each await;
    - the task registry of [websocket_endpoint] (tasks, queue objects and the
      [processing_tasks] dictionary) is the transition system [server];
    - the HTTP endpoints ([create_lecture_endpoint], [upload_documents],
      [receive_audio_chunk]) are computations over a [site], with an
      environment [api] of their own.

    [time.time()] readings are rationals, and the timestamp of a chunk
    (line 90) is their product with 1000 on binary64 floats; text is
    [string] (code points below 256). *)

From Stdlib Require Import Ascii String QArith Lqa Sorted DecimalString.
From Stdlib Require SpecFloat.
From stdpp Require Import gmap strings list.


(** ** Python helpers *)

(** [l[-n:]] for a positive literal [n]. *)
Definition slice_last {A} (n : nat) (l : list A) : list A :=
  drop (length l - n) l.

(** [l[:-1]]. *)
Definition slice_init {A} (l : list A) : list A :=
  take (length l - 1) l.

(** [sep.join(l)]. *)
Fixpoint join (sep : string) (l : list string) : string :=
  match l with
  | [] => ""
  | [x] => x
  | x :: rest => x +:+ sep +:+ join sep rest
  end.

(** [str.isspace] on one character, for code points below 256: the
    characters [str.strip()] removes. *)
Definition is_space (c : ascii) : bool :=
  let n := nat_of_ascii c in
  ((9 <=? n) && (n <=? 13)) || ((28 <=? n) && (n <=? 32))
  || (n =? 133) || (n =? 160).

Fixpoint lstrip (s : string) : string :=
  match s with
  | String c rest => if is_space c then lstrip rest else s
  | EmptyString => EmptyString
  end.

Fixpoint rstrip (s : string) : string :=
  match s with
  | String c rest =>
      match rstrip rest with
      | EmptyString => if is_space c then EmptyString else String c EmptyString
      | r => String c r
      end
  | EmptyString => EmptyString
  end.

(** [s.strip()]. *)
Definition strip (s : string) : string := rstrip (lstrip s).

(** Truth value of a [str]: [not s] holds for the empty string only. *)
Definition str_truthy (s : string) : bool :=
  match s with EmptyString => false | _ => true end.

(** A string made of whitespace only (the empty string included). *)
Fixpoint whitespace_only (s : string) : bool :=
  match s with
  | EmptyString => true
  | String c rest => is_space c && whitespace_only rest
  end.

(** [int(x)] on a number: truncation towards zero. *)
Definition py_int (x : Q) : Z := Z.quot (Qnum x) (Z.pos (Qden x)).

(** ** Data model *)

(** A websocket object, by identity. *)
Definition websocket := nat.

(** The work item [process_audio_chunk] puts on the queue. *)
Record chunk := {
  chunk_file_path : string;
  chunk_timestamp : Z;
  chunk_websocket : websocket
}.

(** The dictionary [transcribe_local] returns; [tr_text = None] is a
    missing ["text"] key. *)
Record transcription_result := {
  tr_text : option string;
  tr_language : option string;
  tr_duration : option Q;
  tr_segments : list string
}.

(** [transcription_data]: one entry of a transcription buffer. *)
Record fragment := {
  frag_text : string;
  frag_timestamp : Z;
  frag_language : option string;
  frag_duration : option Q
}.

(** The dictionary [synthesize_structured_notes] returns, by the truth
    value of its ["success"] entry. *)
Inductive synthesis_result :=
| SynthSuccess (structured_notes : string)
| SynthFailure (error : string).

(** The dictionary [synthesize_final_notes] returns. *)
Inductive final_result :=
| FinalSuccess (title markdown : string)
               (sections glossary key_takeaways : list string)
| FinalFailure.

(** The JSON objects sent over the websocket, by their ["type"]. *)
Inductive message :=
| MConnectionConfirmed (msg : string)
| MRecordingStarted (msg : string)
| MRecordingStopped (msg : string)
| MTranscription (content enhanced_notes : string) (timestamp : Z)
                 (chunk_number : nat)
| MSynthesisStarted (msg : string)
| MStructuredNotes (content : string) (timestamp : Z)
                   (transcription_count : nat)
| MSynthesisError (error : string)
| MFinalSynthesisStarted (msg : string)
| MFinalNotes (title markdown : string)
              (sections glossary key_takeaways : list string) (timestamp : Z)
| MFinalSynthesisError (error : string).

Definition message_type (m : message) : string :=
  match m with
  | MConnectionConfirmed _ => "connection_confirmed"
  | MRecordingStarted _ => "recording_started"
  | MRecordingStopped _ => "recording_stopped"
  | MTranscription _ _ _ _ => "transcription"
  | MSynthesisStarted _ => "synthesis_started"
  | MStructuredNotes _ _ _ => "structured_notes"
  | MSynthesisError _ => "synthesis_error"
  | MFinalSynthesisStarted _ => "final_synthesis_started"
  | MFinalNotes _ _ _ _ _ _ => "final_notes"
  | MFinalSynthesisError _ => "final_synthesis_error"
  end.

(** Exceptions: [Exception] and its subclasses carry [str(e)];
    [asyncio.CancelledError] is not an [Exception]. *)
Inductive exn :=
| Exception (msg : string)
| CancelledError.

Inductive result (A : Type) :=
| Ok (a : A)
| Raise (e : exn).
Arguments Ok {A} a.
Arguments Raise {A} e.

(** Every call that leaves the module, with its arguments. *)
Inductive call :=
| CTime
| CSleep (seconds : Z)
| CTranscribe (path : string)
| CQuery (text lecture_id : string) (top_k : nat)
| CGenerateRawNotes (text : string) (context : list string)
                    (lecture_id : string) (previous_notes : list string)
| CScoreImportance (text : string) (segments : list string)
| CSaveTranscription (lecture_id : string) (chunk_index : Z)
                     (text enhanced_notes : string) (timestamp : Z)
                     (importance : Q)
| CSend (ws : websocket) (m : message)
| CDetectTopicShift (latest : string) (previous : list string)
| CSynthesize (transcriptions : list fragment) (context : list string)
              (lecture_id : string) (previous : option string)
| CSaveStructuredNotes (lecture_id content : string)
                       (transcription_count : nat)
| CSynthesizeFinal (lecture_id : string) (notes : list string)
                   (context : list string)
| CSaveFinalNotes (lecture_id title markdown : string)
                  (sections glossary key_takeaways : list string)
| CUnlink (path : string).

(** The collaborators. Each answer may depend on the calls made before it
    (first argument), so a service may fail once and succeed later. *)
Record env := {
  time_time : list call → Q;
  transcribe_local : list call → string → result transcription_result;
  query_documents :
    list call → string → string → nat → result (list string);
  generate_raw_notes :
    list call → string → list string → string → list string → result string;
  score_importance :
    list call → string → list string → result (option Q);
  save_transcription :
    list call → string → Z → string → string → Z → Q → result unit;
  send_json : list call → websocket → message → result unit;
  detect_topic_shift : list call → string → list string → result bool;
  synthesize_structured_notes :
    list call → list fragment → list string → string → option string →
    result synthesis_result;
  save_structured_notes : list call → string → string → nat → result unit;
  synthesize_final_notes :
    list call → string → list string → list string → result final_result;
  save_final_notes :
    list call → string → string → string →
    list string → list string → list string → result unit;
  unlink : list call → string → result unit;
  asyncio_sleep : list call → Z → result unit
}.

(** The per-lecture dictionaries of [OptimizedAudioProcessor]. *)
Record processor := {
  transcription_buffers : gmap string (list fragment);
  last_synthesis_time : gmap string Q;
  structured_notes_history : gmap string (list string)
}.

(** [self.transcription_buffers[lecture_id]] ([defaultdict(list)]). *)
Definition buffer_of (p : processor) (lecture_id : string) : list fragment :=
  default [] (transcription_buffers p !! lecture_id).

(** [self.last_synthesis_time[lecture_id]] ([defaultdict(float)]). *)
Definition last_synthesis_of (p : processor) (lecture_id : string) : Q :=
  default 0%Q (last_synthesis_time p !! lecture_id).

(** [self.structured_notes_history[lecture_id]] ([defaultdict(list)]). *)
Definition history_of (p : processor) (lecture_id : string) : list string :=
  default [] (structured_notes_history p !! lecture_id).

Definition processor_init : processor :=
  {| transcription_buffers := ∅;
     last_synthesis_time := ∅;
     structured_notes_history := ∅ |}.

Record world := {
  proc : processor;
  trace : list call
}.

(** ** Computations *)

Definition M (A : Type) : Type := world → result A * world.

Definition ret {A} (a : A) : M A := λ w, (Ok a, w).

Definition bind {A B} (m : M A) (k : A → M B) : M B := λ w,
  match m w with
  | (Ok a, w') => k a w'
  | (Raise e, w') => (Raise e, w')
  end.

#[export] Instance M_ret : MRet M := @ret.
#[export] Instance M_bind : MBind M := λ A B k m, bind m k.

Definition raise {A} (e : exn) : M A := λ w, (Raise e, w).

(** [try: m  except Exception as e: h(str(e))]. *)
Definition try_except {A} (m : M A) (h : string → M A) : M A := λ w,
  match m w with
  | (Raise (Exception msg), w') => h msg w'
  | r => r
  end.

(** [try: m  except: pass] (a bare [except] catches everything). *)
Definition try_pass (m : M unit) : M unit := λ w,
  match m w with
  | (Raise _, w') => (Ok tt, w')
  | r => r
  end.

(** Reading and updating the processor. *)
Definition gets {A} (f : processor → A) : M A := λ w, (Ok (f (proc w)), w).

Definition modify (f : processor → processor) : M unit := λ w,
  (Ok tt, {| proc := f (proc w); trace := trace w |}).

(** A call to a collaborator: it is answered from the calls made so far
    and then recorded. *)
Definition extern {A} (c : call) (answer : list call → result A) : M A :=
  λ w, (answer (trace w), {| proc := proc w; trace := trace w ++ [c] |}).

(** The trace a computation adds to a world. *)
Definition emitted {A} (m : M A) (w : world) : list call :=
  drop (length (trace w)) (trace (snd (m w))).

(** ** The collaborators as computations *)

Section Pipeline.

Variable E : env.

Definition now : M Q :=
  extern CTime (λ h, Ok (time_time E h)).

Definition sleep (seconds : Z) : M unit :=
  extern (CSleep seconds) (λ h, asyncio_sleep E h seconds).

Definition do_transcribe_local (path : string) : M transcription_result :=
  extern (CTranscribe path) (λ h, transcribe_local E h path).

Definition do_query_documents (text lecture_id : string) (top_k : nat)
  : M (list string) :=
  extern (CQuery text lecture_id top_k)
         (λ h, query_documents E h text lecture_id top_k).

Definition do_generate_raw_notes (text : string) (context : list string)
    (lecture_id : string) (previous_notes : list string) : M string :=
  extern (CGenerateRawNotes text context lecture_id previous_notes)
         (λ h, generate_raw_notes E h text context lecture_id previous_notes).

Definition do_score_importance (text : string) (segments : list string)
  : M (option Q) :=
  extern (CScoreImportance text segments)
         (λ h, score_importance E h text segments).

Definition do_save_transcription (lecture_id : string) (chunk_index : Z)
    (text enhanced_notes : string) (timestamp : Z) (importance : Q) : M unit :=
  extern
    (CSaveTranscription lecture_id chunk_index text enhanced_notes timestamp
                        importance)
    (λ h, save_transcription E h lecture_id chunk_index text enhanced_notes
                             timestamp importance).

Definition do_send_json (ws : websocket) (m : message) : M unit :=
  extern (CSend ws m) (λ h, send_json E h ws m).

Definition do_detect_topic_shift (latest : string) (previous : list string)
  : M bool :=
  extern (CDetectTopicShift latest previous)
         (λ h, detect_topic_shift E h latest previous).

Definition do_synthesize_structured_notes (transcriptions : list fragment)
    (context : list string) (lecture_id : string) (previous : option string)
  : M synthesis_result :=
  extern (CSynthesize transcriptions context lecture_id previous)
         (λ h, synthesize_structured_notes E h transcriptions context
                                           lecture_id previous).

Definition do_save_structured_notes (lecture_id content : string)
    (transcription_count : nat) : M unit :=
  extern (CSaveStructuredNotes lecture_id content transcription_count)
         (λ h, save_structured_notes E h lecture_id content
                                     transcription_count).

Definition do_synthesize_final_notes (lecture_id : string)
    (notes context : list string) : M final_result :=
  extern (CSynthesizeFinal lecture_id notes context)
         (λ h, synthesize_final_notes E h lecture_id notes context).

Definition do_save_final_notes (lecture_id title markdown : string)
    (sections glossary key_takeaways : list string) : M unit :=
  extern
    (CSaveFinalNotes lecture_id title markdown sections glossary key_takeaways)
    (λ h, save_final_notes E h lecture_id title markdown sections glossary
                           key_takeaways).

Definition do_unlink (path : string) : M unit :=
  extern (CUnlink path) (λ h, unlink E h path).

(** ** [OptimizedAudioProcessor.synthesize_notes] (lines 250-322) *)

Definition append_history (lecture_id notes : string) (p : processor)
  : processor :=
  {| transcription_buffers := transcription_buffers p;
     last_synthesis_time := last_synthesis_time p;
     structured_notes_history :=
       <[lecture_id := history_of p lecture_id ++ [notes]]>
         (structured_notes_history p) |}.

Definition set_last_synthesis (lecture_id : string) (t : Q) (p : processor)
  : processor :=
  {| transcription_buffers := transcription_buffers p;
     last_synthesis_time := <[lecture_id := t]> (last_synthesis_time p);
     structured_notes_history := structured_notes_history p |}.

Definition set_buffer (lecture_id : string) (b : list fragment)
    (p : processor) : processor :=
  {| transcription_buffers := <[lecture_id := b]> (transcription_buffers p);
     last_synthesis_time := last_synthesis_time p;
     structured_notes_history := structured_notes_history p |}.

Definition synthesize_notes (lecture_id : string) (ws : websocket) : M unit :=
  try_except
    (buffer ← gets (λ p, buffer_of p lecture_id);
     let transcriptions := slice_last 3 buffer in
     match transcriptions with
     | [] => ret tt
     | _ =>
       let combined_text := join " " (frag_text <$> transcriptions) in
       rag_context ← do_query_documents combined_text lecture_id 5;
       history ← gets (λ p, history_of p lecture_id);
       let previous_notes := last history in
       do_send_json ws (MSynthesisStarted "Generating structured notes...");;
       synthesis_result ←
         do_synthesize_structured_notes transcriptions rag_context lecture_id
                                        previous_notes;
       match synthesis_result with
       | SynthSuccess structured_notes =>
         modify (append_history lecture_id structured_notes);;
         try_except
           (do_save_structured_notes lecture_id structured_notes
                                     (length transcriptions))
           (λ _, ret tt);;
         t ← now;
         do_send_json ws
           (MStructuredNotes structured_notes (py_int (t * 1000))
                             (length transcriptions));;
         t' ← now;
         modify (set_last_synthesis lecture_id t');;
         modify (λ p, set_buffer lecture_id
                        (slice_last 1 (buffer_of p lecture_id)) p)
       | SynthFailure _ => ret tt
       end
     end)
    (λ e, do_send_json ws (MSynthesisError e)).

(** ** [OptimizedAudioProcessor.final_synthesis] (lines 324-390) *)

Definition final_synthesis (lecture_id : string) (ws : websocket) : M unit :=
  try_except
    (all_structured_notes ← gets (λ p, history_of p lecture_id);
     match all_structured_notes with
     | [] => ret tt
     | _ =>
       do_send_json ws
         (MFinalSynthesisStarted "Creating comprehensive final notes...");;
       buffer ← gets (λ p, buffer_of p lecture_id);
       let all_transcriptions := join " " (frag_text <$> buffer) in
       rag_context ← do_query_documents all_transcriptions lecture_id 15;
       final ←
         do_synthesize_final_notes lecture_id all_structured_notes rag_context;
       match final with
       | FinalSuccess title markdown sections glossary key_takeaways =>
         try_except
           (do_save_final_notes lecture_id title markdown sections glossary
                                key_takeaways)
           (λ _, ret tt);;
         t ← now;
         do_send_json ws
           (MFinalNotes title markdown sections glossary key_takeaways
                        (py_int (t * 1000)))
       | FinalFailure => ret tt
       end
     end)
    (λ e, do_send_json ws (MFinalSynthesisError e)).

(** ** [OptimizedAudioProcessor.process_lecture_audio] (lines 123-248) *)

(** Step 2 of the loop body (lines 209-233): the value of
    [should_synthesize] when line 235 tests it. *)
Definition should_synthesize (lecture_id : string) : M bool :=
  buffer ← gets (λ p, buffer_of p lecture_id);
  let buffer_size := length buffer in
  current_time ← now;
  last_synthesis ← gets (λ p, last_synthesis_of p lecture_id);
  if 3 <=? buffer_size then
    let time_since_last := (current_time - last_synthesis)%Q in
    if Qle_bool 60 time_since_last || Qeq_bool last_synthesis 0 then
      ret true
    else
      let recent_transcriptions := frag_text <$> slice_last 3 buffer in
      topic_shift ←
        do_detect_topic_shift (default "" (last recent_transcriptions))
                              (slice_init recent_transcriptions);
      ret topic_shift
  else ret false.

(** Lines 209-236: the trigger and the synthesis it starts. *)
Definition check_synthesis (lecture_id : string) (ws : websocket) : M unit :=
  fire ← should_synthesize lecture_id;
  if (fire : bool) then synthesize_notes lecture_id ws else ret tt.

Definition append_buffer (lecture_id : string) (f : fragment) (p : processor)
  : processor :=
  set_buffer lecture_id (buffer_of p lecture_id ++ [f]) p.

(** Lines 152-242: the loop body once a non-empty text was transcribed,
    when no other coroutine runs while the worker is suspended at its
    awaits.  What the other coroutines may do during the awaits of lines
    164-198 is in [store_transcription] below, of which lines 152-204 here
    are the [quiet] case. *)
Definition process_transcription (lecture_id : string) (chunk_data : chunk)
    (transcription_result : transcription_result)
    (transcription_text : string) : M unit :=
  let file_path := chunk_file_path chunk_data in
  let ws := chunk_websocket chunk_data in
  let transcription_data :=
    {| frag_text := transcription_text;
       frag_timestamp := chunk_timestamp chunk_data;
       frag_language := tr_language transcription_result;
       frag_duration := tr_duration transcription_result |} in
  modify (append_buffer lecture_id transcription_data);;
  rag_context ← do_query_documents transcription_text lecture_id 5;
  enhanced_notes ←
    do_generate_raw_notes transcription_text rag_context lecture_id [];
  buffer ← gets (λ p, buffer_of p lecture_id);
  let chunk_index := (Z.of_nat (length buffer) - 1)%Z in
  importance_result ←
    do_score_importance transcription_text (tr_segments transcription_result);
  let importance := default (1 # 2)%Q importance_result in
  try_except
    (do_save_transcription lecture_id chunk_index transcription_text
                           enhanced_notes (chunk_timestamp chunk_data)
                           importance)
    (λ _, ret tt);;
  buffer ← gets (λ p, buffer_of p lecture_id);
  do_send_json ws
    (MTranscription transcription_text enhanced_notes
                    (chunk_timestamp chunk_data) (length buffer));;
  check_synthesis lecture_id ws;;
  try_pass (do_unlink file_path).

(** Lines 134-242: one pass of the [while True] body on a dequeued item;
    a [continue] ends the pass. *)
Definition process_chunk (lecture_id : string) (chunk_data : chunk) : M unit :=
  let file_path := chunk_file_path chunk_data in
  transcribed ←
    try_except
      (transcription_result ← do_transcribe_local file_path;
       ret (Some (transcription_result,
                  strip (default "" (tr_text transcription_result)))))
      (λ _, ret None);
  match transcribed with
  | None => ret tt
  | Some (transcription_result, transcription_text) =>
    if str_truthy transcription_text then
      process_transcription lecture_id chunk_data transcription_result
                            transcription_text
    else ret tt
  end.

(** How a run of the worker over the queued items ends. *)
Inductive worker_end :=
| Waiting
| Faulted.

(** The task body: the items are taken in queue order; when none is left
    the task waits in [get()]. A [CancelledError] is re-raised, any other
    exception ends the task. *)
Fixpoint process_lecture_audio (lecture_id : string) (queue : list chunk)
  : M worker_end := λ w,
  match queue with
  | [] => (Ok Waiting, w)
  | chunk_data :: rest =>
    match process_chunk lecture_id chunk_data w with
    | (Ok _, w') => process_lecture_audio lecture_id rest w'
    | (Raise CancelledError, w') => (Raise CancelledError, w')
    | (Raise (Exception _), w') => (Ok Faulted, w')
    end
  end.

(** ** The message loop of [websocket_endpoint] (lines 571-604) *)

(** One pass of the loop on a message whose ["type"] is [message_type]
    ([None]: no such key). *)
Definition handle_message (lecture_id : string) (ws : websocket)
    (msg_type : option string) : M unit :=
  if decide (msg_type = Some "start_recording") then
    do_send_json ws
      (MRecordingStarted
         "Recording started - Send 20-second audio chunks via HTTP")
  else if decide (msg_type = Some "stop_recording") then
    sleep 2;;
    buffer ← gets (λ p, buffer_of p lecture_id);
    (if 0 <? length buffer then synthesize_notes lecture_id ws else ret tt);;
    final_synthesis lecture_id ws;;
    do_send_json ws (MRecordingStopped "Recording stopped")
  else if decide (msg_type = Some "request_final_synthesis") then
    final_synthesis lecture_id ws
  else ret tt.

End Pipeline.

(** ** Reading a trace *)

(** The messages pushed to the client, in order. *)
Definition pushed (l : list call) : list message :=
  omap (λ c, match c with CSend _ m => Some m | _ => None end) l.

(** The ["type"] of each message pushed to the client. *)
Definition pushed_types (l : list call) : list string :=
  message_type <$> pushed l.

(** The fragment windows handed to [synthesize_structured_notes]. *)
Definition synthesized (l : list call) : list (list fragment) :=
  omap (λ c, match c with CSynthesize ts _ _ _ => Some ts | _ => None end) l.

(** The [chunk_index] of each [save_transcription] call. *)
Definition saved_indices (l : list call) : list Z :=
  omap (λ c, match c with
             | CSaveTranscription _ i _ _ _ _ => Some i
             | _ => None
             end) l.

(** The history handed to each call of [synthesize_final_notes]. *)
Definition final_calls (l : list call) : list (list string) :=
  omap (λ c, match c with
             | CSynthesizeFinal _ notes _ => Some notes
             | _ => None
             end) l.

(** The grace waits. *)
Definition sleeps (l : list call) : list Z :=
  omap (λ c, match c with CSleep s => Some s | _ => None end) l.

(** A mid-stream synthesis round is under way in a trace: its retrieval
    query, the first call [synthesize_notes] makes on a non-empty buffer, was
    issued. *)
Definition synthesis_round_started (lecture_id : string) (l : list call)
  : Prop :=
  ∃ text, CQuery text lecture_id 5 ∈ l.

(** An answer that is a return value. *)
Definition returns {A} (r : result A) : Prop := ∃ a, r = Ok a.

(** An answer that is not the cancellation of the task. *)
Definition not_cancelled {A} (r : result A) : Prop := r ≠ Raise CancelledError.

(** ** A concrete session, for running the model

    The speech service transcribes a file to its own name, retrieval finds
    nothing, persistence and the websocket accept everything and the
    topic-shift detector never reports a shift.  The clock, the synthesis
    service and the final-synthesis service are given. *)

Definition plain_transcription (text : string) : transcription_result :=
  {| tr_text := Some text; tr_language := None; tr_duration := None;
     tr_segments := [] |}.

Definition session_env (clock : list call → Q)
    (synth : list fragment → result synthesis_result)
    (final : list string → result final_result) : env :=
  {| time_time := clock;
     transcribe_local := λ _ path, Ok (plain_transcription path);
     query_documents := λ _ _ _ _, Ok [];
     generate_raw_notes := λ _ text _ _ _, Ok text;
     score_importance := λ _ _ _, Ok None;
     save_transcription := λ _ _ _ _ _ _ _, Ok tt;
     send_json := λ _ _ _, Ok tt;
     detect_topic_shift := λ _ _ _, Ok false;
     synthesize_structured_notes := λ _ ts _ _ _, synth ts;
     save_structured_notes := λ _ _ _ _, Ok tt;
     synthesize_final_notes := λ _ _ notes _, final notes;
     save_final_notes := λ _ _ _ _ _ _ _, Ok tt;
     unlink := λ _ _, Ok tt;
     asyncio_sleep := λ _ _, Ok tt |}.

(** A synthesis service that succeeds, and one that reports failure. *)
Definition synth_ok (ts : list fragment) : result synthesis_result :=
  Ok (SynthSuccess (join "+" (frag_text <$> ts))).

Definition synth_unsuccessful (ts : list fragment) : result synthesis_result :=
  Ok (SynthFailure "no notes").

Definition synth_raises (ts : list fragment) : result synthesis_result :=
  Raise (Exception "synthesis failed").

Definition final_ok (notes : list string) : result final_result :=
  Ok (FinalSuccess "Lecture" (join "+" notes) [] [] []).

Definition final_unsuccessful (notes : list string) : result final_result :=
  Ok FinalFailure.

Definition final_raises (notes : list string) : result final_result :=
  Raise (Exception "final synthesis failed").

(** The number of segments whose transcription has started. *)
Fixpoint transcribed (h : list call) : nat :=
  match h with
  | CTranscribe _ :: h' => S (transcribed h')
  | _ :: h' => transcribed h'
  | [] => 0
  end.

(** The clock of the end-to-end scenario: the k-th segment is processed at
    0s, 20s, 40s and 61s. *)
Definition arrival_clock (h : list call) : Q :=
  match transcribed h with
  | 0 | 1 => 0
  | 2 => 20
  | 3 => 40
  | _ => 61
  end.

Definition segment (text : string) : chunk :=
  {| chunk_file_path := text; chunk_timestamp := 0; chunk_websocket := 0 |}.

Definition heard (text : string) : fragment :=
  {| frag_text := text; frag_timestamp := 0; frag_language := None;
     frag_duration := None |}.

Definition fresh_world : world := {| proc := processor_init; trace := [] |}.

Definition scenario_env : env := session_env arrival_clock synth_ok final_ok.

(** The world after the segments "A", "B", "C" were processed. *)
Definition after_C : world :=
  snd (process_lecture_audio scenario_env "L"
         [segment "A"; segment "B"; segment "C"] fresh_world).

(** The world after the fourth segment "D". *)
Definition after_D : world :=
  snd (process_lecture_audio scenario_env "L" [segment "D"] after_C).

(** The end-to-end scenario as the specification words it: no synthesis
    after "C", then one over "B", "C", "D" that leaves "D" alone. *)
Definition scenario_as_specified : Prop :=
  synthesized (trace after_C) = []
  ∧ synthesized (drop (length (trace after_C)) (trace after_D))
    = [[heard "B"; heard "C"; heard "D"]]
  ∧ buffer_of (proc after_D) "L" = [heard "D"].

(** A world of lecture "L" with the given fragment texts in the buffer and
    the given structured notes in the history. *)
Definition session_world (texts notes : list string) : world :=
  {| proc :=
       {| transcription_buffers := {[ "L" := heard <$> texts ]};
          last_synthesis_time := ∅;
          structured_notes_history := {[ "L" := notes ]} |};
     trace := [] |}.

(** The failed synthesis round as the specification words it: whenever
    the synthesis service is reached and does not succeed, a
    [synthesis_error] message is pushed and the buffer and the timestamp
    stay as they were. *)
Definition failed_round_as_specified : Prop :=
  ∀ (E : env) (lecture_id : string) (ws : websocket) (w : world)
    (rag_context : list string),
    let buffer := buffer_of (proc w) lecture_id in
    let transcriptions := slice_last 3 buffer in
    let combined_text := join " " (frag_text <$> transcriptions) in
    let query := CQuery combined_text lecture_id 5 in
    let started :=
      CSend ws (MSynthesisStarted "Generating structured notes...") in
    buffer ≠ [] →
    query_documents E (trace w) combined_text lecture_id 5 = Ok rag_context →
    send_json E (trace w ++ [query]) ws
              (MSynthesisStarted "Generating structured notes...") = Ok tt →
    (∀ notes,
       synthesize_structured_notes E (trace w ++ [query; started])
         transcriptions rag_context lecture_id
         (last (history_of (proc w) lecture_id))
       ≠ Ok (SynthSuccess notes)) →
    let w' := snd (synthesize_notes E lecture_id ws w) in
    "synthesis_error"
      ∈ pushed_types (emitted (synthesize_notes E lecture_id ws) w)
    ∧ buffer_of (proc w') lecture_id = buffer
    ∧ last_synthesis_of (proc w') lecture_id
      = last_synthesis_of (proc w) lecture_id.

(** The failed final synthesis as the specification words it: whenever
    the final-synthesis service is reached and does not succeed, a
    [final_synthesis_error] message is pushed, and the service is not called
    a second time. *)
Definition final_failure_as_specified : Prop :=
  ∀ (E : env) (lecture_id : string) (ws : websocket) (w : world)
    (rag_context : list string),
    let history := history_of (proc w) lecture_id in
    let all_transcriptions :=
      join " " (frag_text <$> buffer_of (proc w) lecture_id) in
    let started :=
      CSend ws
        (MFinalSynthesisStarted "Creating comprehensive final notes...") in
    let query := CQuery all_transcriptions lecture_id 15 in
    history ≠ [] →
    send_json E (trace w) ws
      (MFinalSynthesisStarted "Creating comprehensive final notes...")
    = Ok tt →
    query_documents E (trace w ++ [started]) all_transcriptions lecture_id 15
    = Ok rag_context →
    (∀ title markdown sections glossary key_takeaways,
       synthesize_final_notes E (trace w ++ [started; query]) lecture_id
                              history rag_context
       ≠ Ok (FinalSuccess title markdown sections glossary key_takeaways)) →
    "final_synthesis_error"
      ∈ pushed_types (emitted (final_synthesis E lecture_id ws) w)
    ∧ length (final_calls (emitted (final_synthesis E lecture_id ws) w)) ≤ 1.

(** The final-synthesis procedure as the specification words it: on the
    stop signal and on the request-final signal alike, the grace wait comes
    first and, the buffer being non-empty, one last mid-stream round is run
    before the final synthesis. *)
Definition final_procedure_as_specified : Prop :=
  ∀ (E : env) (lecture_id : string) (ws : websocket) (w : world)
    (signal : string),
    signal = "stop_recording" ∨ signal = "request_final_synthesis" →
    buffer_of (proc w) lecture_id ≠ [] →
    asyncio_sleep E (trace w) 2 = Ok tt →
    let l := emitted (handle_message E lecture_id ws (Some signal)) w in
    sleeps l = [2%Z] ∧ synthesis_round_started lecture_id l.

(** ** The task registry of [websocket_endpoint]

    Tasks, queue objects and work items are known by identity (their rank
    of creation).  The dictionaries [manager.active_connections],
    [processor.processing_tasks] and [processor.audio_queues] hold
    references to them, so that a queue replaced in the dictionary still
    exists, with its items, for whoever holds it. *)

Inductive task_state :=
| Running
| Cancelled
| Finished.

(** A task running [process_lecture_audio(lecture_id)]; [task_waits_on] is
    the queue object whose [get()] it is suspended in, if any. *)
Record task := {
  task_lecture : string;
  task_status : task_state;
  task_waits_on : option nat
}.

Record server := {
  active_connections : gmap string websocket;
  processing_tasks : gmap string nat;
  audio_queues : gmap string nat;
  queues : list (list nat);
  tasks : list task;
  items_made : nat;
  processed : list (nat * nat)
}.

Definition server_init : server :=
  {| active_connections := ∅; processing_tasks := ∅; audio_queues := ∅;
     queues := []; tasks := []; items_made := 0; processed := [] |}.

Definition with_tasks (ts : list task) (s : server) : server :=
  {| active_connections := active_connections s;
     processing_tasks := processing_tasks s;
     audio_queues := audio_queues s;
     queues := queues s;
     tasks := ts;
     items_made := items_made s;
     processed := processed s |}.

Definition with_queues (qs : list (list nat)) (s : server) : server :=
  {| active_connections := active_connections s;
     processing_tasks := processing_tasks s;
     audio_queues := audio_queues s;
     queues := qs;
     tasks := tasks s;
     items_made := items_made s;
     processed := processed s |}.

Definition with_processed (log : list (nat * nat)) (s : server) : server :=
  {| active_connections := active_connections s;
     processing_tasks := processing_tasks s;
     audio_queues := audio_queues s;
     queues := queues s;
     tasks := tasks s;
     items_made := items_made s;
     processed := log |}.

(** [processor.audio_queues[lecture_id] = asyncio.Queue()]. *)
Definition new_queue (lecture_id : string) (s : server) : server :=
  {| active_connections := active_connections s;
     processing_tasks := processing_tasks s;
     audio_queues := <[lecture_id := length (queues s)]> (audio_queues s);
     queues := queues s ++ [[]];
     tasks := tasks s;
     items_made := items_made s;
     processed := processed s |}.

(** [self.audio_queues[lecture_id]] on [defaultdict(asyncio.Queue)]: a
    missing key is bound to a new, empty queue. *)
Definition queue_of (lecture_id : string) (s : server) : nat * server :=
  match audio_queues s !! lecture_id with
  | Some q => (q, s)
  | None => (length (queues s), new_queue lecture_id s)
  end.

(** [old_task.cancel()] followed by [await old_task]: a running task ends
    with [CancelledError] (lines 244-246); a task that has ended stays as it
    is. *)
Definition cancel (t : task) : task :=
  match task_status t with
  | Running =>
    {| task_lecture := task_lecture t; task_status := Cancelled;
       task_waits_on := None |}
  | _ => t
  end.

(** [ConnectionManager.connect] (lines 401-404). *)
Definition connect (lecture_id : string) (ws : websocket) (s : server)
  : server :=
  {| active_connections := <[lecture_id := ws]> (active_connections s);
     processing_tasks := processing_tasks s;
     audio_queues := audio_queues s;
     queues := queues s;
     tasks := tasks s;
     items_made := items_made s;
     processed := processed s |}.

(** [ConnectionManager.disconnect] (lines 406-409). *)
Definition disconnect (lecture_id : string) (s : server) : server :=
  {| active_connections := delete lecture_id (active_connections s);
     processing_tasks := processing_tasks s;
     audio_queues := audio_queues s;
     queues := queues s;
     tasks := tasks s;
     items_made := items_made s;
     processed := processed s |}.

(** [asyncio.create_task(processor.process_lecture_audio(lecture_id))] and
    its registration (lines 559-560). *)
Definition create_task (lecture_id : string) (s : server) : server :=
  {| active_connections := active_connections s;
     processing_tasks := <[lecture_id := length (tasks s)]> (processing_tasks s);
     audio_queues := audio_queues s;
     queues := queues s;
     tasks := tasks s ++ [{| task_lecture := lecture_id;
                             task_status := Running;
                             task_waits_on := None |}];
     items_made := items_made s;
     processed := processed s |}.

(** [websocket_endpoint] up to [await old_task] (lines 542-550): the
    websocket is registered and the task registered for the lecture, if
    there is one, is cancelled.  The result names that task. *)
Definition websocket_endpoint_begin (lecture_id : string) (ws : websocket)
    (s : server) : option nat * server :=
  let s1 := connect lecture_id ws s in
  match processing_tasks s1 !! lecture_id with
  | Some old_task =>
    (Some old_task, with_tasks (alter cancel old_task (tasks s1)) s1)
  | None => (None, s1)
  end.

(** [websocket_endpoint] once [await old_task] is over (lines 551-560): the
    queue is replaced if there was an old task, and the new task is started
    and registered. *)
Definition websocket_endpoint_resume (lecture_id : string)
    (old_task : option nat) (s : server) : server :=
  create_task lecture_id
    match old_task with
    | Some _ => new_queue lecture_id s
    | None => s
    end.

(** [websocket_endpoint] (lines 542-560) when nothing else runs while it
    awaits the old task. *)
Definition websocket_endpoint (lecture_id : string) (ws : websocket)
    (s : server) : server :=
  let '(old_task, s1) := websocket_endpoint_begin lecture_id ws s in
  websocket_endpoint_resume lecture_id old_task s1.

(** [process_audio_chunk] (lines 86-117): a new work item is put on the
    queue of the lecture. *)
Definition process_audio_chunk (lecture_id : string) (s : server) : server :=
  let '(q, s1) := queue_of lecture_id s in
  {| active_connections := active_connections s1;
     processing_tasks := processing_tasks s1;
     audio_queues := audio_queues s1;
     queues := alter (λ items, items ++ [items_made s1]) q (queues s1);
     tasks := tasks s1;
     items_made := S (items_made s1);
     processed := processed s1 |}.

(** [receive_audio_chunk] (lines 525-536): refused without a websocket. *)
Definition receive_audio_chunk (lecture_id : string) (s : server) : server :=
  match active_connections s !! lecture_id with
  | Some _ => process_audio_chunk lecture_id s
  | None => s
  end.

Definition set_waits_on (q : option nat) (t : task) : task :=
  {| task_lecture := task_lecture t; task_status := task_status t;
     task_waits_on := q |}.

(** Line 131 in a running task: [await self.audio_queues[lecture_id].get()].
    The task resumes the [get()] it is suspended in, or looks the queue up
    and starts one; it takes the first item, or stays suspended on an empty
    queue. *)
Definition queue_get (worker : nat) (s : server) : server :=
  match tasks s !! worker with
  | Some t =>
    match task_status t with
    | Running =>
      let '(q, s1) :=
        match task_waits_on t with
        | Some q => (q, s)
        | None => queue_of (task_lecture t) s
        end in
      match queues s1 !! q with
      | Some (item :: rest) =>
        with_tasks (alter (set_waits_on None) worker (tasks s1))
          (with_processed (processed s1 ++ [(worker, item)])
             (with_queues (<[q := rest]> (queues s1)) s1))
      | _ => with_tasks (alter (set_waits_on (Some q)) worker (tasks s1)) s1
      end
    | _ => s
    end
  | None => s
  end.

(** Lines 247-248 in a running task: an exception ends the task. *)
Definition fault (worker : nat) (s : server) : server :=
  with_tasks
    (alter (λ t, match task_status t with
                 | Running =>
                   {| task_lecture := task_lecture t;
                      task_status := Finished; task_waits_on := None |}
                 | _ => t
                 end) worker (tasks s)) s.

(** What happens to the server, one thing at a time. *)
Inductive event :=
| Connects (lecture_id : string) (ws : websocket)
| Disconnects (lecture_id : string)
| SendsChunk (lecture_id : string)
| WorkerGets (worker : nat)
| WorkerFaults (worker : nat).

Definition step (e : event) (s : server) : server :=
  match e with
  | Connects lecture_id ws => websocket_endpoint lecture_id ws s
  | Disconnects lecture_id => disconnect lecture_id s
  | SendsChunk lecture_id => receive_audio_chunk lecture_id s
  | WorkerGets worker => queue_get worker s
  | WorkerFaults worker => fault worker s
  end.

(** The server after the events of [history], oldest first. *)
Definition run (history : list event) (s : server) : server :=
  foldl (λ s e, step e s) s history.

Definition reachable (s : server) : Prop :=
  ∃ history, s = run history server_init.

(** No task runs for the lecture. *)
Definition no_worker (s : server) (lecture_id : string) : Prop :=
  ∀ w t,
    tasks s !! w = Some t → task_status t = Running →
    task_lecture t ≠ lecture_id.

(** No connection for the lecture is opened in [history]. *)
Definition no_connection (lecture_id : string) (history : list event) : Prop :=
  ∀ ws, Connects lecture_id ws ∉ history.

(** The task [worker] runs for the lecture. *)
Definition live_worker (s : server) (lecture_id : string) (worker : nat)
  : Prop :=
  ∃ t, tasks s !! worker = Some t
       ∧ task_lecture t = lecture_id ∧ task_status t = Running.

(** The items a worker has taken off a queue. *)
Definition taken (s : server) : list nat := snd <$> processed s.

(** What every reachable server satisfies. *)
Record consistent (s : server) : Prop := {
  running_registered :
    ∀ w t,
      tasks s !! w = Some t → task_status t = Running →
      processing_tasks s !! task_lecture t = Some w;
  waits_on_current :
    ∀ w t q,
      tasks s !! w = Some t → task_status t = Running →
      task_waits_on t = Some q →
      audio_queues s !! task_lecture t = Some q;
  queues_exist :
    ∀ l q, audio_queues s !! l = Some q → q < length (queues s);
  queues_distinct :
    ∀ l1 l2 q,
      audio_queues s !! l1 = Some q → audio_queues s !! l2 = Some q →
      l1 = l2;
  items_distinct : NoDup (concat (queues s) ++ taken s);
  items_known :
    Forall (λ x, x < items_made s) (concat (queues s) ++ taken s)
}.

(** A queue object nobody can reach any more: no lecture is bound to it
    and no running task is suspended in its [get()]. *)
Definition orphaned (s : server) (q : nat) : Prop :=
  q < length (queues s)
  ∧ (∀ l, audio_queues s !! l ≠ Some q)
  ∧ (∀ w t,
       tasks s !! w = Some t → task_status t = Running →
       task_waits_on t ≠ Some q).

(** A server with a connected lecture "L", a running worker that took one
    item, and two items pending on the queue. *)
Definition busy_history : list event :=
  [Connects "L" 0; SendsChunk "L"; SendsChunk "L"; WorkerGets 0;
   SendsChunk "L"].

Definition busy_server : server := run busy_history server_init.

(** ** How the processor evolves

    The three updates the pipeline makes to the dictionaries of a lecture:
    a fragment is appended to its buffer (line 160), a structured note to
    its history (line 288), or its timestamp is set and its buffer cut to
    the newest fragment (lines 312-315). *)
Inductive update (lecture_id : string) : processor → processor → Prop :=
| update_buffer f p :
    update lecture_id p (append_buffer lecture_id f p)
| update_history notes p :
    update lecture_id p (append_history lecture_id notes p)
| update_trim t p :
    update lecture_id p
      (set_buffer lecture_id (slice_last 1 (buffer_of p lecture_id))
         (set_last_synthesis lecture_id t p)).

Definition evolves (lecture_id : string) : processor → processor → Prop :=
  rtc (update lecture_id).

(** The three dictionary entries of a lecture ([None]: no such key). *)
Definition entries (p : processor) (lecture_id : string)
  : option (list fragment) * option Q * option (list string) :=
  (transcription_buffers p !! lecture_id,
   last_synthesis_time p !! lecture_id,
   structured_notes_history p !! lecture_id).

(** ** Assumptions on the collaborators *)

(** The task is not cancelled during any call: no collaborator answers
    [asyncio.CancelledError]. *)
Record uncancelled (E : env) : Prop := {
  transcribe_uncancelled :
    ∀ h path, not_cancelled (transcribe_local E h path);
  query_uncancelled :
    ∀ h text lid k, not_cancelled (query_documents E h text lid k);
  enrich_uncancelled :
    ∀ h text ctx lid previous,
      not_cancelled (generate_raw_notes E h text ctx lid previous);
  score_uncancelled :
    ∀ h text segments, not_cancelled (score_importance E h text segments);
  save_uncancelled :
    ∀ h lid i text notes t importance,
      not_cancelled (save_transcription E h lid i text notes t importance);
  detect_uncancelled :
    ∀ h latest previous,
      not_cancelled (detect_topic_shift E h latest previous);
  synthesize_uncancelled :
    ∀ h ts ctx lid previous,
      not_cancelled (synthesize_structured_notes E h ts ctx lid previous);
  notes_save_uncancelled :
    ∀ h lid content n, not_cancelled (save_structured_notes E h lid content n);
  final_uncancelled :
    ∀ h lid notes ctx, not_cancelled (synthesize_final_notes E h lid notes ctx);
  final_save_uncancelled :
    ∀ h lid title markdown sections glossary key_takeaways,
      not_cancelled
        (save_final_notes E h lid title markdown sections glossary
                          key_takeaways)
}.

(** Every websocket takes every push. *)
Definition websockets_open (E : env) : Prop :=
  ∀ h ws m, send_json E h ws m = Ok tt.

(** The services the loop body calls outside any [try] block (retrieval,
    enrichment, scoring, topic-shift detection) return. *)
Record enrichment_available (E : env) : Prop := {
  retrieval_available :
    ∀ h text lid k, returns (query_documents E h text lid k);
  generation_available :
    ∀ h text ctx lid previous,
      returns (generate_raw_notes E h text ctx lid previous);
  scoring_available :
    ∀ h text segments, returns (score_importance E h text segments);
  detection_available :
    ∀ h latest previous, returns (detect_topic_shift E h latest previous)
}.

(** A session in which everything that may fail without ending the worker
    does fail: the transcription of the file "noise", both persistence
    sinks, the synthesis services and the removal of the audio file
    raise. *)
Definition failing_env : env :=
  {| time_time := λ _, 0%Q;
     transcribe_local := λ _ path,
       if decide (path = "noise") then Raise (Exception "no audio")
       else Ok (plain_transcription path);
     query_documents := λ _ _ _ _, Ok [];
     generate_raw_notes := λ _ text _ _ _, Ok text;
     score_importance := λ _ _ _, Ok None;
     save_transcription := λ _ _ _ _ _ _ _, Raise (Exception "database down");
     send_json := λ _ _ _, Ok tt;
     detect_topic_shift := λ _ _ _, Ok true;
     synthesize_structured_notes := λ _ _ _ _ _,
       Raise (Exception "synthesis failed");
     save_structured_notes := λ _ _ _ _, Raise (Exception "database down");
     synthesize_final_notes := λ _ _ _ _,
       Raise (Exception "final synthesis failed");
     save_final_notes := λ _ _ _ _ _ _ _, Raise (Exception "database down");
     unlink := λ _ _, Raise (Exception "no such file");
     asyncio_sleep := λ _ _, Ok tt |}.

(** A session whose retrieval service is down. *)
Definition outage_env : env :=
  {| time_time := λ _, 0%Q;
     transcribe_local := λ _ path, Ok (plain_transcription path);
     query_documents := λ _ _ _ _, Raise (Exception "search unavailable");
     generate_raw_notes := λ _ text _ _ _, Ok text;
     score_importance := λ _ _ _, Ok None;
     save_transcription := λ _ _ _ _ _ _ _, Ok tt;
     send_json := λ _ _ _, Ok tt;
     detect_topic_shift := λ _ _ _, Ok false;
     synthesize_structured_notes := λ _ ts _ _ _, synth_ok ts;
     save_structured_notes := λ _ _ _ _, Ok tt;
     synthesize_final_notes := λ _ _ notes _, final_ok notes;
     save_final_notes := λ _ _ _ _ _ _ _, Ok tt;
     unlink := λ _ _, Ok tt;
     asyncio_sleep := λ _ _, Ok tt |}.

(** A session whose websocket refuses the [structured_notes] message and
    takes every other one. *)
Definition refusing_env : env :=
  {| time_time := λ _, 1000%Q;
     transcribe_local := λ _ path, Ok (plain_transcription path);
     query_documents := λ _ _ _ _, Ok [];
     generate_raw_notes := λ _ text _ _ _, Ok text;
     score_importance := λ _ _ _, Ok None;
     save_transcription := λ _ _ _ _ _ _ _, Ok tt;
     send_json := λ _ _ m,
       match m with
       | MStructuredNotes _ _ _ => Raise (Exception "connection closed")
       | _ => Ok tt
       end;
     detect_topic_shift := λ _ _ _, Ok false;
     synthesize_structured_notes := λ _ ts _ _ _, synth_ok ts;
     save_structured_notes := λ _ _ _ _, Ok tt;
     synthesize_final_notes := λ _ _ notes _, final_ok notes;
     save_final_notes := λ _ _ _ _ _ _ _, Ok tt;
     unlink := λ _ _, Ok tt;
     asyncio_sleep := λ _ _, Ok tt |}.

(** ** Where the calls of a lecture go

    A call is well addressed for a lecture and a list of websockets when it
    names that lecture, if it names one, pushes to one of these websockets,
    if it is a push, and hands between one and three fragments to the
    synthesis service, if it is a synthesis. *)
Definition well_addressed (lecture_id : string) (sockets : list websocket)
    (c : call) : Prop :=
  match c with
  | CSend ws _ => ws ∈ sockets
  | CSynthesize ts _ lid _ => lid = lecture_id ∧ 1 ≤ length ts ≤ 3
  | CQuery _ lid _
  | CGenerateRawNotes _ _ lid _
  | CSaveTranscription lid _ _ _ _ _
  | CSaveStructuredNotes lid _ _
  | CSynthesizeFinal lid _ _
  | CSaveFinalNotes lid _ _ _ _ _ => lid = lecture_id
  | CTime | CSleep _ | CTranscribe _ | CScoreImportance _ _
  | CDetectTopicShift _ _ | CUnlink _ => True
  end.

(** The audio files handed to the transcription service, in order. *)
Definition transcribed_files (l : list call) : list string :=
  omap (λ c, match c with CTranscribe path => Some path | _ => None end) l.

(** ** The loop body among the other coroutines

    The worker shares the event loop with the connection handlers.  While
    it is suspended at an [await] they run, and they read and write the
    dictionaries of its lecture: the handling of [stop_recording] runs
    [synthesize_notes] (lines 590-591).  An [interleaving] gives what the
    other coroutines do during each of the four suspensions of lines
    160-204. *)
Record interleaving := {
  during_retrieval : M unit;
  during_enrichment : M unit;
  during_save : M unit;
  during_push : M unit
}.

(** No other coroutine runs. *)
Definition quiet : interleaving :=
  {| during_retrieval := ret tt; during_enrichment := ret tt;
     during_save := ret tt; during_push := ret tt |}.

(** [await m] among other coroutines: the call is made and the coroutine
    is suspended; the others run, their calls are recorded and what they
    did to the processor stays (what they raise is theirs); then the
    coroutine is resumed with the answer to its call. *)
Definition await {A} (m : M A) (others : M unit) : M A := λ w,
  let '(r, w1) := m w in
  (r, {| proc := proc (snd (others w1));
         trace := trace w1 ++ emitted others w1 |}).

Section Interleaved.

Variable E : env.

(** Lines 152-204 of the loop body: the fragment is appended to the
    buffer, enriched, saved and pushed.  The worker is suspended at lines
    164, 167, 185 and 198; [chunk_index] is read when it has resumed from
    the second suspension (line 175) and [chunk_number] when it has
    resumed from the third (line 203). *)
Definition store_transcription (others : interleaving) (lecture_id : string)
    (chunk_data : chunk) (transcription_result : transcription_result)
    (transcription_text : string) : M unit :=
  let ws := chunk_websocket chunk_data in
  let transcription_data :=
    {| frag_text := transcription_text;
       frag_timestamp := chunk_timestamp chunk_data;
       frag_language := tr_language transcription_result;
       frag_duration := tr_duration transcription_result |} in
  modify (append_buffer lecture_id transcription_data);;
  rag_context ←
    await (do_query_documents E transcription_text lecture_id 5)
          (during_retrieval others);
  enhanced_notes ←
    await (do_generate_raw_notes E transcription_text rag_context lecture_id [])
          (during_enrichment others);
  buffer ← gets (λ p, buffer_of p lecture_id);
  let chunk_index := (Z.of_nat (length buffer) - 1)%Z in
  importance_result ←
    do_score_importance E transcription_text
                        (tr_segments transcription_result);
  let importance := default (1 # 2)%Q importance_result in
  try_except
    (await (do_save_transcription E lecture_id chunk_index transcription_text
                                  enhanced_notes (chunk_timestamp chunk_data)
                                  importance)
           (during_save others))
    (λ _, ret tt);;
  buffer ← gets (λ p, buffer_of p lecture_id);
  await (do_send_json E ws
           (MTranscription transcription_text enhanced_notes
                           (chunk_timestamp chunk_data) (length buffer)))
        (during_push others).

(** The connection handler of the lecture handles [stop_recording] on the
    websocket [ws] while the worker waits for the enhanced notes
    (line 167). *)
Definition stop_during_enrichment (lecture_id : string) (ws : websocket)
  : interleaving :=
  {| during_retrieval := ret tt;
     during_enrichment := handle_message E lecture_id ws (Some "stop_recording");
     during_save := ret tt;
     during_push := ret tt |}.

(** The same while the worker waits for [save_transcription]
    (line 185). *)
Definition stop_during_save (lecture_id : string) (ws : websocket)
  : interleaving :=
  {| during_retrieval := ret tt;
     during_enrichment := ret tt;
     during_save := handle_message E lecture_id ws (Some "stop_recording");
     during_push := ret tt |}.

End Interleaved.

(** A coroutine that leaves the buffer of the lecture as it is. *)
Definition leaves_buffer (lecture_id : string) (o : M unit) : Prop :=
  ∀ w, buffer_of (proc (snd (o w))) lecture_id = buffer_of (proc w) lecture_id.

(** The other coroutines persist no fragment. *)
Definition saves_nothing (others : interleaving) : Prop :=
  ∀ o w,
    o ∈ [during_retrieval others; during_enrichment others;
         during_save others; during_push others] →
    saved_indices (emitted o w) = [].

(** The persisted chunk index as the specification words it: whatever the
    other coroutines do while the worker is suspended, a fragment is saved
    with the length of the buffer at the moment of its append, minus
    one. *)
Definition chunk_index_as_specified : Prop :=
  ∀ (E : env) (others : interleaving) (lecture_id : string)
    (chunk_data : chunk) (transcription : transcription_result)
    (text : string) (w : world) (chunk_index : Z),
    let transcription_data :=
      {| frag_text := text;
         frag_timestamp := chunk_timestamp chunk_data;
         frag_language := tr_language transcription;
         frag_duration := tr_duration transcription |} in
    let appended := buffer_of (proc w) lecture_id ++ [transcription_data] in
    saves_nothing others →
    chunk_index
      ∈ saved_indices
          (emitted (store_transcription E others lecture_id chunk_data
                                        transcription text) w) →
    chunk_index = (Z.of_nat (length appended) - 1)%Z.

(** ** Connections that overlap other events

    Between the registration of the websocket (line 403) and the start of
    the new task (line 560), [websocket_endpoint] gives control away once,
    at [await old_task] (line 550), and only when the lecture has a
    registered task.  An [action] is what runs without interruption: an
    event, the first part of a connection handler, or its second part,
    which knows the task it has awaited. *)
Inductive action :=
| Atomic (e : event)
| Begins (lecture_id : string) (ws : websocket)
| Resumes (lecture_id : string) (old_task : option nat).

Definition act (a : action) (s : server) : server :=
  match a with
  | Atomic e => step e s
  | Begins lecture_id ws => snd (websocket_endpoint_begin lecture_id ws s)
  | Resumes lecture_id old_task =>
      websocket_endpoint_resume lecture_id old_task s
  end.

(** The server after the actions, oldest first. *)
Definition perform (actions : list action) (s : server) : server :=
  foldl (λ s a, act a s) s actions.

(** The work items are accounted for: each one made so far is in at most
    one place, a queue or the log of taken items, and there once. *)
Definition accounted (s : server) : Prop :=
  NoDup (concat (queues s) ++ taken s)
  ∧ Forall (λ x, x < items_made s) (concat (queues s) ++ taken s).

(** The handlers that are suspended at [await old_task], by lecture, with
    the task each one awaits. *)
Abbreviation suspended := (gmap string (option nat)).

(** The connection handlers of one lecture do not overlap: a handler of a
    lecture begins only when none is suspended for it, and the handler that
    resumes is the suspended one. *)
Fixpoint sequential (pending : suspended) (s : server)
    (actions : list action) : Prop :=
  match actions with
  | [] => True
  | a :: rest =>
    match a with
    | Atomic (Connects lecture_id _) =>
        pending !! lecture_id = None ∧ sequential pending (act a s) rest
    | Atomic _ => sequential pending (act a s) rest
    | Begins lecture_id ws =>
        pending !! lecture_id = None
        ∧ sequential
            (<[lecture_id := fst (websocket_endpoint_begin lecture_id ws s)]>
               pending)
            (act a s) rest
    | Resumes lecture_id old_task =>
        pending !! lecture_id = Some old_task
        ∧ sequential (delete lecture_id pending) (act a s) rest
    end
  end.

(** The server is consistent and no worker runs for a lecture whose
    handler is suspended. *)
Definition settled (pending : suspended) (s : server) : Prop :=
  consistent s ∧ ∀ l old, pending !! l = Some old → no_worker s l.

(** Two connections for lecture "L", which has a running worker, whose
    handlers are both suspended at [await old_task] (line 550) before
    either resumes. *)
Definition overlapping_reconnects : list action :=
  [Atomic (Connects "L" 0); Begins "L" 1; Begins "L" 2;
   Resumes "L" (Some 0); Resumes "L" (Some 0)].

(** A reconnection during whose await a chunk arrives and the old worker
    is given a turn. *)
Definition reconnection : list action :=
  [Atomic (Connects "L" 0); Atomic (SendsChunk "L"); Atomic (SendsChunk "L");
   Atomic (WorkerGets 0); Begins "L" 1; Atomic (SendsChunk "L");
   Atomic (WorkerGets 0); Resumes "L" (Some 0); Atomic (SendsChunk "L");
   Atomic (WorkerGets 1)].

(** ** The HTTP endpoints

    The endpoints [create_lecture_endpoint] (lines 434-472),
    [upload_documents] (lines 475-522) and [receive_audio_chunk] with
    [process_audio_chunk] (lines 525-536 and 86-121).  Token verification,
    the lecture store, document processing, the clock and the file system
    are collaborators, answered from the calls made so far; [pathlib]'s
    [/] is a function [joinpath] of the environment. *)

(** JSON values, as Python holds them. *)
#[local] Unset Elimination Schemes.
Inductive json :=
| JNull
| JBool (b : bool)
| JNumber (x : Q)
| JString (s : string)
| JArray (items : list json)
| JObject (fields : gmap string json).
#[local] Set Elimination Schemes.

(** The truth value of a JSON value: [None], [False], zero and the empty
    string, list and dict are false. *)
Definition truthy (v : json) : bool :=
  match v with
  | JNull => false
  | JBool b => b
  | JNumber x => negb (Qeq_bool x 0)
  | JString s => str_truthy s
  | JArray items => match items with [] => false | _ => true end
  | JObject fields => negb (bool_decide (fields = ∅))
  end.

(** [a or b]. *)
Definition py_or (a b : json) : json := if truthy a then a else b.

(** [d.get(key)] and [d.get(key, fallback)]. *)
Definition dict_get (d : gmap string json) (key : string) : json :=
  default JNull (d !! key).

Definition dict_get_default (d : gmap string json) (key : string)
    (fallback : json) : json :=
  default fallback (d !! key).

(** [v[key]]; [None] stands for the [KeyError] of a dict without the key
    and the [TypeError] of a value that is not a dict. *)
Definition subscript (v : json) (key : string) : option json :=
  match v with
  | JObject fields => fields !! key
  | _ => None
  end.

(** [s.replace(old, new)] for a non-empty [old]: the occurrences of [old]
    are replaced from left to right; [skip] characters of an occurrence
    that has been replaced are still to be passed over. *)
Fixpoint replace_from (old new : string) (skip : nat) (s : string) : string :=
  match s with
  | EmptyString => EmptyString
  | String c rest =>
    match skip with
    | S k => replace_from old new k rest
    | 0 =>
      if String.prefix old s then
        new +:+ replace_from old new (String.length old - 1) rest
      else String c (replace_from old new 0 rest)
    end
  end.

Definition replace (old new s : string) : string := replace_from old new 0 s.

(** [old in s]. *)
Fixpoint contains (old s : string) : bool :=
  String.prefix old s
  || match s with
     | String _ rest => contains old rest
     | EmptyString => false
     end.

(** [str(n)] of an integer. *)
Definition decimal (n : Z) : string := NilZero.string_of_int (Z.to_int n).

(** An uploaded file: its name and what reading it gives. *)
Record upload := {
  upload_filename : string;
  upload_read : result string
}.

(** The calls the endpoints make. *)
Inductive api_call :=
| AVerifyToken (token : string)
| ACreateLecture (user_id subject_id title : json)
| AClock
| AMkdir (path : string)
| AOpen (path : string)
| ARead (filename : string)
| AWrite (path content : string)
| AProcessDocument (file_path lecture_id filename : string).

Record api := {
  api_time : list api_call → Q;
  verify_token : list api_call → string → result json;
  create_lecture : list api_call → json → json → json → result json;
  temp_dir : string;
  joinpath : string → string → string;
  mkdir : list api_call → string → result unit;
  open_wb : list api_call → string → result unit;
  write : list api_call → string → string → result unit;
  process_document :
    list api_call → string → string → string → result (gmap string json)
}.

(** What the endpoints work on: the websocket registered for each lecture
    ([manager.active_connections]), the chunks waiting on the queue of each
    lecture ([processor.audio_queues]), and the calls made so far. *)
Record site := {
  registered : gmap string websocket;
  waiting : gmap string (list chunk);
  calls : list api_call
}.

(** The content of [self.audio_queues[lecture_id]]. *)
Definition waiting_of (s : site) (lecture_id : string) : list chunk :=
  default [] (waiting s !! lecture_id).

Definition Api (X : Type) : Type := site → result X * site.

#[export] Instance Api_ret : MRet Api := λ X x s, (Ok x, s).

#[export] Instance Api_bind : MBind Api := λ X Y k m s,
  match m s with
  | (Ok x, s') => k x s'
  | (Raise e, s') => (Raise e, s')
  end.

Definition api_raise {X} (e : exn) : Api X := λ s, (Raise e, s).

(** A call to a collaborator, answered from the calls made so far. *)
Definition request {X} (c : api_call) (answer : list api_call → result X)
  : Api X :=
  λ s, (answer (calls s),
        {| registered := registered s; waiting := waiting s;
           calls := calls s ++ [c] |}).

(** [try: m  except Exception as e: handler(str(e))]. *)
Definition api_try {X} (m : Api X) (handler : string → Api X) : Api X := λ s,
  match m s with
  | (Raise (Exception msg), s') => handler msg s'
  | r => r
  end.

(** [try: m  except: handler] (a bare [except]). *)
Definition api_try_all {X} (m : Api X) (handler : Api X) : Api X := λ s,
  match m s with
  | (Raise _, s') => handler s'
  | r => r
  end.

Definition api_gets {X} (f : site → X) : Api X := λ s, (Ok (f s), s).

(** The outcome of a computation that calls no collaborator. *)
Definition api_result {X} (r : result X) : Api X := λ s, (r, s).

Definition api_modify (f : site → site) : Api unit := λ s, (Ok tt, f s).

(** The calls a run adds. *)
Definition requested {X} (m : Api X) (s : site) : list api_call :=
  drop (length (calls s)) (calls (snd (m s))).

Section Endpoints.

Variable A : api.

Definition api_now : Api Q := request AClock (λ h, Ok (api_time A h)).

(** *** [create_lecture_endpoint] *)

Record lecture_response := {
  response_id : json;
  response_title : json;
  response_subject_id : json;
  response_user_id : json;
  response_status : string
}.

(** Lines 441-452: the user the request is made for, [None] unless a token
    is given and verified. *)
Definition optional_user (data : gmap string json) : Api json :=
  let authorization :=
    py_or (dict_get data "authorization") (dict_get data "token") in
  if truthy authorization then
    api_try_all
      match authorization with
      | JString s =>
        let token := replace "Bearer " "" s in
        user ← request (AVerifyToken token) (λ h, verify_token A h token);
        if truthy user then
          match subscript user "user_id" with
          | Some user_id => mret user_id
          | None => api_raise (Exception "user_id")
          end
        else mret JNull
      | _ => api_raise (Exception "replace")
      end
      (mret JNull)
  else mret JNull.

Definition create_lecture_endpoint (data : gmap string json)
  : Api lecture_response :=
  user_id ← optional_user data;
  let subject_id := dict_get data "subject_id" in
  let title := dict_get_default data "title" (JString "New Lecture") in
  lecture_id ←
    api_try
      (request (ACreateLecture user_id subject_id title)
               (λ h, create_lecture A h user_id subject_id title))
      (λ _, t ← api_now; mret (JString ("lecture-" +:+ decimal (py_int t))));
  mret {| response_id := lecture_id;
          response_title := title;
          response_subject_id := subject_id;
          response_user_id := user_id;
          response_status := "created" |}.

(** *** [upload_documents] *)

Record file_report := {
  report_filename : string;
  report_status : string;
  report_document_id : json;
  report_chunk_count : json
}.

Inductive upload_response :=
| Uploaded (message lecture_id : string) (files : list file_report)
           (total_files : nat)
| UploadFailed (error lecture_id : string).

(** Lines 486-506: one turn of the loop over the files. *)
Definition process_upload (lecture_id upload_dir : string) (file : upload)
  : Api file_report :=
  let file_path := joinpath A upload_dir (upload_filename file) in
  request (AOpen file_path) (λ h, open_wb A h file_path);;
  content ← request (ARead (upload_filename file)) (λ _, upload_read file);
  request (AWrite file_path content) (λ h, write A h file_path content);;
  result ←
    request (AProcessDocument file_path lecture_id (upload_filename file))
            (λ h, process_document A h file_path lecture_id
                                   (upload_filename file));
  mret {| report_filename := upload_filename file;
          report_status :=
            if truthy (dict_get result "success") then "success"
            else "failed";
          report_document_id := dict_get result "document_id";
          report_chunk_count :=
            dict_get_default result "chunk_count" (JNumber 0) |}.

Fixpoint process_uploads (lecture_id upload_dir : string)
    (files : list upload) (processed_files : list file_report)
  : Api (list file_report) :=
  match files with
  | [] => mret processed_files
  | file :: rest =>
    report ← process_upload lecture_id upload_dir file;
    process_uploads lecture_id upload_dir rest (processed_files ++ [report])
  end.

Definition upload_documents (lecture_id : string) (files : list upload)
  : Api upload_response :=
  api_try
    (let upload_dir := joinpath A "storage/uploads" lecture_id in
     request (AMkdir upload_dir) (λ h, mkdir A h upload_dir);;
     processed_files ← process_uploads lecture_id upload_dir files [];
     mret (Uploaded "Documents uploaded and processed successfully"
                    lecture_id processed_files (length files)))
    (λ e, mret (UploadFailed e lecture_id)).

End Endpoints.

(** *** Floats

    [time.time()] and its product with 1000 (line 90) are floats: IEEE 754
    binary64 numbers, with the operations of the standard library's
    [SpecFloat].  The clock reading is the float nearest to the rational
    the environment gives. *)
Definition float : Type := SpecFloat.spec_float.

(** The float nearest to a rational, ties to even. *)
Definition float_of_Q (x : Q) : float :=
  match Qnum x with
  | Z0 => SpecFloat.S754_zero false
  | Zpos n =>
    let '(m, e, l) :=
      SpecFloat.SFdiv_core_binary 53 1024 (Zpos n) 0 (Zpos (Qden x)) 0 in
    SpecFloat.binary_round_aux 53 1024 false m e l
  | Zneg n =>
    let '(m, e, l) :=
      SpecFloat.SFdiv_core_binary 53 1024 (Zpos n) 0 (Zpos (Qden x)) 0 in
    SpecFloat.binary_round_aux 53 1024 true m e l
  end.

(** [x * y] on floats: the nearest float to the product. *)
Definition float_mul (x y : float) : float := SpecFloat.SFmul 53 1024 x y.

(** [int(x)] on a float: truncation towards zero; an infinity raises
    [OverflowError] and a NaN [ValueError]. *)
Definition float_int (x : float) : result Z :=
  match x with
  | SpecFloat.S754_zero _ => Ok 0%Z
  | SpecFloat.S754_finite s m e =>
    let n :=
      match e with
      | Zneg k => Z.shiftr (Zpos m) (Zpos k)
      | _ => Z.shiftl (Zpos m) e
      end in
    Ok (if s then (- n)%Z else n)
  | SpecFloat.S754_infinity _ =>
    Raise (Exception "cannot convert float infinity to integer")
  | SpecFloat.S754_nan => Raise (Exception "cannot convert float NaN to integer")
  end.

(** [int(t * 1000)] for a clock reading [t]. *)
Definition milliseconds (t : Q) : result Z :=
  float_int (float_mul (float_of_Q t) (float_of_Q 1000)).

(** *** [receive_audio_chunk] and [process_audio_chunk] *)

Inductive chunk_response :=
| Queued (size queue_size : nat)
| ChunkRefused (error : string).

(** [await self.audio_queues[lecture_id].put(item)]. *)
Definition put (lecture_id : string) (item : chunk) (s : site) : site :=
  {| registered := registered s;
     waiting := <[lecture_id := waiting_of s lecture_id ++ [item]]> (waiting s);
     calls := calls s |}.

Module Http.

Section Chunks.

Variable A : api.

(** [OptimizedAudioProcessor.process_audio_chunk]; the extension computed
    at line 94 is not used. *)
Definition process_audio_chunk (lecture_id : string) (audio_file : upload)
    (ws : websocket) : Api chunk_response :=
  api_try
    (t ← api_now A;
     timestamp ← api_result (milliseconds t);
     let filename :=
       "chunk_" +:+ lecture_id +:+ "_" +:+ decimal timestamp +:+ ".wav" in
     let file_path := joinpath A (temp_dir A) filename in
     request (AOpen file_path) (λ h, open_wb A h file_path);;
     content ←
       request (ARead (upload_filename audio_file))
               (λ _, upload_read audio_file);
     request (AWrite file_path content) (λ h, write A h file_path content);;
     let file_size := String.length content in
     api_modify (put lecture_id {| chunk_file_path := file_path;
                                   chunk_timestamp := timestamp;
                                   chunk_websocket := ws |});;
     queue_size ← api_gets (λ s, length (waiting_of s lecture_id));
     mret (Queued file_size queue_size))
    (λ e, mret (ChunkRefused e)).

Definition receive_audio_chunk (lecture_id : string) (audio_file : upload)
  : Api chunk_response := λ s,
  match registered s !! lecture_id with
  | None =>
    (Ok (ChunkRefused "No active WebSocket connection for this lecture"), s)
  | Some ws => process_audio_chunk lecture_id audio_file ws s
  end.

End Chunks.

End Http.

(** *** Sample requests *)

(** A token service that knows the token "t0k3n" of user "u1", and a
    lecture store that is down, at 12.5 seconds past the epoch. *)
Definition sample_api : api :=
  {| api_time := λ _, (25 # 2)%Q;
     verify_token := λ _ token,
       if decide (token = "t0k3n")
       then Ok (JObject {[ "user_id" := JString "u1" ]})
       else Raise (Exception "invalid token");
     create_lecture := λ _ _ _ _, Raise (Exception "database down");
     temp_dir := "/tmp/eduscribe_audio";
     joinpath := λ base name, base +:+ "/" +:+ name;
     mkdir := λ _ _, Ok tt;
     open_wb := λ _ path,
       if decide (path = "storage/uploads/L/locked.pdf")
       then Raise (Exception "permission denied")
       else Ok tt;
     write := λ _ _ _, Ok tt;
     process_document := λ _ _ _ filename,
       if decide (filename = "empty.pdf")
       then Ok {[ "success" := JBool false ]}
       else Ok {[ "success" := JBool true; "document_id" := JString filename;
                  "chunk_count" := JNumber 3 ]} |}.

Definition empty_site : site :=
  {| registered := ∅; waiting := ∅; calls := [] |}.

Definition document (name : string) : upload :=
  {| upload_filename := name; upload_read := Ok "%PDF" |}.

(** The files handed to document processing, by name, in order. *)
Definition processed_documents (l : list api_call) : list string :=
  omap (λ c, match c with
             | AProcessDocument _ _ filename => Some filename
             | _ => None
             end) l.

(** No call of an upload is interrupted by the cancellation of the
    task. *)
Record upload_uncancelled (A : api) (files : list upload) : Prop := {
  mkdir_uncancelled : ∀ h path, not_cancelled (mkdir A h path);
  open_uncancelled : ∀ h path, not_cancelled (open_wb A h path);
  read_uncancelled :
    ∀ file, file ∈ files → not_cancelled (upload_read file);
  write_uncancelled : ∀ h path content, not_cancelled (write A h path content);
  process_uncancelled :
    ∀ h path lecture_id filename,
      not_cancelled (process_document A h path lecture_id filename)
}.

(** The tokens handed to the token service, in order. *)
Definition verified_tokens (l : list api_call) : list string :=
  omap (λ c, match c with AVerifyToken token => Some token | _ => None end) l.

(** A report says what document processing answered for its file. *)
Definition reports_processing (A : api) (lecture_id : string)
    (report : file_report) : Prop :=
  ∃ h path result,
    process_document A h path lecture_id (report_filename report) = Ok result
    ∧ report_status report
      = (if truthy (dict_get result "success") then "success" else "failed")
    ∧ report_document_id report = dict_get result "document_id"
    ∧ report_chunk_count report
      = dict_get_default result "chunk_count" (JNumber 0).

(* ================================================================== *)
(** * Properties *)

#[local] Arguments buffer_of : simpl never.
#[local] Arguments history_of : simpl never.
#[local] Arguments last_synthesis_of : simpl never.
#[local] Arguments slice_last : simpl never.
#[local] Arguments slice_init : simpl never.
#[local] Arguments join : simpl never.
#[local] Arguments strip : simpl never.
#[local] Arguments py_int : simpl never.

(** Unfolds the monad and the collaborator wrappers, and nothing else. *)
Ltac mred :=
  lazy beta iota zeta delta
    [mbind M_bind mret M_ret bind ret raise try_except try_pass gets modify
     extern now sleep do_transcribe_local do_query_documents
     do_generate_raw_notes do_score_importance do_save_transcription
     do_send_json do_detect_topic_shift do_synthesize_structured_notes
     do_save_structured_notes do_synthesize_final_notes do_save_final_notes
     do_unlink];
  cbn [proc trace fst snd].

(** ** Whitespace and [strip] *)

Lemma lstrip_whitespace s : whitespace_only s = true → lstrip s = EmptyString.
Proof.
  induction s as [|c s IH]; cbn; [done|].
  intros [Hc Hs]%andb_true_iff. rewrite Hc. auto.
Qed.

Lemma strip_whitespace s : whitespace_only s = true → strip s = EmptyString.
Proof. intros H. unfold strip. by rewrite lstrip_whitespace. Qed.

Lemma rstrip_nonspace c s : is_space c = false → rstrip (String c s) ≠ EmptyString.
Proof. intros Hc. cbn. destruct (rstrip s); [by rewrite Hc|done]. Qed.

Lemma strip_empty_whitespace s : strip s = EmptyString → whitespace_only s = true.
Proof.
  unfold strip. induction s as [|c s IH]; [done|].
  cbn [lstrip whitespace_only]. destruct (is_space c) eqn:Hc; [exact IH|].
  intros H. by apply rstrip_nonspace in H.
Qed.

(** ** Slices *)

Lemma slice_last_app {A} (a b : list A) : slice_last (length b) (a ++ b) = b.
Proof.
  unfold slice_last. rewrite length_app.
  replace (length a + length b - length b) with (length a) by lia.
  by rewrite drop_app_length.
Qed.

Lemma last_three {A} (l : list A) :
  3 ≤ length l → ∃ older x y z, l = older ++ [x; y; z].
Proof.
  intros Hl. exists (take (length l - 3) l).
  pose proof (take_drop (length l - 3) l) as Hsplit.
  assert (length (drop (length l - 3) l) = 3) as Hd
    by (rewrite length_drop; lia).
  destruct (drop (length l - 3) l) as [|x [|y [|z [|]]]]; try done.
  by exists x, y, z.
Qed.

Lemma slice_last_nil {A} (l : list A) (n : nat) :
  0 < n → slice_last n l = [] → l = [].
Proof.
  unfold slice_last. intros Hn Hd.
  apply (f_equal length) in Hd. rewrite length_drop in Hd. cbn in Hd.
  destruct l; [done|]. cbn in Hd. lia.
Qed.

Lemma slice_last_one {A} (l : list A) x :
  last l = Some x → slice_last 1 l = [x].
Proof. intros [l' ->]%last_Some. apply (slice_last_app l' [x]). Qed.

(** ** Running a computation *)

(** A term that still holds a case analysis. *)
Ltac undecided x :=
  match x with context [match _ with _ => _ end] => idtac end.

(** Splits on the innermost answer the goal still waits for. *)
Ltac mcase :=
  match goal with
  | |- context [match ?x with _ => _ end] =>
      tryif undecided x then fail else destruct x eqn:?
  end;
  mred.

Ltac trace_norm := rewrite <- ?app_assoc; cbn [app].

(** Closes [x ∈ l] in a hypothesis when no element of the explicit list
    [l] has the constructor of [x]. *)
Ltac absent H :=
  cbn in H;
  repeat (apply elem_of_cons in H as [H|H]; [discriminate H|]);
  by apply elem_of_nil in H.

(** On a non-empty buffer a round starts with its retrieval query. *)
Lemma synthesize_notes_trace E lecture_id ws w :
  buffer_of (proc w) lecture_id ≠ [] →
  ∃ rest,
    trace (snd (synthesize_notes E lecture_id ws w))
    = trace w
      ++ CQuery (join " " (frag_text <$>
                             slice_last 3 (buffer_of (proc w) lecture_id)))
                lecture_id 5 :: rest.
Proof.
  intros Hbuf. unfold synthesize_notes. mred.
  destruct (slice_last 3 (buffer_of (proc w) lecture_id)) as [|f fs] eqn:Hslice.
  { by apply slice_last_nil in Hslice; [|lia]. }
  mred. repeat mcase; trace_norm; eexists; reflexivity.
Qed.

(** ** The synthesis trigger *)

Section Trigger.

Variables (E : env) (lecture_id : string) (ws : websocket) (w : world).

Let buffer := buffer_of (proc w) lecture_id.
Let last_synthesis := last_synthesis_of (proc w) lecture_id.
Let elapsed := (time_time E (trace w) - last_synthesis)%Q.

(** 60 seconds have passed since the last synthesis, or there was none. *)
Let time_due := (60 <= elapsed)%Q ∨ last_synthesis == 0.

(** The detector, asked about the newest fragment against the two before
    it, answers [True]. *)
Let topic_shifted :=
  ∃ older f1 f2 f3,
    buffer = older ++ [f1; f2; f3]
    ∧ detect_topic_shift E (trace w ++ [CTime]) (frag_text f3)
                         [frag_text f1; frag_text f2] = Ok true.

Let due := 3 ≤ length buffer ∧ (time_due ∨ (¬ time_due ∧ topic_shifted)).

Lemma time_due_bool :
  Qle_bool 60 elapsed || Qeq_bool last_synthesis 0 = true ↔ time_due.
Proof.
  unfold time_due. rewrite orb_true_iff, Qle_bool_iff, Qeq_bool_iff. tauto.
Qed.

Lemma should_synthesize_due :
  fst (should_synthesize E lecture_id w) = Ok true ↔ due.
Proof.
  unfold due, should_synthesize. mred. fold buffer last_synthesis elapsed.
  destruct (3 <=? length buffer) eqn:Hsize.
  - apply Nat.leb_le in Hsize.
    destruct (Qle_bool 60 elapsed || Qeq_bool last_synthesis 0) eqn:Htime.
    + apply time_due_bool in Htime. cbn. tauto.
    + assert (¬ time_due) as Hnot by (rewrite <- time_due_bool; congruence).
      destruct (last_three buffer Hsize) as (older & f1 & f2 & f3 & Hbuf).
      assert (slice_last 3 buffer = [f1; f2; f3]) as Hlast
        by (rewrite Hbuf; apply (slice_last_app older [f1; f2; f3])).
      rewrite Hlast.
      change (default "" (last (frag_text <$> [f1; f2; f3])))
        with (frag_text f3).
      change (slice_init (frag_text <$> [f1; f2; f3]))
        with [frag_text f1; frag_text f2].
      mred. split.
      * intros Hshift. split; [done|]. right. split; [done|].
        exists older, f1, f2, f3. split; [done|].
        destruct (detect_topic_shift _ _ _ _) as [[]|];
          cbn in Hshift; congruence.
      * intros (_ & [?|(_ & older' & g1 & g2 & g3 & Hbuf' & Hshift)]);
          [done|].
        rewrite Hbuf in Hbuf'.
        apply app_inj_2 in Hbuf' as [_ [= <- <- <-]]; [|done].
        by rewrite Hshift.
  - apply Nat.leb_gt in Hsize. cbn. split; [done|]. intros [? _]. lia.
Qed.

Lemma should_synthesize_world :
  ∃ l, (l = [] ∨ ∃ a b, l = [CDetectTopicShift a b])
       ∧ snd (should_synthesize E lecture_id w)
         = {| proc := proc w; trace := trace w ++ CTime :: l |}.
Proof.
  unfold should_synthesize. mred. repeat mcase; trace_norm; eauto 6.
Qed.

Lemma check_synthesis_unfold :
  check_synthesis E lecture_id ws w
  = match should_synthesize E lecture_id w with
    | (Ok true, w1) => synthesize_notes E lecture_id ws w1
    | (Ok false, w1) => (Ok tt, w1)
    | (Raise e, w1) => (Raise e, w1)
    end.
Proof.
  unfold check_synthesis. mred.
  destruct (should_synthesize E lecture_id w) as [[[]|] ?]; reflexivity.
Qed.

(** C1: after a fragment was appended, mid-stream synthesis fires exactly
    when the buffer holds at least 3 fragments and either 60 seconds have
    passed since the last synthesis (or its timestamp is 0), or, failing
    that, the topic-shift detector answers true on the newest fragment
    against the two before it.  With fewer than 3 fragments only the clock
    is read and nothing else happens; when the time condition holds the
    detector is not consulted. *)
Theorem synthesis_trigger :
  (fst (should_synthesize E lecture_id w) = Ok true ↔ due)
  ∧ (due →
     check_synthesis E lecture_id ws w
     = synthesize_notes E lecture_id ws
         (snd (should_synthesize E lecture_id w)))
  ∧ (synthesis_round_started lecture_id
       (emitted (check_synthesis E lecture_id ws) w) ↔ due)
  ∧ (length buffer < 3 →
     check_synthesis E lecture_id ws w
     = (Ok tt, {| proc := proc w; trace := trace w ++ [CTime] |}))
  ∧ (3 ≤ length buffer → time_due →
     should_synthesize E lecture_id w
     = (Ok true, {| proc := proc w; trace := trace w ++ [CTime] |})).
Proof.
  pose proof should_synthesize_due as Hdue.
  destruct should_synthesize_world as (l & Hl & Hw).
  unfold emitted. rewrite check_synthesis_unfold.
  destruct (should_synthesize E lecture_id w) as [r w1] eqn:Hrun.
  cbn [fst snd] in *. subst w1.
  split; [exact Hdue|]. split; [|split; [|split]].
  - intros ->%Hdue. reflexivity.
  - unfold synthesis_round_started. split.
    + intros [text Hin]. apply Hdue.
      destruct r as [[]|]; [done| |].
      all: exfalso; cbn [snd trace] in Hin; rewrite drop_app_length in Hin.
      all: destruct Hl as [->|(a & b & ->)]; absent Hin.
    + intros Hd. pose proof Hd as ->%Hdue. destruct Hd as [Hsize _].
      edestruct (synthesize_notes_trace E lecture_id ws
                   {| proc := proc w; trace := trace w ++ CTime :: l |})
        as [rest Hrest].
      { cbn [proc]. fold buffer. intros Hnil. rewrite Hnil in Hsize.
        cbn in Hsize. lia. }
      cbn [proc trace] in Hrest. rewrite <- app_assoc in Hrest.
      rewrite Hrest, drop_app_length.
      eexists. rewrite elem_of_app. right. left.
  - intros Hsmall. unfold should_synthesize in Hrun. revert Hrun. mred.
    fold buffer. destruct (3 <=? length buffer) eqn:Hsize.
    { apply Nat.leb_le in Hsize. lia. }
    by intros [= <- <-].
  - intros Hsize Htime. unfold should_synthesize in Hrun. revert Hrun. mred.
    fold buffer last_synthesis elapsed.
    apply Nat.leb_le in Hsize. apply time_due_bool in Htime.
    rewrite Hsize, Htime. by intros [= <- <-].
Qed.

End Trigger.

(** ** Reading the processor after an update *)

Lemma buffer_of_set_buffer lid b p : buffer_of (set_buffer lid b p) lid = b.
Proof. unfold buffer_of, set_buffer. cbn. by rewrite lookup_insert_eq. Qed.

Lemma history_of_append lid notes p :
  history_of (append_history lid notes p) lid = history_of p lid ++ [notes].
Proof.
  unfold history_of at 1, append_history. cbn. by rewrite lookup_insert_eq.
Qed.

Lemma last_synthesis_of_set lid t p :
  last_synthesis_of (set_last_synthesis lid t p) lid = t.
Proof.
  unfold last_synthesis_of, set_last_synthesis. cbn.
  by rewrite lookup_insert_eq.
Qed.

Lemma match_nonempty {A B} (l : list A) (x y : B) :
  l ≠ [] → match l with [] => x | _ :: _ => y end = y.
Proof. by destruct l. Qed.

Lemma slice_last_nonempty {A} (l : list A) n :
  0 < n → l ≠ [] → slice_last n l ≠ [].
Proof. intros Hn Hl Hs. by apply slice_last_nil in Hs. Qed.

(** ** One mid-stream synthesis round *)

Section Round.

Variables (E : env) (lecture_id : string) (ws : websocket) (w : world).
Variables (rag_context : list string).

Let buffer := buffer_of (proc w) lecture_id.
Let transcriptions := slice_last 3 buffer.
Let combined_text := join " " (frag_text <$> transcriptions).
Let previous_notes := last (history_of (proc w) lecture_id).

(** The calls of a round, in the order they are made. *)
Let query := CQuery combined_text lecture_id 5.
Let started := CSend ws (MSynthesisStarted "Generating structured notes...").
Let synthesis :=
  CSynthesize transcriptions rag_context lecture_id previous_notes.

(** The round reaches the synthesis service. *)
Hypothesis buffer_nonempty : buffer ≠ [].
Hypothesis retrieval_returns :
  query_documents E (trace w) combined_text lecture_id 5 = Ok rag_context.
Hypothesis started_accepted :
  send_json E (trace w ++ [query]) ws
            (MSynthesisStarted "Generating structured notes...") = Ok tt.

(** What the synthesis service answers. *)
Let answer :=
  synthesize_structured_notes E (trace w ++ [query; started]) transcriptions
                              rag_context lecture_id previous_notes.

Lemma synthesize_notes_reaches_service :
  synthesize_notes E lecture_id ws w
  = match answer with
    | Ok (SynthSuccess structured_notes) =>
      try_except
        (modify (append_history lecture_id structured_notes);;
         try_except
           (do_save_structured_notes E lecture_id structured_notes
                                     (length transcriptions))
           (λ _, ret tt);;
         t ← now E;
         do_send_json E ws
           (MStructuredNotes structured_notes (py_int (t * 1000))
                             (length transcriptions));;
         t' ← now E;
         modify (set_last_synthesis lecture_id t');;
         modify (λ p, set_buffer lecture_id
                        (slice_last 1 (buffer_of p lecture_id)) p))
        (λ e, do_send_json E ws (MSynthesisError e))
        {| proc := proc w; trace := trace w ++ [query; started; synthesis] |}
    | Ok (SynthFailure _) =>
      (Ok tt,
       {| proc := proc w; trace := trace w ++ [query; started; synthesis] |})
    | Raise (Exception msg) =>
      (send_json E (trace w ++ [query; started; synthesis]) ws
                 (MSynthesisError msg),
       {| proc := proc w;
          trace := trace w ++ [query; started; synthesis;
                               CSend ws (MSynthesisError msg)] |})
    | Raise CancelledError =>
      (Raise CancelledError,
       {| proc := proc w; trace := trace w ++ [query; started; synthesis] |})
    end.
Proof.
  assert (transcriptions ≠ []) as Hslice
    by (apply slice_last_nonempty; [lia|done]).
  unfold synthesize_notes. mred. fold buffer transcriptions.
  rewrite (match_nonempty transcriptions) by done. mred.
  fold combined_text previous_notes query.
  rewrite retrieval_returns. mred.
  rewrite started_accepted. mred. fold started. trace_norm.
  fold answer. destruct answer as [[notes|err]|[msg|]]; mred; trace_norm.
  - reflexivity.
  - reflexivity.
  - by destruct (send_json _ _ _ _).
  - reflexivity.
Qed.

Section Success.

Variable structured_notes : string.

Let saved :=
  CSaveStructuredNotes lecture_id structured_notes (length transcriptions).
Let sent_at := time_time E (trace w ++ [query; started; synthesis; saved]).
Let notes_message :=
  MStructuredNotes structured_notes (py_int (sent_at * 1000))
                   (length transcriptions).
Let finished_at :=
  time_time E (trace w ++ [query; started; synthesis; saved; CTime;
                           CSend ws notes_message]).

(** The service succeeds, and nothing interrupts the success path: the
    task is not cancelled while the notes are saved (the save itself may
    fail), and the websocket takes the notes. *)
Hypothesis synthesis_succeeds : answer = Ok (SynthSuccess structured_notes).
Hypothesis save_not_cancelled :
  not_cancelled
    (save_structured_notes E (trace w ++ [query; started; synthesis])
                           lecture_id structured_notes
                           (length transcriptions)).
Hypothesis notes_accepted :
  send_json E (trace w ++ [query; started; synthesis; saved; CTime]) ws
            notes_message = Ok tt.

Lemma synthesize_notes_success_run :
  synthesize_notes E lecture_id ws w
  = (Ok tt,
     {| proc :=
          set_buffer lecture_id (slice_last 1 buffer)
            (set_last_synthesis lecture_id finished_at
               (append_history lecture_id structured_notes (proc w)));
        trace :=
          trace w ++ [query; started; synthesis; saved; CTime;
                      CSend ws notes_message; CTime] |}).
Proof.
  rewrite synthesize_notes_reaches_service, synthesis_succeeds.
  mred. trace_norm. fold saved.
  destruct (save_structured_notes _ _ _ _ _) as [[]|[msg|]] eqn:Hsave;
    [| |done]; mred; trace_norm.
  all: fold sent_at notes_message; rewrite notes_accepted; mred; trace_norm.
  all: reflexivity.
Qed.

(** C2: on a successful mid-stream synthesis round the new structured
    note is appended to the history, the persistence sink is called with
    it, a [structured_notes] message is pushed, the last-synthesis
    timestamp becomes the clock reading taken then, and the buffer keeps
    its newest fragment only. *)
Theorem successful_round_effects :
  let round := synthesize_notes E lecture_id ws w in
  let w' := snd round in
  fst round = Ok tt
  ∧ history_of (proc w') lecture_id
    = history_of (proc w) lecture_id ++ [structured_notes]
  ∧ emitted (synthesize_notes E lecture_id ws) w
    = [query; started; synthesis; saved; CTime; CSend ws notes_message; CTime]
  ∧ message_type notes_message = "structured_notes"
  ∧ last_synthesis_of (proc w') lecture_id = finished_at
  ∧ ∃ newest,
      last buffer = Some newest ∧ buffer_of (proc w') lecture_id = [newest].
Proof.
  cbv zeta. unfold emitted. rewrite synthesize_notes_success_run.
  cbn [fst snd proc trace]. rewrite drop_app_length.
  split; [done|]. split; [|split; [done|split; [done|split]]].
  - unfold history_of at 1. cbn. rewrite lookup_insert_eq. done.
  - unfold last_synthesis_of at 1. cbn. by rewrite lookup_insert_eq.
  - destruct (last buffer) as [newest|] eqn:Hlast.
    + exists newest. split; [done|].
      rewrite buffer_of_set_buffer. by apply slice_last_one.
    + by apply last_None in Hlast.
Qed.

End Success.

(** C3 (amended): when the synthesis service raises, a [synthesis_error]
    message carrying the text of the exception is pushed; when it returns a
    result that is not a success, nothing is pushed after
    [synthesis_started]; either way the buffer, the last-synthesis timestamp
    and the history are what they were. *)
Theorem failed_round_effects :
  let round := synthesize_notes E lecture_id ws w in
  (∀ msg,
     answer = Raise (Exception msg) →
     emitted (synthesize_notes E lecture_id ws) w
     = [query; started; synthesis; CSend ws (MSynthesisError msg)]
     ∧ proc (snd round) = proc w)
  ∧ (∀ error,
       answer = Ok (SynthFailure error) →
       round
       = (Ok tt,
          {| proc := proc w;
             trace := trace w ++ [query; started; synthesis] |})
       ∧ pushed_types (emitted (synthesize_notes E lecture_id ws) w)
         = ["synthesis_started"]).
Proof.
  cbv zeta. unfold emitted. rewrite synthesize_notes_reaches_service.
  split.
  - intros msg ->. cbn [snd proc trace]. by rewrite drop_app_length.
  - intros error ->. cbn [snd proc trace]. by rewrite drop_app_length.
Qed.

End Round.

(** The successful round on the buffer "A", "B", "C" with a clock that
    reads 1000. *)
Lemma successful_round_effects_witness :
  let E := session_env (λ _, 1000%Q) synth_ok final_ok in
  let round := synthesize_notes E "L" 0 (session_world ["A"; "B"; "C"] []) in
  fst round = Ok tt
  ∧ history_of (proc (snd round)) "L" = ["A+B+C"]
  ∧ pushed_types (trace (snd round)) = ["synthesis_started"; "structured_notes"]
  ∧ last_synthesis_of (proc (snd round)) "L" = 1000%Q
  ∧ buffer_of (proc (snd round)) "L" = [heard "C"].
Proof.
  cbv zeta.
  assert (buffer_of (proc (session_world ["A"; "B"; "C"] [])) "L" ≠ [])
    as Hbuffer by discriminate.
  destruct (successful_round_effects
              (session_env (λ _, 1000%Q) synth_ok final_ok) "L" 0
              (session_world ["A"; "B"; "C"] []) []
              Hbuffer eq_refl eq_refl "A+B+C" eq_refl)
    as (Hret & Hhist & Htrace & _ & Hlast & newest & Hnewest & Hbuf).
  - discriminate.
  - reflexivity.
  - injection Hnewest as <-.
    split; [exact Hret|]. split; [exact Hhist|].
    split; [by vm_compute|]. split; [exact Hlast|exact Hbuf].
Defined.

(** A round whose synthesis service raises. *)
Lemma failed_round_effects_witness :
  let E := session_env (λ _, 1000%Q) synth_raises final_ok in
  let w := session_world ["A"; "B"; "C"] [] in
  pushed_types (emitted (synthesize_notes E "L" 0) w)
  = ["synthesis_started"; "synthesis_error"]
  ∧ proc (snd (synthesize_notes E "L" 0 w)) = proc w.
Proof.
  cbv zeta.
  assert (buffer_of (proc (session_world ["A"; "B"; "C"] [])) "L" ≠ [])
    as Hbuffer by discriminate.
  destruct (failed_round_effects
              (session_env (λ _, 1000%Q) synth_raises final_ok) "L" 0
              (session_world ["A"; "B"; "C"] []) []
              Hbuffer eq_refl eq_refl)
    as [Hraise _].
  - destruct (Hraise "synthesis failed" eq_refl) as [Htrace Hproc].
    split; [by rewrite Htrace|exact Hproc].
Defined.

(** C3 as worded fails: a service that returns an unsuccessful result
    leaves the client without a [synthesis_error] message. *)
Lemma unsuccessful_round_pushes_no_error : ¬ failed_round_as_specified.
Proof.
  intros Hspec.
  destruct (Hspec (session_env (λ _, 1000%Q) synth_unsuccessful final_ok)
                  "L" 0 (session_world ["A"; "B"; "C"] []) [])
    as [Hpushed _]; [discriminate|reflexivity|reflexivity|discriminate|].
  vm_compute in Hpushed.
  repeat (apply elem_of_cons in Hpushed as [Hpushed|Hpushed];
          [discriminate Hpushed|]).
  by apply elem_of_nil in Hpushed.
Qed.

(** ** Final synthesis *)

(** Reads what a computation emitted off its final trace. *)
Ltac emitted_norm :=
  unfold emitted; cbn [snd trace]; trace_norm;
  rewrite ?drop_app_length, ?drop_all.

(** C10: final synthesis on an empty history returns at once; the world
    (processor state and trace) is what it was: nothing is pushed and
    nothing is persisted. *)
Theorem final_synthesis_empty_history E lecture_id ws w :
  history_of (proc w) lecture_id = [] →
  final_synthesis E lecture_id ws w = (Ok tt, w).
Proof. intros Hempty. unfold final_synthesis. mred. by rewrite Hempty. Qed.

Lemma final_synthesis_empty_history_witness :
  final_synthesis scenario_env "L" 0 (session_world ["A"; "B"] [])
  = (Ok tt, session_world ["A"; "B"] []).
Proof.
  apply (final_synthesis_empty_history scenario_env "L" 0
           (session_world ["A"; "B"] [])).
  reflexivity.
Defined.

(** Final synthesis never waits and never starts a mid-stream round, and
    it calls its service at most once. *)
Lemma final_synthesis_calls E lecture_id ws w :
  sleeps (emitted (final_synthesis E lecture_id ws) w) = []
  ∧ synthesized (emitted (final_synthesis E lecture_id ws) w) = []
  ∧ (∀ text, CQuery text lecture_id 5
             ∉ emitted (final_synthesis E lecture_id ws) w)
  ∧ length (final_calls (emitted (final_synthesis E lecture_id ws) w)) ≤ 1.
Proof.
  unfold emitted, final_synthesis. mred.
  repeat mcase; emitted_norm; cbn.
  all: (split; [done|]).
  all: (split; [done|]).
  all: (split; [|lia]).
  all: intros text Hin; absent Hin.
Qed.

Section FinalRound.

Variables (E : env) (lecture_id : string) (ws : websocket) (w : world).
Variables (rag_context : list string).

Let history := history_of (proc w) lecture_id.
Let buffer := buffer_of (proc w) lecture_id.
Let all_transcriptions := join " " (frag_text <$> buffer).

(** The calls of a final synthesis, in the order they are made. *)
Let started :=
  CSend ws (MFinalSynthesisStarted "Creating comprehensive final notes...").
Let query := CQuery all_transcriptions lecture_id 15.
Let final_call := CSynthesizeFinal lecture_id history rag_context.

(** The final synthesis reaches its service. *)
Hypothesis history_nonempty : history ≠ [].
Hypothesis started_accepted :
  send_json E (trace w) ws
    (MFinalSynthesisStarted "Creating comprehensive final notes...")
  = Ok tt.
Hypothesis retrieval_returns :
  query_documents E (trace w ++ [started]) all_transcriptions lecture_id 15
  = Ok rag_context.

Let answer :=
  synthesize_final_notes E (trace w ++ [started; query]) lecture_id history
                         rag_context.

Lemma final_synthesis_reaches_service :
  final_synthesis E lecture_id ws w
  = match answer with
    | Ok (FinalSuccess title markdown sections glossary key_takeaways) =>
      try_except
        (try_except
           (do_save_final_notes E lecture_id title markdown sections glossary
                                key_takeaways)
           (λ _, ret tt);;
         t ← now E;
         do_send_json E ws
           (MFinalNotes title markdown sections glossary key_takeaways
                        (py_int (t * 1000))))
        (λ e, do_send_json E ws (MFinalSynthesisError e))
        {| proc := proc w; trace := trace w ++ [started; query; final_call] |}
    | Ok FinalFailure =>
      (Ok tt,
       {| proc := proc w; trace := trace w ++ [started; query; final_call] |})
    | Raise (Exception msg) =>
      (send_json E (trace w ++ [started; query; final_call]) ws
                 (MFinalSynthesisError msg),
       {| proc := proc w;
          trace := trace w ++ [started; query; final_call;
                               CSend ws (MFinalSynthesisError msg)] |})
    | Raise CancelledError =>
      (Raise CancelledError,
       {| proc := proc w; trace := trace w ++ [started; query; final_call] |})
    end.
Proof.
  unfold final_synthesis. mred. fold history.
  rewrite (match_nonempty history) by done. mred.
  rewrite started_accepted. mred. fold started buffer all_transcriptions.
  rewrite retrieval_returns. mred. fold query. trace_norm.
  fold answer. destruct answer as [[title markdown sections glossary kt|]|[msg|]];
    mred; trace_norm.
  - reflexivity.
  - reflexivity.
  - by destruct (send_json _ _ _ _).
  - reflexivity.
Qed.

(** The final synthesis starts with its announcement, the top-15 retrieval
    over the text of the buffered fragments, and the call of the service on
    the whole history. *)
Lemma final_synthesis_starts :
  ∃ rest,
    emitted (final_synthesis E lecture_id ws) w
    = started :: query :: final_call :: rest.
Proof.
  unfold emitted. rewrite final_synthesis_reaches_service.
  destruct answer as [[title markdown sections glossary kt|]|[msg|]];
    mred; repeat mcase; emitted_norm; eauto.
Qed.

(** C7 (amended): when the final-synthesis service raises, a
    [final_synthesis_error] message carrying the text of the exception is
    pushed; when it returns a result that is not a success, nothing is
    pushed after [final_synthesis_started]; whatever it answers, the
    service is called once: there is no retry. *)
Theorem final_failure_effects :
  (∀ msg,
     answer = Raise (Exception msg) →
     emitted (final_synthesis E lecture_id ws) w
     = [started; query; final_call; CSend ws (MFinalSynthesisError msg)]
     ∧ proc (snd (final_synthesis E lecture_id ws w)) = proc w)
  ∧ (answer = Ok FinalFailure →
     final_synthesis E lecture_id ws w
     = (Ok tt,
        {| proc := proc w; trace := trace w ++ [started; query; final_call] |})
     ∧ pushed_types (emitted (final_synthesis E lecture_id ws) w)
       = ["final_synthesis_started"])
  ∧ final_calls (emitted (final_synthesis E lecture_id ws) w) = [history].
Proof.
  split; [|split].
  - intros msg Hanswer. unfold emitted.
    rewrite final_synthesis_reaches_service, Hanswer.
    cbn [snd proc trace]. by rewrite drop_app_length.
  - intros Hanswer. unfold emitted.
    rewrite final_synthesis_reaches_service, Hanswer.
    cbn [snd proc trace]. by rewrite drop_app_length.
  - destruct final_synthesis_starts as [rest Hstart].
    pose proof (final_synthesis_calls E lecture_id ws w) as (_ & _ & _ & Honce).
    rewrite Hstart in Honce |- *. cbn in Honce |- *.
    destruct (omap _ rest); [done|]. cbn in Honce. lia.
Qed.

End FinalRound.

(** A final synthesis whose service raises. *)
Lemma final_failure_effects_witness :
  let E := session_env (λ _, 1000%Q) synth_ok final_raises in
  let w := session_world ["C"] ["A+B+C"] in
  pushed_types (emitted (final_synthesis E "L" 0) w)
  = ["final_synthesis_started"; "final_synthesis_error"]
  ∧ final_calls (emitted (final_synthesis E "L" 0) w) = [["A+B+C"]].
Proof.
  cbv zeta.
  assert (history_of (proc (session_world ["C"] ["A+B+C"])) "L" ≠ [])
    as Hhistory by discriminate.
  destruct (final_failure_effects
              (session_env (λ _, 1000%Q) synth_ok final_raises) "L" 0
              (session_world ["C"] ["A+B+C"]) []
              Hhistory eq_refl eq_refl)
    as (Hraise & _ & Honce).
  destruct (Hraise "final synthesis failed" eq_refl) as [Htrace _].
  split; [by rewrite Htrace|exact Honce].
Defined.

(** C7 as worded fails: a final-synthesis service that returns an
    unsuccessful result leaves the client without a
    [final_synthesis_error] message. *)
Lemma unsuccessful_final_pushes_no_error : ¬ final_failure_as_specified.
Proof.
  intros Hspec.
  destruct (Hspec (session_env (λ _, 1000%Q) synth_ok final_unsuccessful)
                  "L" 0 (session_world ["C"] ["A+B+C"]) [])
    as [Hpushed _]; [discriminate|reflexivity|reflexivity|discriminate|].
  vm_compute in Hpushed. absent Hpushed.
Qed.

(** ** One pass of the worker loop *)

(** C8: a segment whose transcription is empty or whitespace only (or has
    no text at all) ends the pass right after the transcription call: the
    processor state, the buffer included, is untouched, and no retrieval,
    scoring, persistence or push is made. *)
Theorem empty_transcription_skipped E lecture_id chunk_data w transcription :
  transcribe_local E (trace w) (chunk_file_path chunk_data) = Ok transcription →
  whitespace_only (default "" (tr_text transcription)) = true →
  process_chunk E lecture_id chunk_data w
  = (Ok tt,
     {| proc := proc w;
        trace := trace w ++ [CTranscribe (chunk_file_path chunk_data)] |}).
Proof.
  intros Htranscribed Hblank%strip_whitespace.
  unfold process_chunk. mred. rewrite Htranscribed. mred.
  by rewrite Hblank.
Qed.

(** A segment of spaces. *)
Lemma empty_transcription_skipped_witness :
  process_chunk scenario_env "L" (segment "   ")
                (session_world ["A"; "B"] [])
  = (Ok tt,
     {| proc := proc (session_world ["A"; "B"] []);
        trace := [CTranscribe "   "] |}).
Proof.
  apply (empty_transcription_skipped scenario_env "L" (segment "   ")
           (session_world ["A"; "B"] []) (plain_transcription "   ")).
  - reflexivity.
  - reflexivity.
Defined.

(** The trigger and the round it may start save no transcription. *)
Lemma check_synthesis_trace E lecture_id ws w :
  ∃ l, trace (snd (check_synthesis E lecture_id ws w)) = trace w ++ l
       ∧ saved_indices l = [].
Proof.
  unfold check_synthesis, should_synthesize, synthesize_notes. mred.
  repeat mcase; trace_norm; eexists; (split; [reflexivity|reflexivity]).
Qed.

(** ** The fragment among the other coroutines *)

Ltac tn := repeat (progress (rewrite <- ?app_assoc; cbn [app])).

Lemma emitted_ret w : emitted (ret tt) w = [].
Proof. unfold emitted, ret. cbn. apply drop_all. Qed.

Lemma saved_indices_app l1 l2 :
  saved_indices (l1 ++ l2) = saved_indices l1 ++ saved_indices l2.
Proof. apply omap_app. Qed.

(** Lines 152-204 of [process_transcription] are [store_transcription]
    when no other coroutine runs. *)
Lemma process_transcription_quiet E lecture_id chunk_data transcription text w :
  process_transcription E lecture_id chunk_data transcription text w
  = (store_transcription E quiet lecture_id chunk_data transcription text;;
     check_synthesis E lecture_id (chunk_websocket chunk_data);;
     try_pass (do_unlink E (chunk_file_path chunk_data))) w.
Proof.
  unfold process_transcription, store_transcription, quiet.
  cbn [during_retrieval during_enrichment during_save during_push].
  unfold await, emitted. mred.
  rewrite !drop_all, !app_nil_r.
  destruct (query_documents E _ _ _ _) as [rag|e]; mred; [|done].
  rewrite !drop_all, !app_nil_r.
  destruct (generate_raw_notes E _ _ _ _ _) as [notes|e]; mred; [|done].
  destruct (score_importance E _ _ _) as [imp|e]; mred; [|done].
  rewrite !drop_all, !app_nil_r.
  destruct (save_transcription E _ _ _ _ _ _ _) as [[]|[msg|]]; mred;
    rewrite ?drop_all, ?app_nil_r; [| |done].
  all: destruct (send_json E _ _ _) as [[]|e]; mred; done.
Qed.

Lemma store_transcription_trace E lecture_id chunk_data transcription text w :
  ∃ l, trace (snd (store_transcription E quiet lecture_id chunk_data
                                       transcription text w))
       = trace w ++ l.
Proof.
  unfold store_transcription, quiet.
  cbn [during_retrieval during_enrichment during_save during_push].
  unfold await. mred. rewrite !emitted_ret, !app_nil_r.
  destruct (query_documents E _ _ _ _) as [rag|e]; mred; [|by eexists].
  rewrite !emitted_ret, !app_nil_r.
  destruct (generate_raw_notes E _ _ _ _ _) as [notes|e]; mred;
    [|trace_norm; by eexists].
  destruct (score_importance E _ _ _) as [imp|e]; mred;
    [|trace_norm; by eexists].
  rewrite !emitted_ret, !app_nil_r.
  destruct (save_transcription E _ _ _ _ _ _ _) as [[]|[msg|]]; mred;
    rewrite ?emitted_ret, ?app_nil_r; trace_norm; by eexists.
Qed.

(** The rest of the pass (lines 209-242) saves no transcription: a pass
    saves what lines 152-204 save. *)
Lemma process_transcription_saves E lecture_id chunk_data transcription text w :
  saved_indices
    (emitted (process_transcription E lecture_id chunk_data transcription text)
             w)
  = saved_indices
      (emitted (store_transcription E quiet lecture_id chunk_data
                                    transcription text) w).
Proof.
  unfold emitted. rewrite process_transcription_quiet.
  destruct (store_transcription_trace E lecture_id chunk_data transcription
                                      text w) as [l0 Hl0].
  mred.
  destruct (store_transcription E quiet lecture_id chunk_data transcription
                                text w) as [[[]|e] w1]; cbn [snd] in *; [|done].
  destruct (check_synthesis_trace E lecture_id (chunk_websocket chunk_data) w1)
    as (tl & Htl & Hsaved).
  destruct (check_synthesis E lecture_id (chunk_websocket chunk_data) w1)
    as [[[]|e] w2]; cbn [snd] in *; mred.
  - assert (∀ r : result unit * world,
              trace (snd r) = trace w2 ++ [CUnlink (chunk_file_path chunk_data)] →
              saved_indices (drop (length (trace w)) (trace (snd r)))
              = saved_indices (drop (length (trace w)) (trace w1))) as Hend.
    { intros r ->. rewrite Htl, Hl0, <- !app_assoc, !drop_app_length.
      unfold saved_indices in *. by rewrite !omap_app, Hsaved, app_nil_r. }
    destruct (unlink E (trace w2) _) as [[]|e]; by apply Hend.
  - rewrite Htl, Hl0, <- !app_assoc, !drop_app_length.
    unfold saved_indices in *. by rewrite !omap_app, Hsaved, app_nil_r.
Qed.

Lemma synthesize_notes_saves_nothing E lecture_id ws w :
  ∃ l, trace (snd (synthesize_notes E lecture_id ws w)) = trace w ++ l
       ∧ saved_indices l = [].
Proof.
  unfold synthesize_notes. mred.
  repeat mcase; trace_norm; rewrite ?app_nil_r.
  all: first [ by exists []; rewrite app_nil_r
             | eexists; split; reflexivity ].
Qed.

Lemma final_synthesis_saves_nothing E lecture_id ws w :
  ∃ l, trace (snd (final_synthesis E lecture_id ws w)) = trace w ++ l
       ∧ saved_indices l = [].
Proof.
  unfold final_synthesis. mred.
  repeat mcase; trace_norm; rewrite ?app_nil_r.
  all: first [ by exists []; rewrite app_nil_r
             | eexists; split; reflexivity ].
Qed.

(** The handling of a message persists no fragment. *)
Lemma handle_message_saves_nothing E lecture_id ws msg_type w :
  saved_indices (emitted (handle_message E lecture_id ws msg_type) w) = [].
Proof.
  unfold emitted.
  assert (∃ l, trace (snd (handle_message E lecture_id ws msg_type w))
               = trace w ++ l ∧ saved_indices l = []) as (l & -> & Hl).
  { unfold handle_message. repeat case_decide; mred.
    - eexists. split; reflexivity.
    - destruct (asyncio_sleep E (trace w) 2) as [[]|e]; mred;
        [|eexists; split; reflexivity].
      set (w1 := {| proc := proc w; trace := trace w ++ [CSleep 2] |}).
      assert (∃ r w2 l1,
                (if 0 <? length (buffer_of (proc w) lecture_id)
                 then synthesize_notes E lecture_id ws
                 else λ w, (Ok tt, w)) w1 = (r, w2)
                ∧ trace w2 = trace w1 ++ l1 ∧ saved_indices l1 = [])
        as (r & w2 & l1 & -> & Hl1 & Hs1).
      { destruct (0 <? _).
        - destruct (synthesize_notes_saves_nothing E lecture_id ws w1)
            as (l1 & Hl1 & Hs1).
          destruct (synthesize_notes E lecture_id ws w1) as [r w2].
          cbn [snd] in Hl1. by eexists r, w2, l1.
        - eexists _, _, []. by rewrite app_nil_r. }
      cbn [trace w1] in Hl1.
      destruct r as [[]|e];
        [|cbn [snd]; eexists;
          split; [rewrite Hl1, <- app_assoc; reflexivity|
                  by rewrite saved_indices_app, Hs1]].
      destruct (final_synthesis_saves_nothing E lecture_id ws w2)
        as (l2 & Hl2 & Hs2).
      destruct (final_synthesis E lecture_id ws w2) as [[[]|e] w3];
        cbn [snd] in Hl2; mred; rewrite Hl2, Hl1, <- ?app_assoc;
        (eexists; split; [reflexivity|]);
        by rewrite !saved_indices_app, Hs1, Hs2.
    - apply final_synthesis_saves_nothing.
    - exists []. by rewrite app_nil_r. }
  by rewrite drop_app_length.
Qed.

Lemma leaves_buffer_ret lecture_id : leaves_buffer lecture_id (ret tt).
Proof. by intros w. Qed.

Lemma saves_nothing_quiet : saves_nothing quiet.
Proof.
  intros o w Hin. cbn in Hin.
  repeat (apply elem_of_cons in Hin as [->|Hin]; [by rewrite emitted_ret|]).
  by apply elem_of_nil in Hin.
Qed.

Lemma saves_nothing_stop_during_enrichment E lecture_id ws :
  saves_nothing (stop_during_enrichment E lecture_id ws).
Proof.
  intros o w Hin. cbn in Hin.
  repeat (apply elem_of_cons in Hin as [->|Hin];
          [first [by rewrite emitted_ret|apply handle_message_saves_nothing]|]).
  by apply elem_of_nil in Hin.
Qed.

Section Fragment.

Variables (E : env) (others : interleaving) (lecture_id : string).
Variables (chunk_data : chunk) (transcription : transcription_result).
Variables (text : string) (w : world).
Variables (rag_context : list string) (enhanced_notes : string).
Variables (importance_result : option Q).

Let transcription_data :=
  {| frag_text := text;
     frag_timestamp := chunk_timestamp chunk_data;
     frag_language := tr_language transcription;
     frag_duration := tr_duration transcription |}.

(** The buffer at the moment of the append. *)
Let appended := buffer_of (proc w) lecture_id ++ [transcription_data].

Let query := CQuery text lecture_id 5.
Let enrich := CGenerateRawNotes text rag_context lecture_id [].
Let score := CScoreImportance text (tr_segments transcription).

(** The worker suspended at line 164, with what the other coroutines call
    and the processor they leave. *)
Let retrieving : world :=
  {| proc := append_buffer lecture_id transcription_data (proc w);
     trace := trace w ++ [query] |}.
Let o1 := emitted (during_retrieval others) retrieving.
Let p1 := proc (snd (during_retrieval others retrieving)).

(** The worker suspended at line 167. *)
Let enriching : world :=
  {| proc := p1; trace := trace w ++ query :: o1 ++ [enrich] |}.
Let o2 := emitted (during_enrichment others) enriching.
Let p2 := proc (snd (during_enrichment others enriching)).

(** The buffer that line 175 reads, and the index it gives. *)
Let read := buffer_of p2 lecture_id.
Let chunk_index := (Z.of_nat (length read) - 1)%Z.
Let save :=
  CSaveTranscription lecture_id chunk_index text enhanced_notes
                     (chunk_timestamp chunk_data)
                     (default (1 # 2)%Q importance_result).

(** The worker suspended at lines 185 and 198. *)
Let saving : world :=
  {| proc := p2;
     trace := trace w ++ query :: o1 ++ enrich :: o2 ++ [score; save] |}.
Let o3 := emitted (during_save others) saving.
Let p3 := proc (snd (during_save others saving)).
Let push :=
  CSend (chunk_websocket chunk_data)
        (MTranscription text enhanced_notes (chunk_timestamp chunk_data)
                        (length (buffer_of p3 lecture_id))).
Let pushing : world :=
  {| proc := p3;
     trace :=
       trace w ++ query :: o1 ++ enrich :: o2 ++ score :: save :: o3 ++ [push] |}.
Let o4 := emitted (during_push others) pushing.

(** The pass reaches the save. *)
Hypothesis retrieval_returns :
  query_documents E (trace w) text lecture_id 5 = Ok rag_context.
Hypothesis enrichment_returns :
  generate_raw_notes E (trace w ++ query :: o1) text rag_context lecture_id []
  = Ok enhanced_notes.
Hypothesis scoring_returns :
  score_importance E (trace w ++ query :: o1 ++ enrich :: o2) text
                   (tr_segments transcription)
  = Ok importance_result.

Lemma store_transcription_saves :
  ∃ rest,
    emitted (store_transcription E others lecture_id chunk_data transcription
                                 text) w
    = query :: o1 ++ enrich :: o2 ++ [score; save] ++ rest
    ∧ (saves_nothing others → saved_indices rest = []).
Proof.
  unfold emitted at 1, store_transcription, await. mred.
  rewrite retrieval_returns. mred. fold transcription_data query retrieving.
  fold o1 p1. tn.
  rewrite enrichment_returns. mred. fold enrich. tn. fold enriching.
  fold o2 p2. tn.
  rewrite scoring_returns. mred. fold score read chunk_index save. tn.
  fold saving o3 p3.
  assert (∀ o w', saves_nothing others →
            o ∈ [during_retrieval others; during_enrichment others;
                 during_save others; during_push others] →
            saved_indices (emitted o w') = []) as Hnone
    by (intros o w' Hq Hin; by apply Hq).
  destruct (save_transcription E _ _ _ _ _ _ _) as [[]|[msg|]]; mred; tn.
  3: { rewrite drop_app_length. eexists. split; [reflexivity|].
       intros Hq. apply Hnone; [done|]. set_solver. }
  all: fold push pushing o4.
  all: rewrite drop_app_length; eexists; (split; [reflexivity|]).
  all: intros Hq.
  all: assert (saved_indices (o3 ++ push :: o4)
               = saved_indices o3 ++ saved_indices o4) as ->
         by (unfold saved_indices; by rewrite omap_app).
  all: unfold o3, o4; rewrite !Hnone; [done|done|set_solver..].
Qed.

(** C9 (amended): the chunk index saved with a fragment is the length,
    minus one, of the buffer that line 175 reads, two suspensions after the
    append; it is the length at the moment of the append, minus one, when
    the other coroutines leave the buffer of the lecture as it is during
    these two suspensions.  In the state a successful synthesis leaves (one
    fragment in the buffer) the next fragment is then saved with index 1,
    so a session repeats indices: the scenario session saves 0, 1, 2 and
    then 1 again. *)
Theorem persisted_chunk_index :
  (∃ rest,
     emitted (store_transcription E others lecture_id chunk_data transcription
                                  text) w
     = query :: o1 ++ enrich :: o2
       ++ [score;
           CSaveTranscription lecture_id chunk_index text enhanced_notes
                              (chunk_timestamp chunk_data)
                              (default (1 # 2)%Q importance_result)]
       ++ rest)
  ∧ (saves_nothing others →
     saved_indices
       (emitted (store_transcription E others lecture_id chunk_data
                                     transcription text) w)
     = [chunk_index])
  ∧ (leaves_buffer lecture_id (during_retrieval others) →
     leaves_buffer lecture_id (during_enrichment others) →
     read = appended
     ∧ chunk_index = (Z.of_nat (length appended) - 1)%Z
     ∧ (length (buffer_of (proc w) lecture_id) = 1 → chunk_index = 1%Z))
  ∧ saved_indices (trace after_D) = [0; 1; 2; 1]%Z
  ∧ ¬ NoDup (saved_indices (trace after_D))
  ∧ ¬ Sorted Z.lt (saved_indices (trace after_D)).
Proof.
  destruct store_transcription_saves as (rest & Hemitted & Hrest).
  split; [|split; [|split; [|split; [|split]]]].
  - eauto.
  - intros Hq. rewrite Hemitted.
    assert (saved_indices (query :: o1 ++ enrich :: o2 ++ [score; save] ++ rest)
            = saved_indices o1 ++ saved_indices o2 ++ [chunk_index]
              ++ saved_indices rest) as ->.
    { unfold saved_indices.
      change (query :: o1 ++ enrich :: o2 ++ [score; save] ++ rest)
        with ([query] ++ o1 ++ [enrich] ++ o2 ++ [score; save] ++ rest).
      by rewrite !omap_app. }
    rewrite (Hrest Hq). unfold o1, o2.
    rewrite !Hq by set_solver. done.
  - intros Hfirst Hsecond.
    assert (read = appended) as Hread.
    { unfold read, p2. rewrite Hsecond. cbn [proc enriching].
      unfold p1. rewrite Hfirst. cbn [proc retrieving].
      unfold append_buffer. by rewrite buffer_of_set_buffer. }
    split; [done|]. unfold chunk_index. rewrite Hread. split; [done|].
    unfold appended. rewrite length_app. cbn. lia.
  - by vm_compute.
  - replace (saved_indices (trace after_D)) with [0; 1; 2; 1]%Z
      by (by vm_compute).
    intros Hnodup. apply NoDup_cons in Hnodup as [_ Hnodup].
    apply NoDup_cons in Hnodup as [Hin _]. apply Hin. set_solver.
  - replace (saved_indices (trace after_D)) with [0; 1; 2; 1]%Z
      by (by vm_compute).
    intros Hsorted.
    do 2 apply Sorted_inv in Hsorted as [Hsorted _].
    apply Sorted_inv in Hsorted as [_ Hlt].
    apply HdRel_inv in Hlt. lia.
Qed.

End Fragment.

(** The fourth segment of the scenario session, processed after the
    synthesis that followed the third, no other coroutine running. *)
Lemma persisted_chunk_index_witness :
  buffer_of (proc after_C) "L" = [heard "C"]
  ∧ saved_indices
      (emitted (store_transcription scenario_env quiet "L" (segment "D")
                                    (plain_transcription "D") "D") after_C)
    = [1%Z].
Proof.
  split; [by vm_compute|].
  destruct (persisted_chunk_index scenario_env quiet "L" (segment "D")
              (plain_transcription "D") "D" after_C [] "D" None
              eq_refl eq_refl eq_refl)
    as (_ & Hsaved & Hquiet & _).
  rewrite (Hsaved saves_nothing_quiet).
  destruct (Hquiet (leaves_buffer_ret "L") (leaves_buffer_ret "L"))
    as (_ & _ & ->); [by vm_compute|done].
Defined.

(** C9 as worded fails: while the worker waits for the enhanced notes of
    "C", appended to "A" and "B", the connection handler handles
    [stop_recording]; its round cuts the buffer to "C", and "C" is saved
    with index 0, not 2. *)
Lemma chunk_index_read_after_round : ¬ chunk_index_as_specified.
Proof.
  intros Hspec.
  specialize (Hspec scenario_env (stop_during_enrichment scenario_env "L" 0)
                    "L" (segment "C") (plain_transcription "C") "C"
                    (session_world ["A"; "B"] []) 0%Z
                    (saves_nothing_stop_during_enrichment _ _ _)).
  cbv zeta in Hspec.
  assert (length (buffer_of (proc (session_world ["A"; "B"] [])) "L"
                  ++ [heard "C"]) = 3) as Hlen by (by vm_compute).
  change {| frag_text := "C";
            frag_timestamp := chunk_timestamp (segment "C");
            frag_language := tr_language (plain_transcription "C");
            frag_duration := tr_duration (plain_transcription "C") |}
    with (heard "C") in Hspec.
  rewrite Hlen in Hspec.
  enough (0%Z = (Z.of_nat 3 - 1)%Z) by done.
  apply Hspec.
  replace (saved_indices _) with [0%Z] by (by vm_compute).
  apply list_elem_of_here.
Qed.

(** ** The end-to-end scenario *)

Lemma buffer_of_set_last lid lid' t p :
  buffer_of (set_last_synthesis lid' t p) lid = buffer_of p lid.
Proof. reflexivity. Qed.

Lemma buffer_of_append_history lid lid' notes p :
  buffer_of (append_history lid' notes p) lid = buffer_of p lid.
Proof. reflexivity. Qed.

Lemma last_synthesis_of_set_buffer lid lid' b p :
  last_synthesis_of (set_buffer lid' b p) lid = last_synthesis_of p lid.
Proof. reflexivity. Qed.

Lemma history_of_set_buffer lid lid' b p :
  history_of (set_buffer lid' b p) lid = history_of p lid.
Proof. reflexivity. Qed.

Lemma synthesized_app l1 l2 :
  synthesized (l1 ++ l2) = synthesized l1 ++ synthesized l2.
Proof. apply omap_app. Qed.

Section CalmSession.

Variable E : env.

(** The speech service transcribes a file to its own name; no service is
    cancelled or raises on the way to a synthesis; the synthesis service
    succeeds; the websocket takes every push.  The clock, the topic-shift
    detector and the file system are arbitrary. *)
Hypothesis transcribes :
  ∀ h path, transcribe_local E h path = Ok (plain_transcription path).
Hypothesis retrieval_returns :
  ∀ h text lid k, returns (query_documents E h text lid k).
Hypothesis enrichment_returns :
  ∀ h text ctx lid previous,
    returns (generate_raw_notes E h text ctx lid previous).
Hypothesis scoring_returns :
  ∀ h text segments, returns (score_importance E h text segments).
Hypothesis saves_not_cancelled :
  ∀ h lid i text notes t importance,
    not_cancelled (save_transcription E h lid i text notes t importance).
Hypothesis pushes_accepted : ∀ h ws m, send_json E h ws m = Ok tt.
Hypothesis synthesis_succeeds :
  ∀ h ts ctx lid previous,
    ∃ notes,
      synthesize_structured_notes E h ts ctx lid previous
      = Ok (SynthSuccess notes).
Hypothesis notes_saves_not_cancelled :
  ∀ h lid content n, not_cancelled (save_structured_notes E h lid content n).

(** A round on a non-empty buffer succeeds over its last three fragments
    and keeps the newest. *)
Lemma calm_round lecture_id ws w :
  buffer_of (proc w) lecture_id ≠ [] →
  ∃ notes t l,
    synthesize_notes E lecture_id ws w
    = (Ok tt,
       {| proc :=
            set_buffer lecture_id
              (slice_last 1 (buffer_of (proc w) lecture_id))
              (set_last_synthesis lecture_id t
                 (append_history lecture_id notes (proc w)));
          trace := trace w ++ l |})
    ∧ synthesized l = [slice_last 3 (buffer_of (proc w) lecture_id)].
Proof.
  intros Hbuffer.
  destruct (retrieval_returns (trace w)
              (join " " (frag_text <$>
                           slice_last 3 (buffer_of (proc w) lecture_id)))
              lecture_id 5) as [ctx Hctx].
  edestruct synthesis_succeeds as [notes Hnotes].
  eexists notes, _, _.
  rewrite (synthesize_notes_success_run E lecture_id ws w ctx Hbuffer Hctx
             (pushes_accepted _ _ _) notes Hnotes
             (notes_saves_not_cancelled _ _ _ _) (pushes_accepted _ _ _)).
  split; reflexivity.
Qed.

(** Resolves the next call of the pass with the hypotheses above. *)
Ltac calm :=
  match goal with
  | |- context [transcribe_local E ?h ?p] => rewrite (transcribes h p)
  | |- context [query_documents E ?h ?a ?b ?c] =>
      destruct (retrieval_returns h a b c) as [? ->]
  | |- context [generate_raw_notes E ?h ?a ?b ?c ?d] =>
      destruct (enrichment_returns h a b c d) as [? ->]
  | |- context [score_importance E ?h ?a ?b] =>
      destruct (scoring_returns h a b) as [? ->]
  | |- context [send_json E ?h ?a ?b] => rewrite (pushes_accepted h a b)
  | |- context [save_transcription E ?h ?a ?b ?c ?d ?e ?f] =>
      pose proof (saves_not_cancelled h a b c d e f);
      destruct (save_transcription E h a b c d e f) as [[]|[?|]]; [| |done]
  | |- context [unlink E ?h ?p] => destruct (unlink E h p) as [[]|?]
  end; mred.

Section Pass.

Variables (lecture_id text : string) (w : world).

Let appended := buffer_of (proc w) lecture_id ++ [heard text].

Hypothesis stripped : strip text = text.
Hypothesis spoken : str_truthy text = true.

(** Below three fragments the pass appends and does not synthesize. *)
Lemma calm_pass_quiet :
  length appended < 3 →
  ∃ l,
    process_chunk E lecture_id (segment text) w
    = (Ok tt,
       {| proc := set_buffer lecture_id appended (proc w);
          trace := trace w ++ l |})
    ∧ synthesized l = [].
Proof.
  intros Hsize. unfold process_chunk. mred. calm.
  unfold process_transcription, check_synthesis, should_synthesize.
  cbn [segment plain_transcription chunk_file_path chunk_timestamp
       chunk_websocket tr_text tr_language tr_duration tr_segments default
       from_option id].
  rewrite stripped, spoken. mred. unfold append_buffer.
  change {| frag_text := text; frag_timestamp := 0; frag_language := None;
            frag_duration := None |} with (heard text).
  fold appended. repeat calm.
  all: rewrite ?buffer_of_set_buffer.
  all: apply Nat.leb_gt in Hsize; rewrite Hsize; mred.
  all: repeat calm.
  all: trace_norm; eexists; (split; [reflexivity|reflexivity]).
Qed.

(** With three fragments and no synthesis so far, the pass synthesizes
    over the last three fragments and keeps the newest. *)
Lemma calm_pass_fires :
  3 ≤ length appended →
  last_synthesis_of (proc w) lecture_id == 0 →
  ∃ notes t l,
    process_chunk E lecture_id (segment text) w
    = (Ok tt,
       {| proc :=
            set_buffer lecture_id [heard text]
              (set_last_synthesis lecture_id t
                 (append_history lecture_id notes
                    (set_buffer lecture_id appended (proc w))));
          trace := trace w ++ l |})
    ∧ synthesized l = [slice_last 3 appended].
Proof.
  intros Hsize Hnever. unfold process_chunk. mred. calm.
  unfold process_transcription, check_synthesis, should_synthesize.
  cbn [segment plain_transcription chunk_file_path chunk_timestamp
       chunk_websocket tr_text tr_language tr_duration tr_segments default
       from_option id].
  rewrite stripped, spoken. mred. unfold append_buffer.
  change {| frag_text := text; frag_timestamp := 0; frag_language := None;
            frag_duration := None |} with (heard text).
  fold appended. repeat calm.
  all: rewrite ?buffer_of_set_buffer, ?last_synthesis_of_set_buffer.
  all: apply Nat.leb_le in Hsize; apply Qeq_bool_iff in Hnever.
  all: rewrite Hsize, Hnever, orb_true_r; mred.
  all: match goal with
       | |- context [synthesize_notes E ?l ?ws ?w1] =>
           destruct (calm_round l ws w1) as (notes & t & tl & Hround & Htl);
           [cbn [proc]; rewrite buffer_of_set_buffer; unfold appended;
            intros Hnil; by apply app_eq_nil in Hnil as [_ ?]
           |rewrite Hround]
       end.
  all: mred; cbn [proc trace] in *; rewrite buffer_of_set_buffer in *.
  all: replace (slice_last 1 appended) with [heard text]
         by (symmetry; apply (slice_last_app _ [heard text])).
  all: repeat calm; trace_norm; exists notes, t; eexists.
  all: (split; [reflexivity|]).
  all: unfold synthesized in *; cbn; rewrite ?omap_app, Htl; reflexivity.
Qed.

End Pass.

Lemma buffer_of_init lid : buffer_of processor_init lid = [].
Proof. unfold buffer_of. cbn. by rewrite lookup_empty. Qed.

Lemma last_synthesis_of_init lid : last_synthesis_of processor_init lid = 0%Q.
Proof. unfold last_synthesis_of. cbn. by rewrite lookup_empty. Qed.

(** C4 (amended): in the scenario, the third segment "C" finds three
    fragments in the buffer and no synthesis made so far, so synthesis
    fires after "C", over "A", "B", "C", and the buffer collapses to "C";
    the fourth segment "D" then finds two fragments only: no synthesis, and
    the buffer is "C", "D".  This holds for every clock and every
    topic-shift detector. *)
Theorem scenario_fires_after_C (lecture_id : string) :
  let first_three :=
    process_lecture_audio E lecture_id
      [segment "A"; segment "B"; segment "C"] fresh_world in
  let fourth :=
    process_lecture_audio E lecture_id [segment "D"] (snd first_three) in
  fst first_three = Ok Waiting
  ∧ synthesized (trace (snd first_three))
    = [[heard "A"; heard "B"; heard "C"]]
  ∧ buffer_of (proc (snd first_three)) lecture_id = [heard "C"]
  ∧ fst fourth = Ok Waiting
  ∧ synthesized
      (emitted (process_lecture_audio E lecture_id [segment "D"])
               (snd first_three))
    = []
  ∧ buffer_of (proc (snd fourth)) lecture_id = [heard "C"; heard "D"].
Proof.
  cbv zeta. unfold emitted. cbn [process_lecture_audio].
  destruct (calm_pass_quiet lecture_id "A" fresh_world eq_refl eq_refl)
    as (l1 & -> & Hl1).
  { cbn [proc fresh_world]. rewrite buffer_of_init. cbn. lia. }
  cbn [proc fresh_world trace]. rewrite buffer_of_init. cbn [app].
  match goal with
  | |- context [process_chunk E lecture_id (segment "B") ?w1] =>
      destruct (calm_pass_quiet lecture_id "B" w1 eq_refl eq_refl)
        as (l2 & -> & Hl2)
  end.
  { cbn [proc]. rewrite buffer_of_set_buffer. cbn. lia. }
  cbn [proc trace]. rewrite buffer_of_set_buffer. cbn [app].
  match goal with
  | |- context [process_chunk E lecture_id (segment "C") ?w2] =>
      destruct (calm_pass_fires lecture_id "C" w2 eq_refl eq_refl)
        as (notes & t & l3 & -> & Hl3)
  end.
  { cbn [proc]. rewrite buffer_of_set_buffer. cbn. lia. }
  { cbn [proc]. rewrite !last_synthesis_of_set_buffer, last_synthesis_of_init.
    reflexivity. }
  cbn [proc trace fst snd] in *.
  rewrite !buffer_of_set_buffer in *. cbn [app] in *.
  match goal with
  | |- context [process_chunk E lecture_id (segment "D") ?w3] =>
      destruct (calm_pass_quiet lecture_id "D" w3 eq_refl eq_refl)
        as (l4 & -> & Hl4)
  end.
  { cbn [proc]. rewrite buffer_of_set_buffer. cbn. lia. }
  cbn [proc trace fst snd]. rewrite !buffer_of_set_buffer.
  rewrite !synthesized_app, Hl1, Hl2, Hl3, drop_app_length, Hl4.
  done.
Qed.

End CalmSession.

(** The scenario session. *)
Lemma scenario_fires_after_C_witness :
  synthesized (trace after_C) = [[heard "A"; heard "B"; heard "C"]]
  ∧ buffer_of (proc after_C) "L" = [heard "C"]
  ∧ buffer_of (proc after_D) "L" = [heard "C"; heard "D"].
Proof.
  destruct (scenario_fires_after_C scenario_env) with (lecture_id := "L")
    as (_ & Hfired & Hafter_C & _ & _ & Hafter_D).
  - intros; reflexivity.
  - intros; eexists; reflexivity.
  - intros; eexists; reflexivity.
  - intros; eexists; reflexivity.
  - intros; discriminate.
  - intros; reflexivity.
  - intros; eexists; reflexivity.
  - intros; discriminate.
  - split; [exact Hfired|]. split; [exact Hafter_C|exact Hafter_D].
Defined.

(** C4 as worded fails: in the scenario session synthesis has run after
    "C" already. *)
Lemma scenario_synthesizes_after_C : ¬ scenario_as_specified.
Proof. intros [Hnone _]. vm_compute in Hnone. discriminate Hnone. Qed.

(** ** The stop and request-final signals *)

Lemma final_synthesis_trace E lecture_id ws w :
  ∃ l, trace (snd (final_synthesis E lecture_id ws w)) = trace w ++ l.
Proof.
  unfold final_synthesis. mred.
  repeat mcase; trace_norm; try (eexists; reflexivity).
  exists []. by rewrite app_nil_r.
Qed.

Lemma emitted_ext {A} (m1 m2 : M A) w :
  m1 w = m2 w → emitted m1 w = emitted m2 w.
Proof. unfold emitted. by intros ->. Qed.

Section FinalProcedure.

Variables (E : env) (lecture_id : string) (ws : websocket) (w : world).

Let buffer := buffer_of (proc w) lecture_id.

(** The world once the grace wait is over. *)
Let waited := {| proc := proc w; trace := trace w ++ [CSleep 2] |}.

(** The last mid-stream round, run when the buffer is not empty. *)
Let last_round : result unit * world :=
  match buffer with
  | [] => (Ok tt, waited)
  | _ => synthesize_notes E lecture_id ws waited
  end.

Hypothesis grace_wait_returns : asyncio_sleep E (trace w) 2 = Ok tt.

Lemma stop_recording_run :
  handle_message E lecture_id ws (Some "stop_recording") w
  = match last_round with
    | (Ok _, w2) =>
      match final_synthesis E lecture_id ws w2 with
      | (Ok _, w3) =>
        do_send_json E ws (MRecordingStopped "Recording stopped") w3
      | (Raise e, w3) => (Raise e, w3)
      end
    | (Raise e, w2) => (Raise e, w2)
    end.
Proof.
  unfold handle_message.
  repeat (case_decide; [discriminate|]). case_decide; [|done].
  mred. rewrite grace_wait_returns. mred. fold buffer waited.
  unfold last_round. destruct buffer as [|f fs]; cbn [length Nat.ltb Nat.leb].
  - mred. by destruct (final_synthesis _ _ _ _) as [[[]|] ?].
  - destruct (synthesize_notes _ _ _ _) as [[[]|] ?]; [|done].
    by destruct (final_synthesis _ _ _ _) as [[[]|] ?].
Qed.
Lemma request_final_run :
  handle_message E lecture_id ws (Some "request_final_synthesis") w
  = final_synthesis E lecture_id ws w.
Proof.
  unfold handle_message.
  repeat (case_decide; [discriminate|]). by case_decide.
Qed.

(** C6 (amended): on the stop signal the procedure first waits the grace
    period of 2 seconds, then runs one last mid-stream synthesis if the
    buffer is not empty, and only then the final synthesis; on the
    request-final signal the final synthesis runs at once, with no wait and
    no mid-stream round.  The final synthesis, its history not being
    empty, announces itself, queries the top 15 context items for the
    fragment text accumulated in the buffer and calls its service on the
    whole history. *)
Theorem final_synthesis_procedure :
  handle_message E lecture_id ws (Some "stop_recording") w
  = match last_round with
    | (Ok _, w2) =>
      match final_synthesis E lecture_id ws w2 with
      | (Ok _, w3) =>
        do_send_json E ws (MRecordingStopped "Recording stopped") w3
      | (Raise e, w3) => (Raise e, w3)
      end
    | (Raise e, w2) => (Raise e, w2)
    end
  ∧ (∃ rest,
       emitted (handle_message E lecture_id ws (Some "stop_recording")) w
       = CSleep 2 :: rest
       ∧ (buffer ≠ [] →
          ∃ rest',
            rest
            = CQuery (join " " (frag_text <$> slice_last 3 buffer))
                     lecture_id 5 :: rest'))
  ∧ handle_message E lecture_id ws (Some "request_final_synthesis") w
    = final_synthesis E lecture_id ws w
  ∧ sleeps
      (emitted
         (handle_message E lecture_id ws (Some "request_final_synthesis")) w)
    = []
  ∧ ¬ synthesis_round_started lecture_id
        (emitted
           (handle_message E lecture_id ws (Some "request_final_synthesis"))
           w)
  ∧ (∀ w2 rag_context,
       let started :=
         CSend ws
           (MFinalSynthesisStarted "Creating comprehensive final notes...") in
       let all_transcriptions :=
         join " " (frag_text <$> buffer_of (proc w2) lecture_id) in
       history_of (proc w2) lecture_id ≠ [] →
       send_json E (trace w2) ws
         (MFinalSynthesisStarted "Creating comprehensive final notes...")
       = Ok tt →
       query_documents E (trace w2 ++ [started]) all_transcriptions
                       lecture_id 15
       = Ok rag_context →
       ∃ rest,
         emitted (final_synthesis E lecture_id ws) w2
         = started
           :: CQuery all_transcriptions lecture_id 15
           :: CSynthesizeFinal lecture_id (history_of (proc w2) lecture_id)
                               rag_context
           :: rest).
Proof.
  split; [exact stop_recording_run|]. split; [|split; [|split; [|split]]].
  - unfold emitted. rewrite stop_recording_run.
    assert (∃ mid,
              trace (snd last_round) = trace w ++ CSleep 2 :: mid
              ∧ (buffer ≠ [] →
                 ∃ rest',
                   mid
                   = CQuery (join " " (frag_text <$> slice_last 3 buffer))
                            lecture_id 5 :: rest')) as (mid & Hmid & Hquery).
    { unfold last_round. destruct buffer as [|f fs] eqn:Hbuffer.
      - exists []. split; [done|]. by intros [].
      - destruct (synthesize_notes_trace E lecture_id ws waited)
          as [rest' Hrest'].
        { cbn [proc waited]. fold buffer. by rewrite Hbuffer. }
        cbn [proc trace waited] in Hrest'. fold buffer in Hrest'.
        rewrite Hbuffer in Hrest'. rewrite <- app_assoc in Hrest'.
        eexists. split; [exact Hrest'|]. intros _. eauto. }
    assert (∀ l : list call,
              ∃ rest,
                CSleep 2 :: mid ++ l = CSleep 2 :: rest
                ∧ (buffer ≠ [] →
                   ∃ rest',
                     rest
                     = CQuery (join " " (frag_text <$> slice_last 3 buffer))
                              lecture_id 5 :: rest')) as Hclose.
    { intros l. eexists. split; [reflexivity|].
      intros Hne. destruct (Hquery Hne) as [rest' ->]. cbn [app]. eauto. }
    destruct last_round as [[[]|e] w2]; cbn [snd] in Hmid.
    + destruct (final_synthesis_trace E lecture_id ws w2) as [l Hl].
      destruct (final_synthesis E lecture_id ws w2) as [[[]|e] w3];
        cbn [snd] in Hl; mred; rewrite Hl, Hmid; trace_norm;
        rewrite drop_app_length; apply Hclose.
    + cbn [snd]. rewrite Hmid, drop_app_length.
      specialize (Hclose []). by rewrite app_nil_r in Hclose.
  - exact request_final_run.
  - rewrite (emitted_ext _ _ _ request_final_run).
    apply final_synthesis_calls.
  - rewrite (emitted_ext _ _ _ request_final_run). intros [text Hin].
    by apply (final_synthesis_calls E lecture_id ws w) in Hin.
  - intros w2 rag_context started all_transcriptions Hhistory Hsend Hquery.
    apply (final_synthesis_starts E lecture_id ws w2 rag_context
             Hhistory Hsend Hquery).
Qed.

End FinalProcedure.

(** The stop signal on the buffer "C", "D" with one structured note in the
    history. *)
Lemma final_synthesis_procedure_witness :
  sleeps
    (emitted (handle_message scenario_env "L" 0 (Some "stop_recording"))
             (session_world ["C"; "D"] ["A+B+C"]))
  = [2%Z]
  ∧ pushed_types
      (emitted (handle_message scenario_env "L" 0 (Some "stop_recording"))
               (session_world ["C"; "D"] ["A+B+C"]))
    = ["synthesis_started"; "structured_notes"; "final_synthesis_started";
       "final_notes"; "recording_stopped"].
Proof.
  destruct (final_synthesis_procedure scenario_env "L" 0
              (session_world ["C"; "D"] ["A+B+C"]) eq_refl)
    as (Hrun & _).
  unfold emitted. rewrite Hrun. split; by vm_compute.
Defined.

(** C6 as worded fails: the request-final signal starts the final
    synthesis with no grace wait and no last mid-stream round. *)
Lemma request_final_skips_wait_and_round : ¬ final_procedure_as_specified.
Proof.
  intros Hspec.
  destruct (Hspec scenario_env "L" 0 (session_world ["C"; "D"] ["A+B+C"])
                  "request_final_synthesis")
    as [Hsleeps _]; [by right|discriminate|reflexivity|].
  by vm_compute in Hsleeps.
Qed.

(** ** The task registry *)

Lemma concat_snoc_nil {A} (l : list (list A)) : concat (l ++ [[]]) = concat l.
Proof. rewrite concat_app. cbn. by rewrite app_nil_r. Qed.

Lemma concat_alter_snoc {A} (l : list (list A)) q x :
  q < length l → concat (alter (λ items, items ++ [x]) q l) ≡ₚ x :: concat l.
Proof.
  revert q. induction l as [|y l IH]; intros q Hq; cbn in *; [lia|].
  destruct q as [|q]; cbn.
  - rewrite <- app_assoc. cbn. by rewrite <- Permutation_middle.
  - rewrite IH by lia. by rewrite Permutation_middle.
Qed.

Lemma concat_insert_tail {A} (l : list (list A)) q item rest :
  l !! q = Some (item :: rest) →
  item :: concat (<[q := rest]> l) ≡ₚ concat l.
Proof.
  revert q. induction l as [|y l IH]; intros q Hq; [done|].
  destruct q as [|q]; cbn in *.
  - by injection Hq as ->.
  - rewrite <- (IH q Hq). by rewrite Permutation_middle.
Qed.

Lemma elem_of_queue {A} (l : list (list A)) q items (x : A) :
  l !! q = Some items → x ∈ items → x ∈ concat l.
Proof.
  revert q. induction l as [|y l IH]; intros q Hq Hx; [done|].
  cbn. apply elem_of_app. destruct q as [|q]; cbn in Hq.
  - left. by injection Hq as ->.
  - right. eauto.
Qed.

Lemma cancel_not_running t : task_status (cancel t) ≠ Running.
Proof.
  unfold cancel. destruct (task_status t) eqn:Hstatus; cbn; congruence.
Qed.

Lemma consistent_init : consistent server_init.
Proof.
  split; cbn; try done; constructor.
Qed.

(** A lecture none of whose running tasks is suspended gets a new queue. *)
Lemma new_queue_consistent lecture_id s :
  consistent s →
  (∀ w t,
     tasks s !! w = Some t → task_status t = Running →
     task_lecture t = lecture_id → task_waits_on t = None) →
  consistent (new_queue lecture_id s).
Proof.
  intros [Hreg Hwait Hexist Hdist Hnodup Hknown] Hidle.
  split; cbn [new_queue tasks processing_tasks audio_queues queues
              items_made taken processed].
  - exact Hreg.
  - intros w t q Ht Hrun Hq.
    destruct (decide (task_lecture t = lecture_id)) as [Hl|Hl].
    + rewrite (Hidle w t Ht Hrun Hl) in Hq. discriminate.
    + rewrite lookup_insert_ne by done. eauto.
  - intros l q. rewrite length_app. cbn.
    destruct (decide (lecture_id = l)) as [->|Hl].
    + rewrite lookup_insert_eq. intros [= <-]. lia.
    + rewrite lookup_insert_ne by done. intros ?%Hexist. lia.
  - intros l1 l2 q.
    destruct (decide (lecture_id = l1)) as [->|Hl1];
      destruct (decide (l1 = l2)) as [->|Hl2]; try done.
    + rewrite lookup_insert_eq, lookup_insert_ne by done.
      intros [= <-] ?%Hexist. lia.
    + destruct (decide (lecture_id = l2)) as [->|Hl3].
      * rewrite lookup_insert_eq, lookup_insert_ne by done.
        intros ?%Hexist [= <-]. lia.
      * rewrite !lookup_insert_ne by done. eauto.
  - by rewrite concat_snoc_nil.
  - by rewrite concat_snoc_nil.
Qed.

(** Looking the queue of a lecture up keeps the server consistent and
    changes no task, no connection and no item. *)
Lemma queue_of_spec lecture_id s :
  consistent s →
  ∃ q s1,
    queue_of lecture_id s = (q, s1)
    ∧ consistent s1
    ∧ audio_queues s1 !! lecture_id = Some q
    ∧ tasks s1 = tasks s
    ∧ processing_tasks s1 = processing_tasks s
    ∧ active_connections s1 = active_connections s
    ∧ processed s1 = processed s
    ∧ items_made s1 = items_made s
    ∧ concat (queues s1) = concat (queues s)
    ∧ length (queues s) ≤ length (queues s1)
    ∧ (∀ q', q' < length (queues s) → queues s1 !! q' = queues s !! q')
    ∧ (∀ l, l ≠ lecture_id → audio_queues s1 !! l = audio_queues s !! l)
    ∧ (audio_queues s !! lecture_id = None → q = length (queues s)).
Proof.
  intros Hs. unfold queue_of.
  destruct (audio_queues s !! lecture_id) as [q|] eqn:Hq.
  - exists q, s. by split_and!.
  - exists (length (queues s)), (new_queue lecture_id s).
    split; [done|]. split.
    { apply new_queue_consistent; [done|].
      intros w t Ht Hrun Hl. destruct (task_waits_on t) as [q|] eqn:Hw; [|done].
      pose proof (waits_on_current s Hs w t q Ht Hrun Hw) as Hcur.
      rewrite Hl, Hq in Hcur. discriminate. }
    cbn. rewrite lookup_insert_eq, concat_snoc_nil, length_app. cbn.
    split_and!; try done; try lia.
    + intros q' Hq'. by rewrite lookup_app_l.
    + intros l Hl. by rewrite lookup_insert_ne.
Qed.

Lemma lookup_alter_Some {A} (f : A → A) (l : list A) i j y :
  alter f i l !! j = Some y →
  ∃ x, l !! j = Some x ∧ (i = j ∧ y = f x ∨ i ≠ j ∧ y = x).
Proof.
  destruct (decide (i = j)) as [->|Hij].
  - rewrite list_lookup_alter_eq. destruct (l !! j) as [x|]; [|done].
    intros [= <-]. eauto.
  - rewrite list_lookup_alter_ne by done. eauto.
Qed.

(** Tasks may end, stop waiting, or wait on the queue of their lecture:
    the server stays consistent. *)
Lemma with_tasks_consistent s ts :
  consistent s →
  (∀ w t', ts !! w = Some t' → task_status t' = Running →
     ∃ t, tasks s !! w = Some t
          ∧ task_lecture t' = task_lecture t
          ∧ task_status t = Running
          ∧ (task_waits_on t' = task_waits_on t
             ∨ task_waits_on t' = None
             ∨ ∃ q, task_waits_on t' = Some q
                    ∧ audio_queues s !! task_lecture t' = Some q)) →
  consistent (with_tasks ts s).
Proof.
  intros [Hreg Hwait Hexist Hdist Hnodup Hknown] Hts.
  split; cbn [with_tasks tasks processing_tasks audio_queues queues
              items_made taken processed]; try done.
  - intros w t' Ht' Hrun.
    destruct (Hts w t' Ht' Hrun) as (t & Ht & -> & Hrun' & _). eauto.
  - intros w t' q Ht' Hrun Hq.
    destruct (Hts w t' Ht' Hrun) as (t & Ht & Hl & Hrun' & Hw).
    destruct Hw as [Hw|[Hw|(q' & Hw & Hcur)]].
    + rewrite Hl. rewrite Hw in Hq. eauto.
    + congruence.
    + congruence.
Qed.

Lemma connect_consistent lecture_id ws s :
  consistent s → consistent (connect lecture_id ws s).
Proof. intros []. by split. Qed.

Lemma disconnect_consistent lecture_id s :
  consistent s → consistent (disconnect lecture_id s).
Proof. intros []. by split. Qed.

(** A new task for a lecture that has no running task. *)
Lemma create_task_consistent lecture_id s :
  consistent s → no_worker s lecture_id →
  consistent (create_task lecture_id s).
Proof.
  intros [Hreg Hwait Hexist Hdist Hnodup Hknown] Hnone.
  split; cbn [create_task tasks processing_tasks audio_queues queues
              items_made taken processed]; try done.
  - intros w t [[Hw Ht]|[-> <-]]%lookup_snoc_Some Hrun.
    + rewrite lookup_insert_ne by (symmetry; eauto). eauto.
    + cbn. by rewrite lookup_insert_eq.
  - intros w t q [[Hw Ht]|[-> <-]]%lookup_snoc_Some Hrun Hq.
    + eauto.
    + discriminate.
Qed.

(** The connection, up to the await: the server is consistent and the
    lecture is left without a running task. *)
Lemma websocket_endpoint_begin_spec lecture_id ws s :
  consistent s →
  consistent (snd (websocket_endpoint_begin lecture_id ws s))
  ∧ no_worker (snd (websocket_endpoint_begin lecture_id ws s)) lecture_id.
Proof.
  intros Hs%(connect_consistent lecture_id ws).
  unfold websocket_endpoint_begin.
  set (s1 := connect lecture_id ws s) in *.
  destruct (processing_tasks s1 !! lecture_id) as [old|] eqn:Hold;
    cbn [snd].
  - assert (∀ w t', alter cancel old (tasks s1) !! w = Some t' →
                    task_status t' = Running →
                    tasks s1 !! w = Some t' ∧ task_lecture t' ≠ lecture_id)
      as Halive.
    { intros w t' (t & Ht & [[<- ->]|[Hne ->]])%lookup_alter_Some Hrun.
      - by apply cancel_not_running in Hrun.
      - split; [done|]. intros Hl.
        pose proof (running_registered s1 Hs w t Ht Hrun) as Hreg.
        rewrite Hl, Hold in Hreg. congruence. }
    split.
    + apply with_tasks_consistent; [done|].
      intros w t' Ht' Hrun. destruct (Halive w t' Ht' Hrun) as [Ht _].
      exists t'. eauto.
    + intros w t' Ht' Hrun. by destruct (Halive w t' Ht' Hrun).
  - split; [done|]. intros w t Ht Hrun Hl.
    pose proof (running_registered s1 Hs w t Ht Hrun) as Hreg.
    rewrite Hl, Hold in Hreg. discriminate.
Qed.

(** The connection, after the await, on a lecture without a running
    task. *)
Lemma websocket_endpoint_resume_consistent lecture_id old s :
  consistent s → no_worker s lecture_id →
  consistent (websocket_endpoint_resume lecture_id old s).
Proof.
  intros Hs Hnone. unfold websocket_endpoint_resume.
  apply create_task_consistent; [|by destruct old].
  destruct old; [|done]. apply new_queue_consistent; [done|].
  intros w t Ht Hrun Hl. by destruct (Hnone w t Ht Hrun).
Qed.

Lemma websocket_endpoint_consistent lecture_id ws s :
  consistent s → consistent (websocket_endpoint lecture_id ws s).
Proof.
  intros Hs. unfold websocket_endpoint.
  destruct (websocket_endpoint_begin_spec lecture_id ws s Hs) as [Hs1 Hnone].
  destruct (websocket_endpoint_begin lecture_id ws s) as [old s1].
  by apply websocket_endpoint_resume_consistent.
Qed.

Lemma process_audio_chunk_consistent lecture_id s :
  consistent s → consistent (process_audio_chunk lecture_id s).
Proof.
  intros Hs. unfold process_audio_chunk.
  destruct (queue_of_spec lecture_id s Hs)
    as (q & s1 & -> & [Hreg Hwait Hexist Hdist Hnodup Hknown] & Hq & _).
  assert (concat (alter (λ items, items ++ [items_made s1]) q (queues s1))
            ++ taken s1
          ≡ₚ items_made s1 :: (concat (queues s1) ++ taken s1)) as Hperm.
  { rewrite concat_alter_snoc by eauto. done. }
  split; cbn [tasks processing_tasks audio_queues queues items_made taken
              processed]; try done.
  - intros l q'. rewrite length_alter. eauto.
  - fold (taken s1). rewrite Hperm. apply NoDup_cons. split; [|done].
    intros Hin. rewrite Forall_forall in Hknown.
    apply Hknown in Hin. lia.
  - fold (taken s1). rewrite Hperm. apply Forall_cons. split; [lia|].
    eapply Forall_impl; [exact Hknown|]. cbn. lia.
Qed.

Lemma receive_audio_chunk_consistent lecture_id s :
  consistent s → consistent (receive_audio_chunk lecture_id s).
Proof.
  intros Hs. unfold receive_audio_chunk.
  destruct (active_connections s !! lecture_id); [|done].
  by apply process_audio_chunk_consistent.
Qed.

Lemma fault_consistent worker s : consistent s → consistent (fault worker s).
Proof.
  intros Hs. apply with_tasks_consistent; [done|].
  intros w t' (t & Ht & [[<- ->]|[Hne ->]])%lookup_alter_Some Hrun.
  - destruct (task_status t) eqn:Hstatus; cbn in Hrun; congruence.
  - exists t. eauto.
Qed.

(** The queue a running task takes its next item from. *)
Lemma awaited_queue_spec worker t s :
  consistent s →
  tasks s !! worker = Some t →
  task_status t = Running →
  ∃ q s1,
    match task_waits_on t with
    | Some q => (q, s)
    | None => queue_of (task_lecture t) s
    end = (q, s1)
    ∧ consistent s1
    ∧ audio_queues s1 !! task_lecture t = Some q
    ∧ tasks s1 = tasks s
    ∧ length (queues s) ≤ length (queues s1)
    ∧ (∀ q', q' < length (queues s) → queues s1 !! q' = queues s !! q')
    ∧ (∀ l, l ≠ task_lecture t → audio_queues s1 !! l = audio_queues s !! l)
    ∧ (audio_queues s !! task_lecture t = None → q = length (queues s)).
Proof.
  intros Hs Ht Hrun. destruct (task_waits_on t) as [q|] eqn:Hw.
  - pose proof (waits_on_current s Hs worker t q Ht Hrun Hw) as Hq.
    exists q, s. split_and!; try done. congruence.
  - destruct (queue_of_spec (task_lecture t) s Hs)
      as (q & s1 & -> & Hs1 & Hq & Htasks & _ & _ & _ & _ & _ & Hlen & Hold
          & Hother & Hfresh).
    exists q, s1. by split_and!.
Qed.

(** Taking the first item of a queue. *)
Lemma take_item_consistent worker q item rest s :
  consistent s →
  queues s !! q = Some (item :: rest) →
  consistent
    (with_processed (processed s ++ [(worker, item)])
       (with_queues (<[q := rest]> (queues s)) s)).
Proof.
  intros [Hreg Hwait Hexist Hdist Hnodup Hknown] Hq.
  assert (concat (<[q := rest]> (queues s)) ++ taken s ++ [item]
          ≡ₚ concat (queues s) ++ taken s) as Hperm.
  { rewrite <- (concat_insert_tail (queues s) q item rest Hq).
    rewrite (Permutation_app_comm (taken s)). cbn.
    by rewrite <- Permutation_middle. }
  split; cbn [with_processed with_queues tasks processing_tasks audio_queues
              queues items_made processed]; try done.
  - intros l q'. rewrite length_insert. eauto.
  - unfold taken in *. cbn. rewrite fmap_app. cbn. by rewrite Hperm.
  - unfold taken in *. cbn. rewrite fmap_app. cbn. by rewrite Hperm.
Qed.

Lemma queue_get_consistent worker s :
  consistent s → consistent (queue_get worker s).
Proof.
  intros Hs. unfold queue_get.
  destruct (tasks s !! worker) as [t|] eqn:Ht; [|done].
  destruct (task_status t) eqn:Hrun; try done.
  destruct (awaited_queue_spec worker t s Hs Ht Hrun)
    as (q & s1 & -> & Hs1 & Hq & Htasks & _).
  assert (∀ (waits : option nat) s2,
            consistent s2 → tasks s2 = tasks s1 →
            audio_queues s2 = audio_queues s1 →
            (waits = None ∨ waits = Some q) →
            consistent
              (with_tasks (alter (set_waits_on waits) worker (tasks s1)) s2))
    as Hwaits.
  { intros waits s2 Hs2 Htasks2 Hqueues2 Hwaits.
    apply with_tasks_consistent; [done|].
    rewrite Htasks2, Htasks.
    intros w t' (t0 & Ht0 & [[<- ->]|[Hne ->]])%lookup_alter_Some Hrun'.
    - exists t0. split_and!; try done. cbn.
      destruct Hwaits as [-> | ->]; [eauto|].
      right. right. exists q. split; [done|].
      rewrite Hqueues2. congruence.
    - exists t0. eauto. }
  destruct (queues s1 !! q) as [[|item rest]|] eqn:Hitems.
  - apply Hwaits; eauto.
  - apply Hwaits; eauto. by apply take_item_consistent.
  - apply Hwaits; eauto.
Qed.

Lemma step_consistent e s : consistent s → consistent (step e s).
Proof.
  destruct e; cbn.
  - apply websocket_endpoint_consistent.
  - apply disconnect_consistent.
  - apply receive_audio_chunk_consistent.
  - apply queue_get_consistent.
  - apply fault_consistent.
Qed.

Lemma run_consistent history s : consistent s → consistent (run history s).
Proof.
  revert s. induction history as [|e history IH]; intros s Hs; [done|].
  cbn. apply IH. by apply step_consistent.
Qed.

Lemma reachable_consistent s : reachable s → consistent s.
Proof. intros [history ->]. apply run_consistent, consistent_init. Qed.

(** *** Orphaned queues stay orphaned *)

(** Reads the fields of an updated server. *)
Ltac server_simpl :=
  cbn [active_connections processing_tasks audio_queues queues tasks
       items_made processed with_tasks with_queues with_processed new_queue
       connect disconnect create_task].

Lemma new_queue_orphaned lecture_id s q :
  orphaned s q →
  orphaned (new_queue lecture_id s) q
  ∧ queues (new_queue lecture_id s) !! q = queues s !! q.
Proof.
  intros (Hq & Hunbound & Hunawaited). unfold orphaned.
  server_simpl. split; [split_and!|].
  - rewrite length_app. lia.
  - intros l. destruct (decide (lecture_id = l)) as [->|Hl].
    + rewrite lookup_insert_eq. intros [= ?]. lia.
    + by rewrite lookup_insert_ne.
  - done.
  - by rewrite lookup_app_l.
Qed.

Lemma queue_of_orphaned lecture_id s q :
  orphaned s q →
  ∃ q1 s1,
    queue_of lecture_id s = (q1, s1)
    ∧ orphaned s1 q ∧ queues s1 !! q = queues s !! q ∧ q1 ≠ q.
Proof.
  intros Horphan. unfold queue_of.
  destruct (audio_queues s !! lecture_id) as [q1|] eqn:Hq1.
  - exists q1, s. split_and!; try done.
    intros ->. by apply Horphan in Hq1.
  - destruct (new_queue_orphaned lecture_id s q Horphan) as [Horphan' Hsame].
    eexists _, _. split_and!; try done.
    destruct Horphan as [Hq _]. lia.
Qed.

Lemma with_tasks_orphaned ts s q :
  orphaned s q →
  (∀ w t, ts !! w = Some t → task_status t = Running →
          task_waits_on t ≠ Some q) →
  orphaned (with_tasks ts s) q.
Proof. intros (Hq & Hunbound & _) Hts. by split_and!. Qed.

Lemma orphaned_step e s q :
  consistent s → orphaned s q →
  orphaned (step e s) q ∧ queues (step e s) !! q = queues s !! q.
Proof.
  intros Hs Horphan. pose proof Horphan as (Hq & Hunbound & Hunawaited).
  destruct e as [lecture_id ws|lecture_id|lecture_id|worker|worker];
    cbn [step].
  - (* a connection *)
    unfold websocket_endpoint, websocket_endpoint_begin,
      websocket_endpoint_resume.
    set (s1 := connect lecture_id ws s).
    assert (orphaned s1 q) as Horphan1 by done.
    assert (∀ s2, orphaned s2 q →
                  orphaned (create_task lecture_id s2) q
                  ∧ queues (create_task lecture_id s2) !! q = queues s2 !! q)
      as Hcreate.
    { intros s2 (Hq2 & Hunbound2 & Hunawaited2). split; [|done].
      split_and!; try done. server_simpl.
      intros w t [[Hw Ht]|[-> <-]]%lookup_snoc_Some Hrun; [eauto|done]. }
    destruct (processing_tasks s1 !! lecture_id) as [old|].
    + destruct (Hcreate
                  (new_queue lecture_id
                     (with_tasks (alter cancel old (tasks s1)) s1)))
        as [Hgoal Hsame].
      { apply new_queue_orphaned, with_tasks_orphaned; [done|].
        intros w t (t0 & Ht0 & [[<- ->]|[Hne ->]])%lookup_alter_Some Hrun.
        - by apply cancel_not_running in Hrun.
        - eauto. }
      split; [done|]. etrans; [exact Hsame|]. server_simpl.
      by rewrite lookup_app_l.
    + destruct (Hcreate s1 Horphan1) as [Hgoal Hsame].
      split; [exact Hgoal|exact Hsame].
  - (* a disconnection *)
    done.
  - (* a chunk *)
    unfold receive_audio_chunk.
    destruct (active_connections s !! lecture_id); [|done].
    unfold process_audio_chunk.
    destruct (queue_of_orphaned lecture_id s q Horphan)
      as (q1 & s1 & -> & (Hq1 & Hunbound1 & Hunawaited1) & Hsame & Hne).
    unfold orphaned. server_simpl. split; [split_and!; try done|].
    + by rewrite length_alter.
    + by rewrite list_lookup_alter_ne.
  - (* a worker takes an item *)
    unfold queue_get.
    destruct (tasks s !! worker) as [t|] eqn:Ht; [|done].
    destruct (task_status t) eqn:Hrun; try done.
    assert (∃ q1 s1,
              match task_waits_on t with
              | Some q => (q, s)
              | None => queue_of (task_lecture t) s
              end = (q1, s1)
              ∧ orphaned s1 q ∧ queues s1 !! q = queues s !! q ∧ q1 ≠ q)
      as (q1 & s1 & -> & Horphan1 & Hsame & Hne).
    { destruct (task_waits_on t) as [q1|] eqn:Hw.
      - exists q1, s. split_and!; try done.
        intros ->. by eapply Hunawaited.
      - by apply queue_of_orphaned. }
    assert (∀ (waits : option nat) s2,
              orphaned s2 q → tasks s2 = tasks s1 →
              (waits = None ∨ waits = Some q1) →
              orphaned
                (with_tasks (alter (set_waits_on waits) worker (tasks s1))
                            s2) q) as Hwaits.
    { intros waits s2 Horphan2 Htasks2 Hw.
      apply with_tasks_orphaned; [done|].
      intros w t' (t0 & Ht0 & [[<- ->]|[Hne' ->]])%lookup_alter_Some Hrun'.
      - cbn. destruct Hw as [-> | ->]; congruence.
      - rewrite <- Htasks2 in Ht0.
        destruct Horphan2 as (_ & _ & Hunawaited2). eauto. }
    destruct (queues s1 !! q1) as [[|item rest]|] eqn:Hitems.
    + split; [apply Hwaits; eauto|done].
    + split; [apply Hwaits; eauto|].
      * destruct Horphan1 as (Hq1 & Hunbound1 & Hunawaited1).
        split_and!; try done. server_simpl. by rewrite length_insert.
      * server_simpl. by rewrite list_lookup_insert_ne.
    + split; [apply Hwaits; eauto|done].
  - (* a worker ends *)
    split; [|done]. apply with_tasks_orphaned; [done|].
    intros w t (t0 & Ht0 & [[<- ->]|[Hne ->]])%lookup_alter_Some Hrun.
    + destruct (task_status t0) eqn:Hstatus; cbn in Hrun; try congruence.
    + eauto.
Qed.

Lemma orphaned_run history s q :
  consistent s → orphaned s q →
  orphaned (run history s) q ∧ queues (run history s) !! q = queues s !! q.
Proof.
  revert s. induction history as [|e history IH]; intros s Hs Horphan; [done|].
  change (run (e :: history) s) with (run history (step e s)).
  destruct (orphaned_step e s q Hs Horphan) as [Horphan' Hsame].
  destruct (IH (step e s)) as [Hgoal Hsame']; [by apply step_consistent|done|].
  split; [done|]. by rewrite Hsame'.
Qed.

(** *** Tasks over time *)

(** A task that has ended is never touched again. *)
Lemma ended_task_step e s w t :
  tasks s !! w = Some t → task_status t ≠ Running →
  tasks (step e s) !! w = Some t.
Proof.
  intros Ht Hended.
  assert (∀ (f : task → task) worker,
            (∀ t0, task_status t0 ≠ Running → f t0 = t0) →
            alter f worker (tasks s) !! w = Some t) as Halter.
  { intros f worker Hf. destruct (decide (worker = w)) as [->|Hne].
    - rewrite list_lookup_alter_eq, Ht. cbn. by rewrite Hf.
    - by rewrite list_lookup_alter_ne. }
  assert (∀ t0, task_status t0 ≠ Running → cancel t0 = t0) as Hcancel.
  { intros t0 Ht0. unfold cancel. by destruct (task_status t0). }
  destruct e as [lecture_id ws|lecture_id|lecture_id|worker|worker];
    cbn [step].
  - unfold websocket_endpoint, websocket_endpoint_begin,
      websocket_endpoint_resume.
    set (s1 := connect lecture_id ws s).
    destruct (processing_tasks s1 !! lecture_id) as [old|]; server_simpl.
    + apply lookup_app_l_Some. by apply Halter.
    + by apply lookup_app_l_Some.
  - done.
  - unfold receive_audio_chunk.
    destruct (active_connections s !! lecture_id); [|done].
    unfold process_audio_chunk, queue_of.
    by destruct (audio_queues s !! lecture_id).
  - unfold queue_get.
    destruct (tasks s !! worker) as [t0|] eqn:Ht0; [|done].
    destruct (task_status t0) eqn:Hrun; try done.
    assert (worker ≠ w) as Hne by (intros ->; congruence).
    assert (∃ q s1,
              match task_waits_on t0 with
              | Some q => (q, s)
              | None => queue_of (task_lecture t0) s
              end = (q, s1) ∧ tasks s1 = tasks s) as (q & s1 & -> & Htasks).
    { destruct (task_waits_on t0); [by eauto|].
      unfold queue_of. destruct (audio_queues s !! _); by eauto. }
    destruct (queues s1 !! q) as [[|item rest]|]; server_simpl;
      rewrite Htasks; by rewrite list_lookup_alter_ne.
  - unfold fault. server_simpl. apply Halter.
    intros t0 Ht0. cbv beta. by destruct (task_status t0).
Qed.

Lemma ended_task_run history s w t :
  tasks s !! w = Some t → task_status t ≠ Running →
  tasks (run history s) !! w = Some t.
Proof.
  revert s. induction history as [|e history IH]; intros s Ht Hended; [done|].
  change (run (e :: history) s) with (run history (step e s)).
  apply IH; [|done]. by apply ended_task_step.
Qed.

(** A running task was running before, unless a connection for its
    lecture has just started it. *)
Lemma running_step e s w t' :
  tasks (step e s) !! w = Some t' → task_status t' = Running →
  (∃ t, tasks s !! w = Some t
        ∧ task_lecture t = task_lecture t' ∧ task_status t = Running)
  ∨ (∃ ws, e = Connects (task_lecture t') ws).
Proof.
  assert (∀ (f : task → task) worker,
            (∀ t0, task_lecture (f t0) = task_lecture t0) →
            (∀ t0, task_status (f t0) = Running → task_status t0 = Running) →
            alter f worker (tasks s) !! w = Some t' →
            task_status t' = Running →
            ∃ t, tasks s !! w = Some t
                 ∧ task_lecture t = task_lecture t'
                 ∧ task_status t = Running) as Halter.
  { intros f worker Hl Hr (t & Ht & [[<- ->]|[Hne ->]])%lookup_alter_Some
           Hrun; exists t; eauto. }
  assert (∀ t0, task_lecture (cancel t0) = task_lecture t0) as Hcancel.
  { intros t0. unfold cancel. by destruct (task_status t0). }
  destruct e as [lecture_id ws|lecture_id|lecture_id|worker|worker];
    cbn [step].
  - unfold websocket_endpoint, websocket_endpoint_begin,
      websocket_endpoint_resume.
    set (s1 := connect lecture_id ws s).
    destruct (processing_tasks s1 !! lecture_id) as [old|]; server_simpl.
    + intros [[Hw Ht']|[-> <-]]%lookup_snoc_Some Hrun; [|by eauto].
      left. apply (Halter cancel old); try done.
      intros t0 Ht0. by apply cancel_not_running in Ht0.
    + intros [[Hw Ht']|[-> <-]]%lookup_snoc_Some Hrun; by eauto.
  - by eauto.
  - unfold receive_audio_chunk.
    destruct (active_connections s !! lecture_id); [|by eauto].
    unfold process_audio_chunk, queue_of.
    destruct (audio_queues s !! lecture_id); by eauto.
  - unfold queue_get.
    destruct (tasks s !! worker) as [t0|] eqn:Ht0; [|by eauto].
    destruct (task_status t0) eqn:Hrun0; try by eauto.
    assert (∃ q s1,
              match task_waits_on t0 with
              | Some q => (q, s)
              | None => queue_of (task_lecture t0) s
              end = (q, s1) ∧ tasks s1 = tasks s) as (q & s1 & -> & Htasks).
    { destruct (task_waits_on t0); [by eauto|].
      unfold queue_of. destruct (audio_queues s !! _); by eauto. }
    destruct (queues s1 !! q) as [[|item rest]|]; server_simpl;
      rewrite Htasks; intros Ht' Hrun; left;
      by eapply Halter; [| |exact Ht'|exact Hrun].
  - unfold fault. server_simpl. intros Ht' Hrun. left.
    eapply Halter; [| |exact Ht'|exact Hrun].
    + intros t0. cbv beta. by destruct (task_status t0).
    + intros t0. cbv beta.
      destruct (task_status t0) eqn:Hstatus; cbn; congruence.
Qed.

Lemma no_worker_run lecture_id history s :
  no_worker s lecture_id → no_connection lecture_id history →
  no_worker (run history s) lecture_id.
Proof.
  revert s. induction history as [|e history IH]; intros s Hnone Hquiet;
    [done|].
  change (run (e :: history) s) with (run history (step e s)).
  apply IH.
  - intros w t' Ht' Hrun Hl.
    destruct (running_step e s w t' Ht' Hrun) as [(t & Ht & Hl' & Hrun')|[ws ->]].
    + apply (Hnone w t Ht Hrun'). congruence.
    + apply (Hquiet ws). rewrite Hl. apply list_elem_of_here.
  - intros ws Hin. apply (Hquiet ws). by apply list_elem_of_further.
Qed.

(** In a reachable server a lecture has at most one running worker, the
    registered one. *)
Lemma live_worker_registered s lecture_id worker :
  reachable s → live_worker s lecture_id worker →
  processing_tasks s !! lecture_id = Some worker.
Proof.
  intros Hs%reachable_consistent (t & Ht & <- & Hrun).
  by apply (running_registered s Hs).
Qed.

Section Reconnect.

Variables (s : server) (lecture_id : string) (ws : websocket).
Variables (old_task : nat) (t : task) (meanwhile : list event).

(** The lecture has a running worker when the connection arrives. *)
Hypothesis s_reachable : reachable s.
Hypothesis old_registered : processing_tasks s !! lecture_id = Some old_task.
Hypothesis old_exists : tasks s !! old_task = Some t.
Hypothesis old_running : task_status t = Running.

(** What happens while the handler awaits the old task opens no second
    connection for the lecture. *)
Hypothesis one_connection : no_connection lecture_id meanwhile.

(** The server when the handler resumes after the await. *)
Let awaited :=
  run meanwhile (snd (websocket_endpoint_begin lecture_id ws s)).

(** The server once the new worker is started. *)
Let s' := websocket_endpoint_resume lecture_id (Some old_task) awaited.

(** The task and the queue object the connection creates. *)
Let new_task := length (tasks awaited).
Let fresh_queue := length (queues awaited).

Lemma begin_unfold :
  websocket_endpoint_begin lecture_id ws s
  = (Some old_task,
     with_tasks (alter cancel old_task (tasks s)) (connect lecture_id ws s)).
Proof.
  unfold websocket_endpoint_begin.
  change (processing_tasks (connect lecture_id ws s)) with (processing_tasks s).
  by rewrite old_registered.
Qed.

Lemma awaited_spec :
  consistent awaited
  ∧ no_worker awaited lecture_id
  ∧ tasks awaited !! old_task = Some (cancel t)
  ∧ task_status (cancel t) = Cancelled.
Proof.
  pose proof (reachable_consistent s s_reachable) as Hs.
  destruct (websocket_endpoint_begin_spec lecture_id ws s Hs) as [Hs1 Hnone].
  assert (task_status (cancel t) = Cancelled) as Hcancelled
    by (unfold cancel; by rewrite old_running).
  split_and!.
  - by apply run_consistent.
  - by apply no_worker_run.
  - apply ended_task_run; [|congruence].
    rewrite begin_unfold. cbn [snd]. server_simpl.
    by rewrite list_lookup_alter_eq, old_exists.
  - done.
Qed.

Lemma resume_unfold : s' = create_task lecture_id (new_queue lecture_id awaited).
Proof. done. Qed.

Lemma old_queue_orphaned old_queue :
  audio_queues awaited !! lecture_id = Some old_queue → orphaned s' old_queue.
Proof.
  intros Hold. destruct awaited_spec as (Hs & Hnone & _).
  rewrite resume_unfold. unfold orphaned. server_simpl.
  pose proof (queues_exist awaited Hs _ _ Hold) as Hlt. split_and!.
  - rewrite length_app. lia.
  - intros l. destruct (decide (lecture_id = l)) as [<-|Hl].
    + rewrite lookup_insert_eq. intros [= ?]. lia.
    + rewrite lookup_insert_ne by done. intros Hl'.
      by pose proof (queues_distinct awaited Hs _ _ _ Hold Hl').
  - intros w t' [[Hw Ht']|[-> <-]]%lookup_snoc_Some Hrun; [|done].
    intros Hwaits.
    pose proof (waits_on_current awaited Hs _ _ _ Ht' Hrun Hwaits) as Hcur.
    pose proof (queues_distinct awaited Hs _ _ _ Hold Hcur) as Hl.
    by apply (Hnone w t' Ht' Hrun).
Qed.

(** X25: a reconnection that no other connection of the lecture overlaps.
    On a new connection for a lecture whose worker is running, and as long
    as no second connection for the lecture is opened while the handler
    awaits the old task, the old worker is cancelled and has ended when the
    handler resumes; the lecture is then bound to a new and empty queue, a
    new worker is started and registered, and it is the only running
    worker of the lecture afterwards; the items pending on the old queue
    stay there whatever happens next: no worker ever takes one. *)
Theorem reconnect_replaces_worker :
  fst (websocket_endpoint_begin lecture_id ws s) = Some old_task
  ∧ no_worker awaited lecture_id
  ∧ (∃ t', tasks s' !! old_task = Some t' ∧ task_status t' = Cancelled)
  ∧ audio_queues s' !! lecture_id = Some fresh_queue
  ∧ queues s' !! fresh_queue = Some []
  ∧ (∀ q, q < length (queues awaited) → queues s' !! q = queues awaited !! q)
  ∧ processing_tasks s' !! lecture_id = Some new_task
  ∧ (∀ worker, live_worker s' lecture_id worker ↔ worker = new_task)
  ∧ (∀ old_queue pending future,
       audio_queues awaited !! lecture_id = Some old_queue →
       queues awaited !! old_queue = Some pending →
       queues (run future s') !! old_queue = Some pending
       ∧ ∀ item, item ∈ pending → item ∉ taken (run future s'))
  ∧ (meanwhile = [] → s' = websocket_endpoint lecture_id ws s).
Proof.
  destruct awaited_spec as (Hs & Hnone & Hold & Hcancelled).
  assert (consistent s') as Hs'
    by by apply websocket_endpoint_resume_consistent.
  assert (processing_tasks s' !! lecture_id = Some new_task) as Hnew.
  { rewrite resume_unfold. server_simpl. by rewrite lookup_insert_eq. }
  split_and!.
  - by rewrite begin_unfold.
  - done.
  - exists (cancel t). split; [|done].
    rewrite resume_unfold. server_simpl. by apply lookup_app_l_Some.
  - rewrite resume_unfold. server_simpl. by rewrite lookup_insert_eq.
  - rewrite resume_unfold. server_simpl. by apply list_lookup_middle.
  - intros q Hq. rewrite resume_unfold. server_simpl.
    by rewrite lookup_app_l.
  - done.
  - intros worker. split.
    + intros (t' & Ht' & Hl & Hrun).
      pose proof (running_registered s' Hs' _ _ Ht' Hrun) as Hreg.
      rewrite Hl, Hnew in Hreg. congruence.
    + intros ->.
      exists {| task_lecture := lecture_id; task_status := Running;
                task_waits_on := None |}.
      split; [|done]. rewrite resume_unfold. server_simpl.
      by apply list_lookup_middle.
  - intros old_queue pending future Hbound Hpending.
    pose proof (old_queue_orphaned old_queue Hbound) as Horphan.
    destruct (orphaned_run future s' old_queue Hs' Horphan) as [_ Hsame].
    assert (queues (run future s') !! old_queue = Some pending) as Hstill.
    { rewrite Hsame, resume_unfold. server_simpl.
      rewrite lookup_app_l; [done|]. by eapply lookup_lt_Some. }
    split; [done|]. intros item Hitem Htaken.
    pose proof (run_consistent future s' Hs') as Hfuture.
    pose proof (items_distinct _ Hfuture) as Hnodup.
    apply NoDup_app in Hnodup as (_ & Hdisjoint & _).
    apply (Hdisjoint item); [|done].
    by eapply elem_of_queue.
  - intros Hnothing. unfold s', awaited, websocket_endpoint.
    rewrite Hnothing, begin_unfold. done.
Qed.

End Reconnect.

(** A reconnection to the busy server during which one more chunk
    arrives: task 0 is replaced by task 1, and the items 1, 2 and 3 stay on
    the old queue for ever. *)
Lemma reconnect_replaces_worker_witness :
  let s' :=
    websocket_endpoint_resume "L" (Some 0)
      (run [SendsChunk "L"] (snd (websocket_endpoint_begin "L" 1 busy_server)))
  in
  (∀ worker, live_worker s' "L" worker ↔ worker = 1)
  ∧ audio_queues s' !! "L" = Some 1
  ∧ queues s' = [[1; 2; 3]; []]
  ∧ ∀ future,
      queues (run future s') !! 0 = Some [1; 2; 3]
      ∧ (1 ∉ taken (run future s'))
      ∧ (3 ∉ taken (run future s')).
Proof.
  cbv zeta.
  assert (no_connection "L" [SendsChunk "L"]) as Hquiet.
  { intros ws Hin. apply list_elem_of_singleton in Hin. discriminate Hin. }
  destruct (reconnect_replaces_worker busy_server "L" 1 0
              {| task_lecture := "L"; task_status := Running;
                 task_waits_on := None |}
              [SendsChunk "L"]
              (ex_intro _ busy_history eq_refl) eq_refl eq_refl eq_refl
              Hquiet)
    as (_ & _ & _ & Hbound & _ & _ & _ & Hlive & Hpending & _).
  split; [exact Hlive|]. split; [exact Hbound|]. split; [reflexivity|].
  intros future.
  destruct (Hpending 0 [1; 2; 3] future eq_refl eq_refl) as [Hstill Hnever].
  split; [exact Hstill|]. split; apply Hnever.
  - apply list_elem_of_here.
  - do 2 apply list_elem_of_further. apply list_elem_of_here.
Defined.

(** C5: two connections of one lecture whose handlers overlap leave two
    workers.  Lecture "L" has the running worker 0 when two connections
    arrive; both handlers find task 0 registered, cancel it and are
    suspended at [await old_task] (line 550) before either resumes.  Each
    of them then replaces the queue and starts a task (lines 554-560):
    tasks 1 and 2 both run for "L", only task 2 is registered, and the
    lecture has no single live worker; of two chunks that arrive next, one
    is taken by each. *)
Theorem overlapping_reconnects_leave_two_workers :
  let s0 := step (Connects "L" 0) server_init in
  let first := websocket_endpoint_begin "L" 1 s0 in
  let second := websocket_endpoint_begin "L" 2 (snd first) in
  let s' :=
    websocket_endpoint_resume "L" (fst second)
      (websocket_endpoint_resume "L" (fst first) (snd second)) in
  live_worker s0 "L" 0
  ∧ fst first = Some 0
  ∧ fst second = Some 0
  ∧ s' = perform overlapping_reconnects server_init
  ∧ task_status <$> tasks s' = [Cancelled; Running; Running]
  ∧ live_worker s' "L" 1
  ∧ live_worker s' "L" 2
  ∧ processing_tasks s' !! "L" = Some 2
  ∧ (¬ ∃ worker, ∀ w, live_worker s' "L" w ↔ w = worker)
  ∧ processed
      (run [SendsChunk "L"; SendsChunk "L"; WorkerGets 1; WorkerGets 2] s')
    = [(1, 0); (2, 1)].
Proof.
  cbv zeta.
  assert (∀ n,
            0 < n < 3 →
            live_worker (perform overlapping_reconnects server_init) "L" n)
    as Hlive.
  { intros n Hn.
    exists {| task_lecture := "L"; task_status := Running;
              task_waits_on := None |}.
    destruct n as [|[|[|n]]]; try lia; by vm_compute. }
  split_and!.
  - by eexists; vm_compute.
  - by vm_compute.
  - by vm_compute.
  - by vm_compute.
  - by vm_compute.
  - apply (Hlive 1). lia.
  - apply (Hlive 2). lia.
  - by vm_compute.
  - intros [worker Honly].
    pose proof (proj1 (Honly 1) (Hlive 1 ltac:(lia))) as H1.
    pose proof (proj1 (Honly 2) (Hlive 2 ltac:(lia))) as H2.
    congruence.
  - by vm_compute.
Qed.

(* ================================================================== *)
(** * Further properties *)

(** ** What a run of the pipeline does to the processor *)

Lemma evolves_refl lecture_id p : evolves lecture_id p p.
Proof. apply rtc_refl. Qed.

Lemma evolves_step lecture_id p q r :
  evolves lecture_id p q → update lecture_id q r → evolves lecture_id p r.
Proof. intros Hpq Hqr. eapply rtc_r; eauto. Qed.

Lemma evolves_trans lecture_id p q r :
  evolves lecture_id p q → evolves lecture_id q r → evolves lecture_id p r.
Proof. apply rtc_trans. Qed.

Create HintDb evolve.
#[local] Hint Resolve evolves_refl : evolve.
#[local] Hint Constructors update : evolve.

Lemma synthesize_notes_evolves E lecture_id ws w :
  evolves lecture_id (proc w) (proc (snd (synthesize_notes E lecture_id ws w))).
Proof.
  unfold synthesize_notes. mred.
  repeat mcase; cbn [proc snd]; rewrite ?buffer_of_set_last;
    eauto 6 using evolves_step with evolve.
Qed.

Lemma final_synthesis_proc E lecture_id ws w :
  proc (snd (final_synthesis E lecture_id ws w)) = proc w.
Proof. unfold final_synthesis. mred. repeat mcase; reflexivity. Qed.

Lemma should_synthesize_proc E lecture_id w :
  proc (snd (should_synthesize E lecture_id w)) = proc w.
Proof. unfold should_synthesize. mred. repeat mcase; reflexivity. Qed.

Lemma check_synthesis_evolves E lecture_id ws w :
  evolves lecture_id (proc w) (proc (snd (check_synthesis E lecture_id ws w))).
Proof.
  rewrite check_synthesis_unfold.
  pose proof (should_synthesize_proc E lecture_id w) as Hproc.
  destruct (should_synthesize E lecture_id w) as [[[]|] w1];
    cbn [snd] in *; rewrite <- Hproc; auto with evolve.
  apply synthesize_notes_evolves.
Qed.

Lemma process_transcription_evolves E lecture_id chunk_data transcription
    text w :
  evolves lecture_id (proc w)
    (proc (snd (process_transcription E lecture_id chunk_data transcription
                                      text w))).
Proof.
  unfold process_transcription. mred.
  repeat mcase; cbn [proc snd].
  all: try match goal with
       | H : check_synthesis ?E' ?l ?ws ?w1 = (_, ?w2) |- _ =>
           pose proof (check_synthesis_evolves E' l ws w1) as Hcheck;
           rewrite H in Hcheck; cbn [proc snd] in Hcheck;
           eapply evolves_trans; [|exact Hcheck]
       end.
  all: apply rtc_once; apply update_buffer.
Qed.

Lemma process_chunk_evolves E lecture_id chunk_data w :
  evolves lecture_id (proc w)
    (proc (snd (process_chunk E lecture_id chunk_data w))).
Proof.
  unfold process_chunk. mred.
  repeat mcase; cbn [proc snd]; auto with evolve.
  apply (process_transcription_evolves E lecture_id chunk_data _ _
           {| proc := proc w; trace := _ |}).
Qed.

Lemma process_lecture_audio_evolves E lecture_id queue w :
  evolves lecture_id (proc w)
    (proc (snd (process_lecture_audio E lecture_id queue w))).
Proof.
  revert w. induction queue as [|chunk_data queue IH]; intros w;
    cbn [process_lecture_audio]; [apply evolves_refl|].
  pose proof (process_chunk_evolves E lecture_id chunk_data w) as Hpass.
  destruct (process_chunk E lecture_id chunk_data w) as [[[]|[msg|]] w1];
    cbn [snd] in *; try done.
  eapply evolves_trans; [exact Hpass|apply IH].
Qed.

Lemma handle_message_evolves E lecture_id ws msg_type w :
  evolves lecture_id (proc w)
    (proc (snd (handle_message E lecture_id ws msg_type w))).
Proof.
  unfold handle_message. repeat case_decide; mred.
  - apply evolves_refl.
  - destruct (asyncio_sleep E (trace w) 2) as [[]|e]; mred;
      [|apply evolves_refl].
    set (w1 := {| proc := proc w; trace := trace w ++ [CSleep 2] |}).
    assert (∃ r w2,
              (if 0 <? length (buffer_of (proc w) lecture_id)
               then synthesize_notes E lecture_id ws
               else λ w, (Ok tt, w)) w1 = (r, w2)
              ∧ evolves lecture_id (proc w) (proc w2))
      as (r & w2 & -> & Hround).
    { destruct (0 <? _).
      - pose proof (synthesize_notes_evolves E lecture_id ws w1) as Hround.
        destruct (synthesize_notes E lecture_id ws w1) as [r w2]. eauto.
      - eexists _, _. split; [reflexivity|apply evolves_refl]. }
    destruct r as [[]|e]; [|exact Hround].
    pose proof (final_synthesis_proc E lecture_id ws w2) as Hfinal.
    destruct (final_synthesis E lecture_id ws w2) as [[[]|e] w3];
      cbn [snd proc] in *; by rewrite Hfinal.
  - rewrite final_synthesis_proc. apply evolves_refl.
  - apply evolves_refl.
Qed.

Lemma update_elsewhere lecture_id other p p' :
  update lecture_id p p' → other ≠ lecture_id →
  entries p' other = entries p other.
Proof.
  intros Hupdate Hother. unfold entries.
  destruct Hupdate; cbn; rewrite ?lookup_insert_ne by done; reflexivity.
Qed.

Lemma evolves_elsewhere lecture_id other p p' :
  evolves lecture_id p p' → other ≠ lecture_id →
  entries p' other = entries p other.
Proof.
  intros Hevolves Hother. induction Hevolves as [|p q r Hpq _ IH]; [done|].
  rewrite IH. by eapply update_elsewhere.
Qed.

Lemma update_history_prefix lecture_id p p' :
  update lecture_id p p' →
  history_of p lecture_id `prefix_of` history_of p' lecture_id.
Proof.
  intros []; rewrite ?history_of_append; try done.
  by apply prefix_app_r.
Qed.

Lemma evolves_history_prefix lecture_id p p' :
  evolves lecture_id p p' →
  history_of p lecture_id `prefix_of` history_of p' lecture_id.
Proof.
  intros Hevolves. induction Hevolves as [|p q r Hpq _ IH]; [done|].
  etrans; [|exact IH]. by apply update_history_prefix.
Qed.

Lemma update_buffer_nonempty lecture_id p p' :
  update lecture_id p p' →
  buffer_of p lecture_id ≠ [] → buffer_of p' lecture_id ≠ [].
Proof.
  intros [f p0|notes p0|t p0] Hbuffer.
  - unfold append_buffer. rewrite buffer_of_set_buffer.
    intros Hnil. by apply app_eq_nil in Hnil as [_ ?].
  - done.
  - rewrite buffer_of_set_buffer. apply slice_last_nonempty; [lia|done].
Qed.

Lemma evolves_buffer_nonempty lecture_id p p' :
  evolves lecture_id p p' →
  buffer_of p lecture_id ≠ [] → buffer_of p' lecture_id ≠ [].
Proof.
  intros Hevolves. induction Hevolves as [|p q r Hpq _ IH]; [done|].
  intros Hbuffer. by apply IH, (update_buffer_nonempty lecture_id p q).
Qed.

(** X1: the worker of a lecture and the messages of its connection leave
    the dictionary entries of every other lecture as they are, missing
    keys included. *)
Theorem other_lectures_untouched E lecture_id other queue ws msg_type w :
  other ≠ lecture_id →
  entries (proc (snd (process_lecture_audio E lecture_id queue w))) other
  = entries (proc w) other
  ∧ entries (proc (snd (handle_message E lecture_id ws msg_type w))) other
    = entries (proc w) other.
Proof.
  intros Hother. split.
  - eapply evolves_elsewhere; [apply process_lecture_audio_evolves|done].
  - eapply evolves_elsewhere; [apply handle_message_evolves|done].
Qed.

(** X2: structured notes are only ever appended: after any run of the
    worker, and after any message, the history of the lecture starts with
    the history it had. *)
Theorem history_only_grows E lecture_id queue ws msg_type w :
  history_of (proc w) lecture_id
    `prefix_of`
    history_of (proc (snd (process_lecture_audio E lecture_id queue w)))
               lecture_id
  ∧ history_of (proc w) lecture_id
      `prefix_of`
      history_of (proc (snd (handle_message E lecture_id ws msg_type w)))
                 lecture_id.
Proof.
  split; apply evolves_history_prefix.
  - apply process_lecture_audio_evolves.
  - apply handle_message_evolves.
Qed.

(** ** The states a round may leave *)

Lemma last_slice_last_one {A} (l : list A) : last (slice_last 1 l) = last l.
Proof.
  destruct (last l) as [x|] eqn:Hlast.
  - by rewrite (slice_last_one l x).
  - by apply last_None in Hlast as ->.
Qed.

(** A round leaves the processor as it was, or with the note appended to
    the history only (the round was interrupted after line 288), or with
    the note appended, the timestamp set and the buffer cut. *)
Lemma synthesize_notes_outcome E lecture_id ws w :
  let p := proc w in
  let p' := proc (snd (synthesize_notes E lecture_id ws w)) in
  p' = p
  ∨ (∃ notes, p' = append_history lecture_id notes p)
  ∨ (∃ notes t,
       p' = set_buffer lecture_id (slice_last 1 (buffer_of p lecture_id))
              (set_last_synthesis lecture_id t
                 (append_history lecture_id notes p))).
Proof.
  cbv zeta. unfold synthesize_notes. mred.
  repeat mcase; cbn [proc snd]; eauto.
Qed.

Lemma synthesize_notes_newest E lecture_id ws w :
  last (buffer_of (proc (snd (synthesize_notes E lecture_id ws w))) lecture_id)
  = last (buffer_of (proc w) lecture_id).
Proof.
  destruct (synthesize_notes_outcome E lecture_id ws w)
    as [-> | [[notes ->] | (notes & t & ->)]]; try done.
  by rewrite buffer_of_set_buffer, last_slice_last_one.
Qed.

(** X3: the newest fragment is never dropped.  A synthesis round, whatever
    its outcome, and every message of the connection leave the last entry
    of the buffer in place; the worker never empties a buffer that holds a
    fragment. *)
Theorem newest_fragment_kept E lecture_id ws msg_type queue w :
  last (buffer_of (proc (snd (synthesize_notes E lecture_id ws w))) lecture_id)
  = last (buffer_of (proc w) lecture_id)
  ∧ last (buffer_of (proc (snd (handle_message E lecture_id ws msg_type w)))
                    lecture_id)
    = last (buffer_of (proc w) lecture_id)
  ∧ (buffer_of (proc w) lecture_id ≠ [] →
     buffer_of (proc (snd (process_lecture_audio E lecture_id queue w)))
               lecture_id ≠ []).
Proof.
  split; [apply synthesize_notes_newest|]. split.
  - unfold handle_message. repeat case_decide; mred; try done.
    + destruct (asyncio_sleep E (trace w) 2) as [[]|e]; mred; [|done].
      set (w1 := {| proc := proc w; trace := trace w ++ [CSleep 2] |}).
      assert (∃ r w2,
                (if 0 <? length (buffer_of (proc w) lecture_id)
                 then synthesize_notes E lecture_id ws
                 else λ w, (Ok tt, w)) w1 = (r, w2)
                ∧ last (buffer_of (proc w2) lecture_id)
                  = last (buffer_of (proc w) lecture_id))
        as (r & w2 & -> & Hround).
      { destruct (0 <? _).
        - pose proof (synthesize_notes_newest E lecture_id ws w1) as Hround.
          destruct (synthesize_notes E lecture_id ws w1) as [r w2]. eauto.
        - eexists _, _. split; reflexivity. }
      destruct r as [[]|e]; [|exact Hround].
      pose proof (final_synthesis_proc E lecture_id ws w2) as Hfinal.
      destruct (final_synthesis E lecture_id ws w2) as [[[]|e] w3];
        cbn [snd proc] in *; by rewrite Hfinal.
    + by rewrite final_synthesis_proc.
  - apply evolves_buffer_nonempty, process_lecture_audio_evolves.
Qed.

(** X4: final synthesis reads the processor and never writes it: the
    buffer, the timestamp and the history of every lecture are what they
    were, whatever the services answer; so is it after a
    [request_final_synthesis] message. *)
Theorem final_synthesis_reads_only E lecture_id ws w :
  proc (snd (final_synthesis E lecture_id ws w)) = proc w
  ∧ proc (snd (handle_message E lecture_id ws
                 (Some "request_final_synthesis") w))
    = proc w.
Proof.
  split; [apply final_synthesis_proc|].
  rewrite request_final_run. apply final_synthesis_proc.
Qed.

(** ** What a pass transcribes *)

Lemma transcribed_files_app l1 l2 :
  transcribed_files (l1 ++ l2) = transcribed_files l1 ++ transcribed_files l2.
Proof. apply omap_app. Qed.

Lemma synthesize_notes_transcribes_nothing E lecture_id ws w :
  ∃ l, trace (snd (synthesize_notes E lecture_id ws w)) = trace w ++ l
       ∧ transcribed_files l = [].
Proof.
  unfold synthesize_notes. mred.
  repeat mcase; trace_norm; rewrite ?app_nil_r.
  all: first [ by exists []; rewrite app_nil_r
             | eexists; split; reflexivity ].
Qed.

Lemma check_synthesis_transcribes_nothing E lecture_id ws w :
  ∃ l, trace (snd (check_synthesis E lecture_id ws w)) = trace w ++ l
       ∧ transcribed_files l = [].
Proof.
  rewrite check_synthesis_unfold.
  destruct (should_synthesize_world E lecture_id w) as (tl & Htl & Hworld).
  assert (transcribed_files (CTime :: tl) = []) as Hfirst
    by (by destruct Htl as [->|(a & b & ->)]).
  destruct (should_synthesize E lecture_id w) as [[[]|] w1];
    cbn [snd] in *; subst w1; cbn [snd trace]; eauto.
  destruct (synthesize_notes_transcribes_nothing E lecture_id ws
              {| proc := proc w; trace := trace w ++ CTime :: tl |})
    as (l & -> & Hl).
  cbn [trace]. rewrite <- app_assoc. eexists. split; [reflexivity|].
  by rewrite transcribed_files_app, Hfirst, Hl.
Qed.

(** A pass transcribes the file of its chunk, once, before anything
    else. *)
Lemma process_chunk_transcribes E lecture_id chunk_data w :
  ∃ l, trace (snd (process_chunk E lecture_id chunk_data w))
       = trace w ++ CTranscribe (chunk_file_path chunk_data) :: l
       ∧ transcribed_files l = [].
Proof.
  unfold process_chunk, process_transcription. mred.
  repeat mcase.
  all: try match goal with
           | H : check_synthesis ?E' ?l ?ws ?w1 = (_, ?w2) |- _ =>
               destruct (check_synthesis_transcribes_nothing E' l ws w1)
                 as (tl & Htl & Hcheck);
               rewrite H in Htl; cbn [snd trace] in Htl
           end.
  all: cbn [snd trace]; rewrite ?Htl; trace_norm.
  all: eexists; (split; [reflexivity|]).
  all: unfold transcribed_files in *; cbn; rewrite ?omap_app, ?Hcheck; done.
Qed.

(** ** Failures the pipeline contains *)

Section Contained.

Variable E : env.

Hypothesis no_cancellation : uncancelled E.
Hypothesis pushes_accepted : websockets_open E.

(** Resolves the next answer: a push is accepted, and an answer that is a
    cancellation is ruled out. *)
Ltac contain :=
  match goal with
  | |- context [send_json E ?h ?ws ?m] => rewrite (pushes_accepted h ws m)
  | |- context [match query_documents E ?h ?a ?b ?c with _ => _ end] =>
      pose proof (query_uncancelled E no_cancellation h a b c);
      destruct (query_documents E h a b c) as [?|[?|]]; [| |done]
  | |- context [match synthesize_structured_notes E ?h ?a ?b ?c ?d
                with _ => _ end] =>
      pose proof (synthesize_uncancelled E no_cancellation h a b c d);
      destruct (synthesize_structured_notes E h a b c d) as [[?|?]|[?|]];
      [| | |done]
  | |- context [match save_structured_notes E ?h ?a ?b ?c with _ => _ end] =>
      pose proof (notes_save_uncancelled E no_cancellation h a b c);
      destruct (save_structured_notes E h a b c) as [[]|[?|]]; [| |done]
  | |- context [match synthesize_final_notes E ?h ?a ?b ?c with _ => _ end] =>
      pose proof (final_uncancelled E no_cancellation h a b c);
      destruct (synthesize_final_notes E h a b c) as [[? ? ? ? ?|]|[?|]];
      [| | |done]
  | |- context [match save_final_notes E ?h ?a ?b ?c ?d ?e ?f
                with _ => _ end] =>
      pose proof (final_save_uncancelled E no_cancellation h a b c d e f);
      destruct (save_final_notes E h a b c d e f) as [[]|[?|]]; [| |done]
  end; mred.

Lemma synthesize_notes_returns lecture_id ws w :
  fst (synthesize_notes E lecture_id ws w) = Ok tt.
Proof.
  unfold synthesize_notes. mred.
  destruct (slice_last 3 (buffer_of (proc w) lecture_id)); mred; [done|].
  repeat contain; reflexivity.
Qed.

Lemma final_synthesis_returns lecture_id ws w :
  fst (final_synthesis E lecture_id ws w) = Ok tt.
Proof.
  unfold final_synthesis. mred.
  destruct (history_of (proc w) lecture_id); mred; [done|].
  repeat contain; reflexivity.
Qed.

(** X5: while the websocket takes the pushes and the task is not
    cancelled, a synthesis round and a final synthesis return normally
    whatever retrieval, the synthesis services and the persistence sinks
    answer: no exception of theirs reaches the caller. *)
Theorem rounds_contain_failures lecture_id ws w :
  fst (synthesize_notes E lecture_id ws w) = Ok tt
  ∧ fst (final_synthesis E lecture_id ws w) = Ok tt.
Proof. split; [apply synthesize_notes_returns|apply final_synthesis_returns]. Qed.

Lemma stop_recording_returns lecture_id ws w :
  asyncio_sleep E (trace w) 2 = Ok tt →
  ∃ l,
    handle_message E lecture_id ws (Some "stop_recording") w
    = (Ok tt,
       {| proc :=
            proc (snd (handle_message E lecture_id ws (Some "stop_recording")
                                      w));
          trace :=
            trace w ++ CSleep 2 :: l
            ++ [CSend ws (MRecordingStopped "Recording stopped")] |}).
Proof.
  intros Hsleep. rewrite stop_recording_run by done.
  set (w1 := {| proc := proc w; trace := trace w ++ [CSleep 2] |}).
  assert (∃ w2 l1,
            match buffer_of (proc w) lecture_id with
            | [] => (Ok tt, w1)
            | _ :: _ => synthesize_notes E lecture_id ws w1
            end = (Ok tt, w2)
            ∧ trace w2 = trace w ++ CSleep 2 :: l1)
    as (w2 & l1 & -> & Hl1).
  { destruct (buffer_of (proc w) lecture_id) as [|f fs] eqn:Hbuffer.
    - exists w1, []. done.
    - pose proof (synthesize_notes_returns lecture_id ws w1) as Hret.
      destruct (synthesize_notes_trace E lecture_id ws w1) as [rest Hrest].
      { cbn [proc w1]. by rewrite Hbuffer. }
      destruct (synthesize_notes E lecture_id ws w1) as [r w2].
      cbn [fst snd] in *. subst r. exists w2. eexists. split; [done|].
      rewrite Hrest. cbn [trace w1]. by rewrite <- app_assoc. }
  pose proof (final_synthesis_returns lecture_id ws w2) as Hret.
  destruct (final_synthesis_trace E lecture_id ws w2) as [l2 Hl2].
  destruct (final_synthesis E lecture_id ws w2) as [r w3].
  cbn [fst snd] in *. subst r. mred. rewrite pushes_accepted.
  exists (l1 ++ l2). rewrite Hl2, Hl1. by rewrite <- !app_assoc.
Qed.

(** X6: the stop signal is always answered.  While the websocket takes the
    pushes and the task is not cancelled, the handling of [stop_recording]
    returns normally; the first thing it does is to wait 2 seconds and the
    last is to push [recording_stopped], whether the last round and the
    final synthesis succeed or fail. *)
Theorem stop_recording_always_answers lecture_id ws w :
  asyncio_sleep E (trace w) 2 = Ok tt →
  fst (handle_message E lecture_id ws (Some "stop_recording") w) = Ok tt
  ∧ last (emitted (handle_message E lecture_id ws (Some "stop_recording")) w)
    = Some (CSend ws (MRecordingStopped "Recording stopped"))
  ∧ head (emitted (handle_message E lecture_id ws (Some "stop_recording")) w)
    = Some (CSleep 2).
Proof.
  intros Hsleep. unfold emitted.
  destruct (stop_recording_returns lecture_id ws w Hsleep) as [l ->].
  cbn [fst snd trace]. rewrite drop_app_length.
  split; [done|]. split; [|done].
  by rewrite app_comm_cons, last_snoc.
Qed.

Hypothesis services_return : enrichment_available E.

(** Resolves the next answer of the loop body. *)
Ltac pass :=
  match goal with
  | |- context [send_json E ?h ?ws ?m] => rewrite (pushes_accepted h ws m)
  | |- context [query_documents E ?h ?a ?b ?c] =>
      destruct (retrieval_available E services_return h a b c) as [? ->]
  | |- context [generate_raw_notes E ?h ?a ?b ?c ?d] =>
      destruct (generation_available E services_return h a b c d) as [? ->]
  | |- context [score_importance E ?h ?a ?b] =>
      destruct (scoring_available E services_return h a b) as [? ->]
  | |- context [detect_topic_shift E ?h ?a ?b] =>
      destruct (detection_available E services_return h a b) as [? ->]
  | |- context [match save_transcription E ?h ?a ?b ?c ?d ?e ?f
                with _ => _ end] =>
      pose proof (save_uncancelled E no_cancellation h a b c d e f);
      destruct (save_transcription E h a b c d e f) as [[]|[?|]]; [| |done]
  | |- context [match transcribe_local E ?h ?p with _ => _ end] =>
      pose proof (transcribe_uncancelled E no_cancellation h p);
      destruct (transcribe_local E h p) as [?|[?|]]; [| |done]
  | |- context [match unlink E ?h ?p with _ => _ end] =>
      destruct (unlink E h p) as [[]|?]
  end; mred.

Lemma check_synthesis_returns lecture_id ws w :
  fst (check_synthesis E lecture_id ws w) = Ok tt.
Proof.
  rewrite check_synthesis_unfold. unfold should_synthesize. mred.
  repeat (mcase; try pass); try reflexivity.
  all: apply synthesize_notes_returns.
Qed.

Lemma process_chunk_returns lecture_id chunk_data w :
  fst (process_chunk E lecture_id chunk_data w) = Ok tt.
Proof.
  unfold process_chunk. mred. pass; [|reflexivity].
  destruct (str_truthy _); [|reflexivity].
  unfold process_transcription. mred. repeat pass.
  all: match goal with
       | |- context [check_synthesis E ?l ?ws ?w1] =>
           pose proof (check_synthesis_returns l ws w1) as Hcheck;
           destruct (check_synthesis E l ws w1) as [r w2];
           cbn [fst] in Hcheck; subst r
       end.
  all: mred; pass; reflexivity.
Qed.

(** X7: the failures the worker survives.  While retrieval, enrichment,
    scoring and topic-shift detection return, the websockets take the
    pushes and the task is not cancelled, the worker processes every queued
    chunk and goes back to waiting, whatever the transcription service, the
    two persistence sinks, the synthesis service and the removal of the
    audio file answer: every chunk of the queue gets its pass, in queue
    order and on the state the pass before it left, every pass returns,
    and the files handed to the transcription service are those of the
    queue, each once and in order. *)
Theorem worker_survives_failures lecture_id queue w :
  let run := process_lecture_audio E lecture_id queue w in
  fst run = Ok Waiting
  ∧ snd run
    = foldl (λ w1 chunk_data, snd (process_chunk E lecture_id chunk_data w1))
            w queue
  ∧ (∀ chunk_data w1, fst (process_chunk E lecture_id chunk_data w1) = Ok tt)
  ∧ transcribed_files (emitted (process_lecture_audio E lecture_id queue) w)
    = chunk_file_path <$> queue.
Proof.
  cbv zeta. split; [|split; [|split]].
  - revert w. induction queue as [|chunk_data queue IH]; intros w;
      cbn [process_lecture_audio]; [done|].
    pose proof (process_chunk_returns lecture_id chunk_data w) as Hpass.
    destruct (process_chunk E lecture_id chunk_data w) as [r w1].
    cbn [fst] in Hpass. subst r. apply IH.
  - revert w. induction queue as [|chunk_data queue IH]; intros w;
      cbn [process_lecture_audio foldl]; [done|].
    pose proof (process_chunk_returns lecture_id chunk_data w) as Hpass.
    destruct (process_chunk E lecture_id chunk_data w) as [r w1].
    cbn [fst snd] in *. subst r. apply IH.
  - intros chunk_data w1. apply process_chunk_returns.
  - unfold emitted.
    assert (∃ l,
              trace (snd (process_lecture_audio E lecture_id queue w))
              = trace w ++ l
              ∧ transcribed_files l = chunk_file_path <$> queue)
      as (l & -> & Hl).
    { revert w. induction queue as [|chunk_data queue IH]; intros w;
        cbn [process_lecture_audio].
      { exists []. by rewrite app_nil_r. }
      pose proof (process_chunk_returns lecture_id chunk_data w) as Hpass.
      destruct (process_chunk_transcribes E lecture_id chunk_data w)
        as (l1 & Hl1 & Hnone).
      destruct (process_chunk E lecture_id chunk_data w) as [r w1].
      cbn [fst snd] in *. subst r.
      destruct (IH w1) as (l2 & -> & Hl2).
      rewrite Hl1, <- app_assoc. eexists. split; [reflexivity|].
      rewrite fmap_cons, <- Hl2.
      change (CTranscribe (chunk_file_path chunk_data) :: l1)
        with ([CTranscribe (chunk_file_path chunk_data)] ++ l1).
      by rewrite !transcribed_files_app, Hnone. }
    by rewrite drop_app_length.
Qed.

End Contained.

Lemma failing_env_uncancelled : uncancelled failing_env.
Proof.
  split; intros; try discriminate.
  unfold not_cancelled. cbn. by case_decide.
Qed.

Lemma failing_env_available : enrichment_available failing_env.
Proof. split; intros; eexists; reflexivity. Qed.

(** A round and a final synthesis whose services and sinks all raise. *)
Lemma rounds_contain_failures_witness :
  let w := session_world ["A"; "B"; "C"] ["A+B+C"] in
  fst (synthesize_notes failing_env "L" 0 w) = Ok tt
  ∧ fst (final_synthesis failing_env "L" 0 w) = Ok tt
  ∧ pushed_types (emitted (synthesize_notes failing_env "L" 0) w)
    = ["synthesis_started"; "synthesis_error"]
  ∧ pushed_types (emitted (final_synthesis failing_env "L" 0) w)
    = ["final_synthesis_started"; "final_synthesis_error"].
Proof.
  cbv zeta.
  destruct (rounds_contain_failures failing_env failing_env_uncancelled
              (λ _ _ _, eq_refl) "L" 0
              (session_world ["A"; "B"; "C"] ["A+B+C"]))
    as [Hround Hfinal].
  split; [exact Hround|]. split; [exact Hfinal|]. split; by vm_compute.
Defined.

(** The stop signal in a session whose services and sinks all raise. *)
Lemma stop_recording_always_answers_witness :
  let w := session_world ["A"; "B"; "C"] ["A+B+C"] in
  fst (handle_message failing_env "L" 0 (Some "stop_recording") w) = Ok tt
  ∧ pushed_types
      (emitted (handle_message failing_env "L" 0 (Some "stop_recording")) w)
    = ["synthesis_started"; "synthesis_error"; "final_synthesis_started";
       "final_synthesis_error"; "recording_stopped"].
Proof.
  cbv zeta.
  destruct (stop_recording_always_answers failing_env failing_env_uncancelled
              (λ _ _ _, eq_refl) "L" 0
              (session_world ["A"; "B"; "C"] ["A+B+C"]) eq_refl)
    as (Hret & _ & _).
  split; [exact Hret|by vm_compute].
Defined.

(** Four chunks, the second of which cannot be transcribed, in a session
    whose sinks and synthesis service raise. *)
Lemma worker_survives_failures_witness :
  let queue := [segment "A"; segment "noise"; segment "B"; segment "C"] in
  let run := process_lecture_audio failing_env "L" queue fresh_world in
  fst run = Ok Waiting
  ∧ transcribed_files (trace (snd run)) = ["A"; "noise"; "B"; "C"]
  ∧ pushed_types (trace (snd run))
    = ["transcription"; "transcription"; "transcription";
       "synthesis_started"; "synthesis_error"]
  ∧ buffer_of (proc (snd run)) "L" = [heard "A"; heard "B"; heard "C"].
Proof.
  cbv zeta.
  destruct (worker_survives_failures failing_env failing_env_uncancelled
              (λ _ _ _, eq_refl) failing_env_available "L"
              [segment "A"; segment "noise"; segment "B"; segment "C"]
              fresh_world)
    as (Hwaiting & _ & _ & Hfiles).
  split; [exact Hwaiting|]. split; [exact Hfiles|]. split; by vm_compute.
Defined.

(** A worker of lecture "M" runs next to the state of lecture "L". *)
Lemma other_lectures_untouched_witness :
  let w := session_world ["A"; "B"] ["A+B"] in
  let run :=
    process_lecture_audio scenario_env "M"
      [segment "X"; segment "Y"; segment "Z"] w in
  buffer_of (proc (snd run)) "M" = [heard "Z"]
  ∧ entries (proc (snd run)) "L" = entries (proc w) "L".
Proof.
  cbv zeta. split; [by vm_compute|].
  apply (other_lectures_untouched scenario_env "M" "L"
           [segment "X"; segment "Y"; segment "Z"] 0 None
           (session_world ["A"; "B"] ["A+B"])).
  discriminate.
Defined.

(** ** Failures of one pass of the worker loop *)

(** X8: a chunk whose transcription raises is skipped: the [continue] of
    line 146 goes on with the next queued chunk, the processor is as it
    was, and nothing but the transcription was called; the audio file is
    not removed. *)
Theorem transcription_error_skipped E lecture_id chunk_data rest w msg :
  transcribe_local E (trace w) (chunk_file_path chunk_data)
  = Raise (Exception msg) →
  process_lecture_audio E lecture_id (chunk_data :: rest) w
  = process_lecture_audio E lecture_id rest
      {| proc := proc w;
         trace := trace w ++ [CTranscribe (chunk_file_path chunk_data)] |}.
Proof.
  intros Hfailed. cbn [process_lecture_audio]. unfold process_chunk. mred.
  by rewrite Hfailed.
Qed.

Lemma transcription_error_skipped_witness :
  process_lecture_audio failing_env "L" [segment "noise"; segment "A"]
                        fresh_world
  = process_lecture_audio failing_env "L" [segment "A"]
      {| proc := processor_init; trace := [CTranscribe "noise"] |}.
Proof.
  apply (transcription_error_skipped failing_env "L" (segment "noise")
           [segment "A"] fresh_world "no audio").
  reflexivity.
Defined.

Section FatalPass.

Variables (E : env) (lecture_id : string) (chunk_data : chunk).
Variables (rest : list chunk) (w : world).
Variables (transcription : transcription_result) (msg : string).

Let path := chunk_file_path chunk_data.
Let text := strip (default "" (tr_text transcription)).
Let transcription_data :=
  {| frag_text := text;
     frag_timestamp := chunk_timestamp chunk_data;
     frag_language := tr_language transcription;
     frag_duration := tr_duration transcription |}.

Hypothesis transcribed_text :
  transcribe_local E (trace w) path = Ok transcription.
Hypothesis spoken : text ≠ "".
Hypothesis retrieval_raises :
  query_documents E (trace w ++ [CTranscribe path]) text lecture_id 5
  = Raise (Exception msg).

(** X9: a retrieval failure in the loop body ends the worker.  The
    exception of line 164 is outside every inner [try]: the task logs it
    and returns, the chunks still queued are never looked at, and the
    fragment stays appended to the buffer although it was neither saved nor
    pushed. *)
Theorem retrieval_failure_ends_worker :
  process_lecture_audio E lecture_id (chunk_data :: rest) w
  = (Ok Faulted,
     {| proc := append_buffer lecture_id transcription_data (proc w);
        trace := trace w ++ [CTranscribe path; CQuery text lecture_id 5] |}).
Proof.
  cbn [process_lecture_audio]. unfold process_chunk. mred.
  fold path. rewrite transcribed_text. mred. fold text.
  destruct text as [|c s] eqn:Htext; [done|]. cbn [str_truthy].
  unfold process_transcription. mred. rewrite retrieval_raises.
  trace_norm. reflexivity.
Qed.

End FatalPass.

(** The first of two chunks meets a retrieval service that is down. *)
Lemma retrieval_failure_ends_worker_witness :
  let run :=
    process_lecture_audio outage_env "L" [segment "A"; segment "B"]
                          fresh_world in
  fst run = Ok Faulted
  ∧ trace (snd run) = [CTranscribe "A"; CQuery "A" "L" 5]
  ∧ buffer_of (proc (snd run)) "L" = [heard "A"].
Proof.
  cbv zeta.
  rewrite (retrieval_failure_ends_worker outage_env "L" (segment "A")
             [segment "B"] fresh_world (plain_transcription "A")
             "search unavailable" eq_refl).
  - split; [done|]. split; by vm_compute.
  - discriminate.
  - reflexivity.
Defined.

Section SavedFragment.

Variables (E : env) (others : interleaving) (lecture_id : string).
Variables (chunk_data : chunk) (transcription : transcription_result).
Variables (text : string) (w : world).
Variables (rag_context : list string) (enhanced_notes : string).
Variables (importance_result : option Q).

Let ws := chunk_websocket chunk_data.
Let transcription_data :=
  {| frag_text := text;
     frag_timestamp := chunk_timestamp chunk_data;
     frag_language := tr_language transcription;
     frag_duration := tr_duration transcription |}.
Let appended := buffer_of (proc w) lecture_id ++ [transcription_data].

Let query := CQuery text lecture_id 5.
Let enrich := CGenerateRawNotes text rag_context lecture_id [].
Let score := CScoreImportance text (tr_segments transcription).

(** The worker suspended at lines 164 and 167, with what the other
    coroutines call meanwhile and the processor they leave. *)
Let retrieving : world :=
  {| proc := append_buffer lecture_id transcription_data (proc w);
     trace := trace w ++ [query] |}.
Let o1 := emitted (during_retrieval others) retrieving.
Let p1 := proc (snd (during_retrieval others retrieving)).
Let enriching : world :=
  {| proc := p1; trace := trace w ++ query :: o1 ++ [enrich] |}.
Let o2 := emitted (during_enrichment others) enriching.
Let p2 := proc (snd (during_enrichment others enriching)).

(** The index that line 175 reads. *)
Let chunk_index := (Z.of_nat (length (buffer_of p2 lecture_id)) - 1)%Z.
Let save :=
  CSaveTranscription lecture_id chunk_index text enhanced_notes
                     (chunk_timestamp chunk_data)
                     (default (1 # 2)%Q importance_result).

(** The worker suspended at line 185. *)
Let saving : world :=
  {| proc := p2;
     trace := trace w ++ query :: o1 ++ enrich :: o2 ++ [score; save] |}.
Let o3 := emitted (during_save others) saving.
Let p3 := proc (snd (during_save others saving)).

(** The number that line 203 reads, and the push. *)
Let chunk_number := length (buffer_of p3 lecture_id).
Let push :=
  CSend ws (MTranscription text enhanced_notes (chunk_timestamp chunk_data)
                           chunk_number).

(** The worker suspended at line 198. *)
Let pushing : world :=
  {| proc := p3;
     trace :=
       trace w ++ query :: o1 ++ enrich :: o2 ++ score :: save :: o3 ++ [push] |}.
Let o4 := emitted (during_push others) pushing.

Hypothesis retrieval_returns :
  query_documents E (trace w) text lecture_id 5 = Ok rag_context.
Hypothesis enrichment_returns :
  generate_raw_notes E (trace w ++ query :: o1) text rag_context lecture_id []
  = Ok enhanced_notes.
Hypothesis scoring_returns :
  score_importance E (trace w ++ query :: o1 ++ enrich :: o2) text
                   (tr_segments transcription)
  = Ok importance_result.
Hypothesis save_not_cancelled :
  not_cancelled
    (save_transcription E (trace w ++ query :: o1 ++ enrich :: o2 ++ [score])
       lecture_id chunk_index text enhanced_notes (chunk_timestamp chunk_data)
       (default (1 # 2)%Q importance_result)).

(** X10: the transcription is pushed whether or not it could be saved.  A
    [save_transcription] that raises is logged and the pass goes on: the
    next call of the worker is the push, to the websocket the chunk came
    with, of a [transcription] message with the text, the enhanced notes,
    the timestamp of the chunk and, as [chunk_number], the length of the
    buffer that line 203 reads once the worker has resumed from the save.
    That number is the saved index plus one when the other coroutines leave
    the buffer as it is during the save, and the length of the buffer at
    the append when they do so during the three suspensions; a missing
    importance is saved as 0.5. *)
Theorem transcription_pushed_after_save :
  emitted (store_transcription E others lecture_id chunk_data transcription
                               text) w
  = query :: o1 ++ enrich :: o2 ++ score :: save :: o3 ++ push :: o4
  ∧ (leaves_buffer lecture_id (during_save others) →
     Z.of_nat chunk_number = (chunk_index + 1)%Z)
  ∧ (leaves_buffer lecture_id (during_retrieval others) →
     leaves_buffer lecture_id (during_enrichment others) →
     leaves_buffer lecture_id (during_save others) →
     chunk_number = length appended).
Proof.
  split; [|split].
  - unfold emitted at 1, store_transcription, await. mred.
    rewrite retrieval_returns. mred. fold transcription_data query retrieving.
    fold o1 p1. tn.
    rewrite enrichment_returns. mred. fold enrich. tn. fold enriching.
    fold o2 p2. tn.
    rewrite scoring_returns. mred. fold score chunk_index save. tn.
    fold saving o3 p3.
    destruct (save_transcription E _ _ _ _ _ _ _) as [[]|[msg|]]; [| |done];
      mred; tn.
    all: fold chunk_number ws push pushing o4.
    all: by rewrite drop_app_length.
  - intros Hsave. unfold chunk_number, chunk_index, p3.
    rewrite Hsave. cbn [proc saving]. lia.
  - intros Hfirst Hsecond Hsave. unfold chunk_number, p3.
    rewrite Hsave. cbn [proc saving]. unfold p2.
    rewrite Hsecond. cbn [proc enriching]. unfold p1.
    rewrite Hfirst. cbn [proc retrieving].
    unfold append_buffer. by rewrite buffer_of_set_buffer.
Qed.

End SavedFragment.

(** A fragment whose save raises, no other coroutine running; and the
    fragment "C", appended to "A" and "B", during whose save the connection
    handler handles [stop_recording]: it is saved with index 2 and pushed
    with number 1. *)
Lemma transcription_pushed_after_save_witness :
  emitted (store_transcription failing_env quiet "L" (segment "A")
             (plain_transcription "A") "A") fresh_world
  = [CQuery "A" "L" 5; CGenerateRawNotes "A" [] "L" [];
     CScoreImportance "A" [];
     CSaveTranscription "L" 0 "A" "A" 0 (1 # 2);
     CSend 0 (MTranscription "A" "A" 0 1)]
  ∧ (let calls :=
       emitted (store_transcription scenario_env
                  (stop_during_save scenario_env "L" 0) "L" (segment "C")
                  (plain_transcription "C") "C")
               (session_world ["A"; "B"] []) in
     saved_indices calls = [2%Z]
     ∧ last (pushed calls) = Some (MTranscription "C" "C" 0 1)).
Proof.
  split; [|by vm_compute].
  destruct (transcription_pushed_after_save failing_env quiet "L" (segment "A")
              (plain_transcription "A") "A" fresh_world [] "A" None
              eq_refl eq_refl eq_refl)
    as [-> _]; [discriminate|].
  by vm_compute.
Defined.

Section RefusedNotes.

Variables (E : env) (lecture_id : string) (ws : websocket) (w : world).
Variables (rag_context : list string) (structured_notes msg : string).

Let buffer := buffer_of (proc w) lecture_id.
Let transcriptions := slice_last 3 buffer.
Let combined_text := join " " (frag_text <$> transcriptions).
Let previous_notes := last (history_of (proc w) lecture_id).

Let query := CQuery combined_text lecture_id 5.
Let started := CSend ws (MSynthesisStarted "Generating structured notes...").
Let synthesis :=
  CSynthesize transcriptions rag_context lecture_id previous_notes.
Let saved :=
  CSaveStructuredNotes lecture_id structured_notes (length transcriptions).
Let sent_at := time_time E (trace w ++ [query; started; synthesis; saved]).
Let notes_message :=
  MStructuredNotes structured_notes (py_int (sent_at * 1000))
                   (length transcriptions).

(** The round succeeds up to the push of the notes, which raises. *)
Hypothesis buffer_nonempty : buffer ≠ [].
Hypothesis retrieval_returns :
  query_documents E (trace w) combined_text lecture_id 5 = Ok rag_context.
Hypothesis started_accepted :
  send_json E (trace w ++ [query]) ws
            (MSynthesisStarted "Generating structured notes...") = Ok tt.
Hypothesis synthesis_succeeds :
  synthesize_structured_notes E (trace w ++ [query; started]) transcriptions
                              rag_context lecture_id previous_notes
  = Ok (SynthSuccess structured_notes).
Hypothesis save_not_cancelled :
  not_cancelled
    (save_structured_notes E (trace w ++ [query; started; synthesis])
                           lecture_id structured_notes
                           (length transcriptions)).
Hypothesis notes_refused :
  send_json E (trace w ++ [query; started; synthesis; saved; CTime]) ws
            notes_message
  = Raise (Exception msg).

(** X11: a round whose notes cannot be pushed is half applied.  The note
    was appended to the history (line 288) and handed to the persistence
    sink before the push of line 302 raised, so it stays there, while the
    timestamp and the buffer, which are updated after the push, are what
    they were; the client is sent a [synthesis_error].  The next trigger
    therefore synthesizes the same fragments again. *)
Theorem refused_notes_half_applied :
  let round := synthesize_notes E lecture_id ws w in
  let w' := snd round in
  emitted (synthesize_notes E lecture_id ws) w
  = [query; started; synthesis; saved; CTime; CSend ws notes_message;
     CSend ws (MSynthesisError msg)]
  ∧ history_of (proc w') lecture_id
    = history_of (proc w) lecture_id ++ [structured_notes]
  ∧ buffer_of (proc w') lecture_id = buffer
  ∧ last_synthesis_of (proc w') lecture_id
    = last_synthesis_of (proc w) lecture_id.
Proof.
  cbv zeta. unfold emitted.
  rewrite (synthesize_notes_reaches_service E lecture_id ws w rag_context)
    by done.
  fold buffer transcriptions combined_text previous_notes query started.
  rewrite synthesis_succeeds. mred. trace_norm. fold synthesis saved.
  destruct (save_structured_notes _ _ _ _ _) as [[]|[failure|]];
    [| |done]; mred; trace_norm.
  all: fold sent_at notes_message; rewrite notes_refused; mred; trace_norm.
  all: cbn [snd proc trace]; rewrite drop_app_length.
  all: by rewrite history_of_append.
Qed.

End RefusedNotes.

(** A round on "A", "B", "C" whose websocket refuses the notes. *)
Lemma refused_notes_half_applied_witness :
  let w := session_world ["A"; "B"; "C"] [] in
  let w' := snd (synthesize_notes refusing_env "L" 0 w) in
  pushed_types (emitted (synthesize_notes refusing_env "L" 0) w)
  = ["synthesis_started"; "structured_notes"; "synthesis_error"]
  ∧ history_of (proc w') "L" = ["A+B+C"]
  ∧ buffer_of (proc w') "L" = [heard "A"; heard "B"; heard "C"]
  ∧ last_synthesis_of (proc w') "L" = 0%Q.
Proof.
  cbv zeta.
  assert (buffer_of (proc (session_world ["A"; "B"; "C"] [])) "L" ≠ [])
    as Hbuffer by discriminate.
  destruct (refused_notes_half_applied refusing_env "L" 0
              (session_world ["A"; "B"; "C"] []) [] "A+B+C"
              "connection closed" Hbuffer eq_refl eq_refl eq_refl)
    as (Hemitted & Hhistory & Hbuf & Hlast).
  - discriminate.
  - reflexivity.
  - rewrite Hemitted. split; [done|].
    split; [exact Hhistory|]. split; [exact Hbuf|exact Hlast].
Defined.

(** ** Where the calls of a lecture go *)

Lemma slice_last_length {A} (n : nat) (l : list A) :
  length (slice_last n l) ≤ n.
Proof. unfold slice_last. rewrite length_drop. lia. Qed.

Lemma well_addressed_mono lecture_id sockets sockets' c :
  sockets ⊆ sockets' →
  well_addressed lecture_id sockets c → well_addressed lecture_id sockets' c.
Proof. intros Hsub. destruct c; cbn; auto. Qed.

(** Closes a goal [trace w' = trace w ++ ?l ∧ Forall _ ?l] on explicit
    traces. *)
Ltac addressed :=
  trace_norm; rewrite ?app_nil_r;
  first [ exists []; split; [by rewrite ?app_nil_r|constructor]
        | eexists; split;
          [reflexivity
          |repeat (apply Forall_cons; split; [cbn; try done|]);
           try by apply Forall_nil] ].

Lemma synthesize_notes_addressed E lecture_id ws w :
  ∃ l, trace (snd (synthesize_notes E lecture_id ws w)) = trace w ++ l
       ∧ Forall (well_addressed lecture_id [ws]) l.
Proof.
  unfold synthesize_notes. mred.
  pose proof (slice_last_length 3 (buffer_of (proc w) lecture_id)) as Hwindow.
  destruct (slice_last 3 (buffer_of (proc w) lecture_id)) as [|f fs];
    mred; [addressed|].
  cbn [length] in Hwindow.
  repeat mcase; addressed.
  all: try apply list_elem_of_singleton; try done.
  all: cbn [length]; (split; [done|lia]).
Qed.

Lemma final_synthesis_addressed E lecture_id ws w :
  ∃ l, trace (snd (final_synthesis E lecture_id ws w)) = trace w ++ l
       ∧ Forall (well_addressed lecture_id [ws]) l.
Proof.
  unfold final_synthesis. mred.
  repeat mcase; addressed.
  all: by apply list_elem_of_singleton.
Qed.

Lemma check_synthesis_addressed E lecture_id ws w :
  ∃ l, trace (snd (check_synthesis E lecture_id ws w)) = trace w ++ l
       ∧ Forall (well_addressed lecture_id [ws]) l.
Proof.
  rewrite check_synthesis_unfold.
  destruct (should_synthesize_world E lecture_id w) as (tl & Htl & Hworld).
  assert (Forall (well_addressed lecture_id [ws]) (CTime :: tl)) as Hfirst.
  { destruct Htl as [->|(a & b & ->)]; repeat constructor. }
  destruct (should_synthesize E lecture_id w) as [[[]|] w1];
    cbn [snd] in *; subst w1; cbn [snd trace]; eauto.
  destruct (synthesize_notes_addressed E lecture_id ws
              {| proc := proc w; trace := trace w ++ CTime :: tl |})
    as (l & -> & Hl).
  cbn [trace]. rewrite <- app_assoc. eexists. split; [reflexivity|].
  by apply Forall_app.
Qed.

(** Extends an addressed trace by the trace of the next computation. *)
Lemma addressed_app lecture_id sockets (t t1 : list call) l1 l2 :
  t1 = t ++ l1 →
  Forall (well_addressed lecture_id sockets) l1 →
  Forall (well_addressed lecture_id sockets) l2 →
  ∃ l, t1 ++ l2 = t ++ l ∧ Forall (well_addressed lecture_id sockets) l.
Proof.
  intros -> H1 H2. exists (l1 ++ l2). rewrite app_assoc.
  split; [done|by apply Forall_app].
Qed.

Lemma process_chunk_addressed E lecture_id chunk_data w :
  ∃ l, trace (snd (process_chunk E lecture_id chunk_data w)) = trace w ++ l
       ∧ Forall (well_addressed lecture_id [chunk_websocket chunk_data]) l.
Proof.
  unfold process_chunk, process_transcription. mred.
  repeat mcase.
  all: try match goal with
           | H : check_synthesis ?E' ?l ?ws ?w1 = (_, ?w2) |- _ =>
               destruct (check_synthesis_addressed E' l ws w1)
                 as (tl & Htl & Hcheck);
               rewrite H in Htl; cbn [snd trace] in Htl
           end.
  all: cbn [snd trace]; rewrite ?Htl.
  all: addressed.
  all: try apply list_elem_of_singleton; try done.
  all: rewrite ?Forall_app; repeat split; try done.
  all: repeat constructor.
Qed.

Lemma process_lecture_audio_addressed E lecture_id queue w :
  ∃ l,
    trace (snd (process_lecture_audio E lecture_id queue w)) = trace w ++ l
    ∧ Forall (well_addressed lecture_id (chunk_websocket <$> queue)) l.
Proof.
  revert w. induction queue as [|chunk_data queue IH]; intros w;
    cbn [process_lecture_audio].
  { exists []. by rewrite app_nil_r. }
  destruct (process_chunk_addressed E lecture_id chunk_data w)
    as (l1 & Hl1 & Hpass).
  assert (Forall (well_addressed lecture_id
                    (chunk_websocket <$> chunk_data :: queue)) l1) as Hpass'.
  { eapply Forall_impl; [exact Hpass|]. intros c.
    apply well_addressed_mono. rewrite fmap_cons.
    intros x ->%list_elem_of_singleton. apply list_elem_of_here. }
  destruct (process_chunk E lecture_id chunk_data w) as [[[]|[msg|]] w1];
    cbn [snd] in *; eauto.
  destruct (IH w1) as (l2 & -> & Hrest).
  rewrite Hl1, <- app_assoc. eexists. split; [reflexivity|].
  apply Forall_app. split; [done|].
  eapply Forall_impl; [exact Hrest|]. intros c.
  apply well_addressed_mono. rewrite fmap_cons.
  intros x Hx. by apply list_elem_of_further.
Qed.

Lemma handle_message_addressed E lecture_id ws msg_type w :
  ∃ l, trace (snd (handle_message E lecture_id ws msg_type w)) = trace w ++ l
       ∧ Forall (well_addressed lecture_id [ws]) l.
Proof.
  assert (ws ∈ [ws]) as Hws by apply list_elem_of_here.
  unfold handle_message. repeat case_decide; mred.
  - addressed.
  - destruct (asyncio_sleep E (trace w) 2) as [[]|e]; mred; [|addressed].
    set (w1 := {| proc := proc w; trace := trace w ++ [CSleep 2] |}).
    assert (∃ r w2 l1,
              (if 0 <? length (buffer_of (proc w) lecture_id)
               then synthesize_notes E lecture_id ws
               else λ w, (Ok tt, w)) w1 = (r, w2)
              ∧ trace w2 = trace w ++ CSleep 2 :: l1
              ∧ Forall (well_addressed lecture_id [ws]) l1)
      as (r & w2 & l1 & -> & Hl1 & Hround).
    { destruct (0 <? _).
      - destruct (synthesize_notes_addressed E lecture_id ws w1)
          as (l1 & Hl1 & Hround).
        destruct (synthesize_notes E lecture_id ws w1) as [r w2].
        exists r, w2, l1. cbn [snd trace w1] in Hl1.
        by rewrite <- app_assoc in Hl1.
      - exists (Ok tt), w1, []. done. }
    destruct r as [[]|e]; cbn [snd].
    + destruct (final_synthesis_addressed E lecture_id ws w2)
        as (l2 & Hl2 & Hfinal).
      destruct (final_synthesis E lecture_id ws w2) as [[[]|e] w3];
        cbn [snd trace] in *; rewrite Hl2, Hl1; trace_norm.
      all: eexists; (split; [reflexivity|]).
      all: apply Forall_cons; (split; [done|]).
      all: rewrite ?Forall_app; repeat split; try done.
      by apply Forall_singleton.
    + rewrite Hl1. eexists. split; [reflexivity|]. by apply Forall_cons.
  - apply final_synthesis_addressed.
  - exists []. by rewrite app_nil_r.
Qed.

(** X12: every call made for a lecture is addressed to it.  The worker of a
    lecture names that lecture in every retrieval, enrichment, synthesis and
    persistence call, pushes only to websockets that came with the chunks
    it processed, and never hands the synthesis service more than three
    fragments, or none; the same holds of the message loop of a connection
    and its own websocket. *)
Theorem calls_well_addressed E lecture_id queue ws msg_type w :
  Forall (well_addressed lecture_id (chunk_websocket <$> queue))
         (emitted (process_lecture_audio E lecture_id queue) w)
  ∧ Forall (well_addressed lecture_id [ws])
           (emitted (handle_message E lecture_id ws msg_type) w).
Proof.
  unfold emitted. split.
  - destruct (process_lecture_audio_addressed E lecture_id queue w)
      as (l & -> & Hl).
    by rewrite drop_app_length.
  - destruct (handle_message_addressed E lecture_id ws msg_type w)
      as (l & -> & Hl).
    by rewrite drop_app_length.
Qed.

(** ** The order of transcription *)

(** X13: chunks are transcribed in queue order.  The worker hands the files
    of the queued chunks to the transcription service in the order of the
    queue, each file once: what it has transcribed is a prefix of the
    queue, the whole queue when it ends waiting for more, and never nothing
    when a chunk was queued. *)
Theorem chunks_transcribed_in_order E lecture_id queue w :
  let run := process_lecture_audio E lecture_id queue w in
  let files :=
    transcribed_files (emitted (process_lecture_audio E lecture_id queue) w) in
  files `prefix_of` (chunk_file_path <$> queue)
  ∧ (fst run = Ok Waiting → files = chunk_file_path <$> queue)
  ∧ (queue ≠ [] → files ≠ []).
Proof.
  cbv zeta. unfold emitted.
  assert (∃ l,
            trace (snd (process_lecture_audio E lecture_id queue w))
            = trace w ++ l
            ∧ transcribed_files l `prefix_of` (chunk_file_path <$> queue)
            ∧ (fst (process_lecture_audio E lecture_id queue w) = Ok Waiting →
               transcribed_files l = chunk_file_path <$> queue)
            ∧ (queue ≠ [] → transcribed_files l ≠ []))
    as (l & -> & Hgoal).
  { revert w. induction queue as [|chunk_data queue IH]; intros w;
      cbn [process_lecture_audio].
    { exists []. rewrite app_nil_r. by split_and!. }
    destruct (process_chunk_transcribes E lecture_id chunk_data w)
      as (l1 & Hl1 & Hpass).
    assert (transcribed_files (CTranscribe (chunk_file_path chunk_data) :: l1)
            = [chunk_file_path chunk_data]) as Hone.
    { unfold transcribed_files in *. cbn. by rewrite Hpass. }
    rewrite fmap_cons.
    destruct (process_chunk E lecture_id chunk_data w) as [[[]|[msg|]] w1];
      cbn [fst snd] in *.
    - destruct (IH w1) as (l2 & -> & Hprefix & Hall & _).
      rewrite Hl1, <- app_assoc. eexists. split; [reflexivity|].
      rewrite (transcribed_files_app (_ :: l1)), Hone. cbn [app].
      split_and!.
      + by apply prefix_cons.
      + intros Hend. by rewrite Hall.
      + done.
    - eexists. split; [exact Hl1|]. rewrite Hone. split_and!; try done.
      by eexists.
    - eexists. split; [exact Hl1|]. rewrite Hone. split_and!; try done.
      by eexists. }
  by rewrite drop_app_length.
Qed.

(** ** A disconnection leaves the worker at work *)

Section Drain.

Variables (lecture_id : string) (worker q : nat).

(** A running worker of the lecture takes all the items pending on the
    queue of the lecture, oldest first. *)
Lemma worker_drains pending s t :
  tasks s !! worker = Some t →
  task_status t = Running →
  task_lecture t = lecture_id →
  task_waits_on t = None ∨ task_waits_on t = Some q →
  audio_queues s !! lecture_id = Some q →
  queues s !! q = Some pending →
  let s' := run (replicate (length pending) (WorkerGets worker)) s in
  processed s' = processed s ++ ((λ item, (worker, item)) <$> pending)
  ∧ queues s' !! q = Some []
  ∧ live_worker s' lecture_id worker
  ∧ active_connections s' = active_connections s.
Proof.
  cbv zeta. revert s t.
  induction pending as [|item pending IH]; intros s t Ht Hrun Hl Hw Hq Hitems.
  { cbn. rewrite app_nil_r. split_and!; try done. by exists t. }
  cbn [length replicate].
  change (run (WorkerGets worker :: ?h) s)
    with (run h (queue_get worker s)).
  assert (queue_get worker s
          = with_tasks (alter (set_waits_on None) worker (tasks s))
              (with_processed (processed s ++ [(worker, item)])
                 (with_queues (<[q := pending]> (queues s)) s))) as ->.
  { unfold queue_get. rewrite Ht, Hrun.
    destruct Hw as [-> | ->].
    - unfold queue_of. rewrite Hl, Hq. by rewrite Hitems.
    - by rewrite Hitems. }
  edestruct (IH (with_tasks (alter (set_waits_on None) worker (tasks s))
                   (with_processed (processed s ++ [(worker, item)])
                      (with_queues (<[q := pending]> (queues s)) s))))
    as (Hprocessed & Hempty & Hlive & Hconn).
  - server_simpl. by rewrite list_lookup_alter_eq, Ht.
  - done.
  - done.
  - by left.
  - done.
  - server_simpl. apply list_lookup_insert_eq. by eapply lookup_lt_Some.
  - split_and!; try done.
    rewrite Hprocessed. server_simpl. by rewrite <- app_assoc.
Qed.

End Drain.

(** X14: a disconnection stops the uploads, not the worker.  Once the
    websocket of a lecture is unregistered, a chunk sent for the lecture is
    refused and the server stays as it is; the worker of the lecture is
    still running and, given the turns, takes every item pending on the
    queue, in the order the items were put there. *)
Theorem worker_outlives_connection s lecture_id worker q pending :
  consistent s →
  live_worker s lecture_id worker →
  audio_queues s !! lecture_id = Some q →
  queues s !! q = Some pending →
  let s1 := step (Disconnects lecture_id) s in
  let s2 := run (replicate (length pending) (WorkerGets worker)) s1 in
  step (SendsChunk lecture_id) s1 = s1
  ∧ live_worker s1 lecture_id worker
  ∧ processed s2 = processed s ++ ((λ item, (worker, item)) <$> pending)
  ∧ queues s2 !! q = Some []
  ∧ live_worker s2 lecture_id worker
  ∧ active_connections s2 !! lecture_id = None.
Proof.
  intros Hs (t & Ht & Hl & Hrun) Hq Hitems. cbv zeta. cbn [step].
  assert (task_waits_on t = None ∨ task_waits_on t = Some q) as Hw.
  { destruct (task_waits_on t) as [q'|] eqn:Hw; [|by left]. right.
    pose proof (waits_on_current s Hs worker t q' Ht Hrun Hw) as Hcur.
    rewrite Hl, Hq in Hcur. congruence. }
  destruct (worker_drains lecture_id worker q pending
              (disconnect lecture_id s) t Ht Hrun Hl Hw Hq Hitems)
    as (Hprocessed & Hempty & Hlive & Hconn).
  split_and!; try done.
  - unfold receive_audio_chunk. server_simpl. by rewrite lookup_delete_eq.
  - by exists t.
  - rewrite Hconn. server_simpl. by rewrite lookup_delete_eq.
Qed.

(** The busy server: the worker has taken item 0 and the items 1 and 2
    are pending when its client disconnects. *)
Lemma worker_outlives_connection_witness :
  let s1 := step (Disconnects "L") busy_server in
  let s2 := run [WorkerGets 0; WorkerGets 0] s1 in
  step (SendsChunk "L") s1 = s1
  ∧ processed s2 = [(0, 0); (0, 1); (0, 2)]
  ∧ queues s2 !! 0 = Some [].
Proof.
  cbv zeta.
  destruct (worker_outlives_connection busy_server "L" 0 0 [1; 2])
    as (Hrefused & _ & Hprocessed & Hempty & _).
  - apply reachable_consistent. by exists busy_history.
  - by eexists.
  - reflexivity.
  - reflexivity.
  - split; [exact Hrefused|]. split; [exact Hprocessed|exact Hempty].
Defined.

(** ** Work items are handed out once *)

Lemma accounted_same s s' :
  queues s' = queues s → processed s' = processed s →
  items_made s' = items_made s →
  accounted s → accounted s'.
Proof. unfold accounted, taken. by intros -> -> ->. Qed.

Lemma new_queue_accounted lecture_id s :
  accounted s → accounted (new_queue lecture_id s).
Proof.
  unfold accounted, taken. server_simpl. by rewrite concat_snoc_nil.
Qed.

Lemma queue_of_accounted lecture_id s :
  accounted s →
  accounted (snd (queue_of lecture_id s))
  ∧ tasks (snd (queue_of lecture_id s)) = tasks s.
Proof.
  unfold queue_of. destruct (audio_queues s !! lecture_id); [done|].
  intros Hs. split; [|done]. by apply new_queue_accounted.
Qed.

Lemma alter_out_of_range {A} (f : A → A) (l : list A) i :
  length l ≤ i → alter f i l = l.
Proof.
  revert i. induction l as [|x l IH]; intros i Hi; [done|].
  destruct i as [|i]; cbn in *; [lia|]. f_equal. apply IH. lia.
Qed.

Lemma process_audio_chunk_accounted lecture_id s :
  accounted s → accounted (process_audio_chunk lecture_id s).
Proof.
  intros Hs. unfold process_audio_chunk.
  destruct (queue_of_accounted lecture_id s Hs) as [[Hnodup Hknown] _].
  destruct (queue_of lecture_id s) as [q s1]. cbn [snd] in *.
  unfold accounted, taken in *. server_simpl.
  destruct (decide (q < length (queues s1))) as [Hq|Hq].
  - assert (concat (alter (λ items, items ++ [items_made s1]) q (queues s1))
              ++ (snd <$> processed s1)
            ≡ₚ items_made s1 :: (concat (queues s1) ++ (snd <$> processed s1)))
      as Hperm by (by rewrite concat_alter_snoc).
    rewrite Hperm. split.
    + apply NoDup_cons. split; [|done].
      intros Hin. rewrite Forall_forall in Hknown. apply Hknown in Hin. lia.
    + apply Forall_cons. split; [lia|].
      eapply Forall_impl; [exact Hknown|]. cbn. lia.
  - rewrite alter_out_of_range by lia. split; [done|].
    eapply Forall_impl; [exact Hknown|]. cbn. lia.
Qed.

Lemma queue_get_accounted worker s : accounted s → accounted (queue_get worker s).
Proof.
  intros Hs. unfold queue_get.
  destruct (tasks s !! worker) as [t|]; [|done].
  destruct (task_status t); try done.
  assert (∃ q s1,
            match task_waits_on t with
            | Some q => (q, s)
            | None => queue_of (task_lecture t) s
            end = (q, s1) ∧ accounted s1) as (q & s1 & -> & Hs1).
  { destruct (task_waits_on t) as [q|]; [by eauto|].
    destruct (queue_of_accounted (task_lecture t) s Hs) as [Hs1 _].
    destruct (queue_of (task_lecture t) s) as [q s1]. eauto. }
  destruct (queues s1 !! q) as [[|item rest]|] eqn:Hitems;
    try by (eapply accounted_same; [..|exact Hs1]).
  destruct Hs1 as [Hnodup Hknown]. unfold accounted, taken in *.
  server_simpl. rewrite fmap_app. cbn [fmap list_fmap snd].
  assert (concat (<[q := rest]> (queues s1)) ++ (snd <$> processed s1) ++ [item]
          ≡ₚ concat (queues s1) ++ (snd <$> processed s1)) as Hperm.
  { rewrite <- (concat_insert_tail (queues s1) q item rest Hitems).
    rewrite (Permutation_app_comm (snd <$> processed s1)). cbn.
    by rewrite <- Permutation_middle. }
  by rewrite Hperm.
Qed.

Lemma act_accounted a s : accounted s → accounted (act a s).
Proof.
  intros Hs.
  assert (∀ lecture_id s1, accounted s1 → accounted (create_task lecture_id s1))
    as Hcreate by (intros ? ? ?; by eapply accounted_same).
  assert (∀ lecture_id ws,
            accounted (snd (websocket_endpoint_begin lecture_id ws s)))
    as Hbegin.
  { intros lecture_id ws. unfold websocket_endpoint_begin.
    destruct (processing_tasks _ !! _); by eapply accounted_same. }
  assert (∀ lecture_id old s1,
            accounted s1 →
            accounted (websocket_endpoint_resume lecture_id old s1))
    as Hresume.
  { intros lecture_id old s1 Hs1. unfold websocket_endpoint_resume.
    apply Hcreate. destruct old; [|done]. by apply new_queue_accounted. }
  destruct a as [[lecture_id ws|lecture_id|lecture_id|worker|worker]
                |lecture_id ws|lecture_id old]; cbn [act step].
  - unfold websocket_endpoint.
    specialize (Hbegin lecture_id ws).
    destruct (websocket_endpoint_begin lecture_id ws s) as [old s1].
    by apply Hresume.
  - by eapply accounted_same.
  - unfold receive_audio_chunk.
    destruct (active_connections s !! lecture_id); [|done].
    by apply process_audio_chunk_accounted.
  - by apply queue_get_accounted.
  - by eapply accounted_same.
  - apply Hbegin.
  - by apply Hresume.
Qed.

Lemma perform_accounted actions s :
  accounted s → accounted (perform actions s).
Proof.
  revert s. induction actions as [|a actions IH]; intros s Hs; [done|].
  cbn. by apply IH, act_accounted.
Qed.

(** X15: a chunk is handed to a worker at most once.  Whatever the
    connections, handlers that overlap included, the uploads and the
    workers do, and in whatever order, no work item is taken twice, and an
    item that was taken is on no queue any more. *)
Theorem items_taken_once actions :
  let s := perform actions server_init in
  NoDup (taken s)
  ∧ ∀ q items item,
      queues s !! q = Some items → item ∈ items → item ∉ taken s.
Proof.
  cbv zeta.
  destruct (perform_accounted actions server_init) as [Hnodup _].
  { split; cbn; constructor. }
  apply NoDup_app in Hnodup as (_ & Hdisjoint & Htaken).
  split; [done|]. intros q items item Hq Hitem.
  apply Hdisjoint. by eapply elem_of_queue.
Qed.

(** ** One worker for a lecture *)

(** The first part of a connection handler starts no task. *)
Lemma begin_running lecture_id ws s w t' :
  tasks (snd (websocket_endpoint_begin lecture_id ws s)) !! w = Some t' →
  task_status t' = Running →
  tasks s !! w = Some t'.
Proof.
  unfold websocket_endpoint_begin.
  destruct (processing_tasks _ !! _) as [old|]; cbn [snd]; server_simpl;
    [|done].
  intros (t & Ht & [[<- ->]|[Hne ->]])%lookup_alter_Some Hrun; [|done].
  by apply cancel_not_running in Hrun.
Qed.

(** The second part starts a task of its own lecture only. *)
Lemma resume_running lecture_id old s w t' :
  tasks (websocket_endpoint_resume lecture_id old s) !! w = Some t' →
  tasks s !! w = Some t' ∨ task_lecture t' = lecture_id.
Proof.
  unfold websocket_endpoint_resume. server_simpl.
  assert (tasks match old with
                | Some _ => new_queue lecture_id s
                | None => s
                end = tasks s) as -> by by destruct old.
  intros [[Hw Ht']|[-> <-]]%lookup_snoc_Some; by eauto.
Qed.

Lemma sequential_settled actions pending s :
  sequential pending s actions → settled pending s →
  consistent (perform actions s).
Proof.
  revert pending s.
  induction actions as [|a actions IH]; intros pending s Hseq [Hs Hnone];
    [done|].
  cbn [perform foldl]. fold (perform actions (act a s)).
  assert (∀ e,
            (∀ l ws, e = Connects l ws → pending !! l = None) →
            settled pending (step e s)) as Hevent.
  { intros e Hquiet. split; [by apply step_consistent|].
    intros l old Hl. apply (no_worker_run l [e] s); [by eauto|].
    intros ws Hin%list_elem_of_singleton.
    by rewrite (Hquiet l ws) in Hl. }
  destruct a as [e|lecture_id ws|lecture_id old].
  - destruct e as [lecture_id ws|lecture_id|lecture_id|worker|worker];
      cbn [sequential] in Hseq.
    + destruct Hseq as [Hfree Hseq]. apply (IH pending); [done|].
      apply Hevent. by intros l ws' [= -> ->].
    + apply (IH pending); [done|]. by apply Hevent.
    + apply (IH pending); [done|]. by apply Hevent.
    + apply (IH pending); [done|]. by apply Hevent.
    + apply (IH pending); [done|]. by apply Hevent.
  - cbn [sequential] in Hseq. destruct Hseq as [Hfree Hseq].
    eapply IH; [exact Hseq|]. cbn [act].
    destruct (websocket_endpoint_begin_spec lecture_id ws s Hs)
      as [Hs1 Hnone1].
    split; [done|]. intros l old Hl.
    destruct (decide (lecture_id = l)) as [<-|Hne]; [done|].
    rewrite lookup_insert_ne in Hl by done.
    intros w t' Ht' Hrun.
    apply (Hnone l old Hl w t'); [|done]. by eapply begin_running.
  - cbn [sequential] in Hseq. destruct Hseq as [Hawaited Hseq].
    eapply IH; [exact Hseq|]. cbn [act]. split.
    + apply websocket_endpoint_resume_consistent; [done|by eauto].
    + intros l old' Hl.
      destruct (decide (lecture_id = l)) as [<-|Hne].
      { by rewrite lookup_delete_eq in Hl. }
      rewrite lookup_delete_ne in Hl by done.
      intros w t' Ht' Hrun Hlecture.
      destruct (resume_running lecture_id old s w t' Ht') as [Ht|Hown].
      * by apply (Hnone l old' Hl w t').
      * congruence.
Qed.

(** X16: a lecture never has two workers.  As long as the connection
    handlers of one lecture do not overlap, and whatever else happens while
    a handler awaits the task it cancelled, a lecture has at most one
    running worker, that worker is the registered one, and no two lectures
    are bound to the same queue. *)
Theorem one_worker_per_lecture actions :
  sequential ∅ server_init actions →
  let s := perform actions server_init in
  (∀ lecture_id w1 w2,
     live_worker s lecture_id w1 → live_worker s lecture_id w2 → w1 = w2)
  ∧ (∀ lecture_id worker,
       live_worker s lecture_id worker →
       processing_tasks s !! lecture_id = Some worker)
  ∧ (∀ l1 l2 q,
       audio_queues s !! l1 = Some q → audio_queues s !! l2 = Some q →
       l1 = l2).
Proof.
  intros Hseq. cbv zeta.
  assert (consistent (perform actions server_init)) as Hs.
  { eapply sequential_settled; [exact Hseq|].
    split; [apply consistent_init|]. intros l old Hl.
    by rewrite lookup_empty in Hl. }
  assert (∀ lecture_id worker,
            live_worker (perform actions server_init) lecture_id worker →
            processing_tasks (perform actions server_init) !! lecture_id
            = Some worker) as Hregistered.
  { intros lecture_id worker (t & Ht & <- & Hrun).
    by apply (running_registered _ Hs). }
  split_and!.
  - intros lecture_id w1 w2 H1%Hregistered H2%Hregistered. congruence.
  - done.
  - apply (queues_distinct _ Hs).
Qed.

(** The reconnection: task 0 is cancelled, task 1 is the worker. *)
Lemma one_worker_per_lecture_witness :
  let s := perform reconnection server_init in
  task_status <$> tasks s = [Cancelled; Running]
  ∧ processed s = [(0, 0); (1, 3)]
  ∧ ∀ w1 w2, live_worker s "L" w1 → live_worker s "L" w2 → w1 = w2.
Proof.
  cbv zeta. split; [by vm_compute|]. split; [by vm_compute|].
  destruct (one_worker_per_lecture reconnection) as (Hone & _).
  - cbn [reconnection sequential]. split_and!; by vm_compute.
  - apply Hone.
Defined.

(** ** A lecture whose worker has ended *)

(** One event that is not a connection for the lecture: its queue keeps
    its items, in order, and may get new ones at the end; the lecture stays
    bound to it and without a worker. *)
Lemma unserved_step e s lecture_id q pending :
  consistent s → no_worker s lecture_id →
  audio_queues s !! lecture_id = Some q →
  queues s !! q = Some pending →
  (∀ ws, e ≠ Connects lecture_id ws) →
  audio_queues (step e s) !! lecture_id = Some q
  ∧ ∃ more, queues (step e s) !! q = Some (pending ++ more).
Proof.
  intros Hs Hnone Hq Hitems Hquiet.
  pose proof (queues_exist s Hs _ _ Hq) as Hlt.
  assert (∃ more, queues s !! q = Some (pending ++ more)) as Hsame
    by (exists []; by rewrite app_nil_r).
  destruct e as [l ws|l|l|worker|worker]; cbn [step].
  - (* a connection for another lecture *)
    assert (l ≠ lecture_id) as Hl by (intros ->; by apply (Hquiet ws)).
    unfold websocket_endpoint, websocket_endpoint_begin,
      websocket_endpoint_resume.
    set (s1 := connect l ws s).
    destruct (processing_tasks s1 !! l) as [old|]; server_simpl.
    + rewrite lookup_insert_ne by done. split; [done|].
      exists []. rewrite app_nil_r. by rewrite lookup_app_l.
    + done.
  - done.
  - (* a chunk *)
    unfold receive_audio_chunk.
    destruct (active_connections s !! l); [|done].
    unfold process_audio_chunk.
    destruct (decide (l = lecture_id)) as [->|Hl].
    { unfold queue_of. rewrite Hq. server_simpl. split; [done|].
      exists [items_made s]. by rewrite list_lookup_alter_eq, Hitems. }
    destruct (queue_of_spec l s Hs)
      as (q1 & s1 & -> & Hs1 & Hq1 & _ & _ & _ & _ & _ & _ & _ & Hold
          & Hother & Hfresh).
    server_simpl. rewrite <- (Hother lecture_id) in Hq by done.
    split; [done|]. exists []. rewrite app_nil_r.
    rewrite list_lookup_alter_ne, (Hold q Hlt); [done|].
    intros ->. by pose proof (queues_distinct s1 Hs1 _ _ _ Hq1 Hq).
  - (* a worker of another lecture takes an item *)
    unfold queue_get.
    destruct (tasks s !! worker) as [t|] eqn:Ht; [|done].
    destruct (task_status t) eqn:Hrun; try done.
    pose proof (Hnone worker t Ht Hrun) as Hl.
    destruct (awaited_queue_spec worker t s Hs Ht Hrun)
      as (q1 & s1 & -> & Hs1 & Hq1 & _ & _ & Hold & Hother & _).
    rewrite <- (Hother lecture_id) in Hq by done.
    assert (q1 ≠ q) as Hne.
    { intros ->. by pose proof (queues_distinct s1 Hs1 _ _ _ Hq1 Hq). }
    destruct (queues s1 !! q1) as [[|item rest]|]; server_simpl;
      (split; [done|]); exists []; rewrite app_nil_r.
    + by rewrite (Hold q Hlt).
    + by rewrite list_lookup_insert_ne, (Hold q Hlt).
    + by rewrite (Hold q Hlt).
  - done.
Qed.

Lemma unserved_run history s lecture_id q pending :
  consistent s → no_worker s lecture_id →
  audio_queues s !! lecture_id = Some q →
  queues s !! q = Some pending →
  no_connection lecture_id history →
  audio_queues (run history s) !! lecture_id = Some q
  ∧ ∃ more, queues (run history s) !! q = Some (pending ++ more).
Proof.
  revert s pending.
  induction history as [|e history IH];
    intros s pending Hs Hnone Hq Hitems Hquiet.
  { split; [done|]. exists []. by rewrite app_nil_r. }
  change (run (e :: history) s) with (run history (step e s)).
  destruct (unserved_step e s lecture_id q pending Hs Hnone Hq Hitems)
    as (Hq' & more & Hitems').
  { intros ws ->. apply (Hquiet ws), list_elem_of_here. }
  destruct (IH (step e s) (pending ++ more)) as (Hq'' & more' & Hitems'').
  - by apply step_consistent.
  - apply (no_worker_run lecture_id [e] s); [done|].
    intros ws Hin%list_elem_of_singleton.
    apply (Hquiet ws). rewrite Hin. apply list_elem_of_here.
  - done.
  - done.
  - intros ws Hin. apply (Hquiet ws). by apply list_elem_of_further.
  - split; [done|]. exists (more ++ more'). by rewrite app_assoc.
Qed.

(** X17: chunks pile up behind a worker that has ended.  Once the worker of
    a lecture has ended and until a new connection for the lecture is
    opened, the items on the queue of the lecture stay there, in order,
    the chunks that keep arriving are put behind them, and no worker ever
    takes one of them. *)
Theorem ended_worker_leaves_queue s lecture_id q pending history :
  consistent s →
  no_worker s lecture_id →
  audio_queues s !! lecture_id = Some q →
  queues s !! q = Some pending →
  no_connection lecture_id history →
  let s' := run history s in
  audio_queues s' !! lecture_id = Some q
  ∧ (∃ more, queues s' !! q = Some (pending ++ more))
  ∧ ∀ item, item ∈ pending → item ∉ taken s'.
Proof.
  intros Hs Hnone Hq Hitems Hquiet. cbv zeta.
  destruct (unserved_run history s lecture_id q pending Hs Hnone Hq Hitems
              Hquiet) as (Hq' & more & Hitems').
  split; [done|]. split; [by exists more|].
  intros item Hitem Htaken.
  pose proof (items_distinct _ (run_consistent history s Hs)) as Hnodup.
  apply NoDup_app in Hnodup as (_ & Hdisjoint & _).
  apply (Hdisjoint item); [|done].
  eapply elem_of_queue; [exact Hitems'|]. apply elem_of_app. by left.
Qed.

(** The worker of the busy server faults; two more chunks arrive and the
    worker is given a turn. *)
Lemma ended_worker_leaves_queue_witness :
  let s := step (WorkerFaults 0) busy_server in
  let s' := run [SendsChunk "L"; SendsChunk "L"; WorkerGets 0] s in
  queues s' !! 0 = Some [1; 2; 3; 4]
  ∧ taken s' = [0]
  ∧ (1 ∉ taken s').
Proof.
  cbv zeta.
  destruct (ended_worker_leaves_queue (step (WorkerFaults 0) busy_server)
              "L" 0 [1; 2] [SendsChunk "L"; SendsChunk "L"; WorkerGets 0])
    as (_ & _ & Hnever).
  - apply step_consistent, reachable_consistent. by exists busy_history.
  - intros w t Ht Hrun.
    destruct w as [|w]; [|done]. by injection Ht as <-.
  - reflexivity.
  - reflexivity.
  - intros ws Hin. absent Hin.
  - split; [reflexivity|]. split; [reflexivity|].
    apply Hnever, list_elem_of_here.
Defined.

(** ** The HTTP endpoints *)

(** Unfolds the computations of the endpoints. *)
Ltac ared :=
  lazy beta iota zeta delta
    [mbind Api_bind mret Api_ret api_raise request api_try api_try_all
     api_gets api_modify api_result api_now];
  cbn [registered waiting calls fst snd].

(** *** [str.replace] *)

Lemma prefix_append (old s : string) : String.prefix old (old +:+ s) = true.
Proof.
  induction old as [|c old IH]; [by destruct s|].
  change (String c old +:+ s) with (String c (old +:+ s)).
  cbn [String.prefix].
  destruct (Ascii.ascii_dec c c); [exact IH|done].
Qed.

Lemma replace_from_skip old new (passed s : string) :
  replace_from old new (String.length passed) (passed +:+ s)
  = replace_from old new 0 s.
Proof.
  induction passed as [|c passed IH]; [done|].
  change (String c passed +:+ s) with (String c (passed +:+ s)).
  cbn [String.length replace_from]. exact IH.
Qed.

(** An occurrence at the start is removed. *)
Lemma replace_prefix (old s : string) :
  old ≠ "" → replace old "" (old +:+ s) = replace old "" s.
Proof.
  intros Hold. unfold replace. destruct old as [|c old]; [done|].
  change (String c old +:+ s) with (String c (old +:+ s)).
  cbn [replace_from].
  pose proof (prefix_append (String c old) s) as Hprefix.
  change (String c old +:+ s) with (String c (old +:+ s)) in Hprefix.
  rewrite Hprefix.
  replace (String.length (String c old) - 1) with (String.length old)
    by (cbn [String.length]; lia).
  change ("" +:+ ?x) with x.
  apply replace_from_skip.
Qed.

(** A string without an occurrence is left as it is. *)
Lemma replace_absent (old new s : string) :
  contains old s = false → replace old new s = s.
Proof.
  unfold replace. induction s as [|c s IH]; [done|].
  cbn [contains replace_from].
  intros [Hprefix Hrest]%orb_false_iff. rewrite Hprefix. f_equal. auto.
Qed.

(** *** [create_lecture_endpoint] *)

Section Lecture.

Variables (A : api) (data : gmap string json) (s : site).

(** The credential of the request. *)
Let authorization :=
  py_or (dict_get data "authorization") (dict_get data "token").

Lemma optional_user_returns :
  ∃ user_id,
    let l :=
      match authorization with
      | JString text =>
        if str_truthy text then [AVerifyToken (replace "Bearer " "" text)]
        else []
      | _ => []
      end in
    optional_user A data s
    = (Ok user_id,
       {| registered := registered s; waiting := waiting s;
          calls := calls s ++ l |})
    ∧ (user_id ≠ JNull →
       ∃ text user,
         authorization = JString text
         ∧ verify_token A (calls s) (replace "Bearer " "" text) = Ok user
         ∧ truthy user = true
         ∧ subscript user "user_id" = Some user_id).
Proof.
  unfold optional_user. fold authorization. ared.
  assert ((Ok JNull, s)
          = (Ok JNull : result json,
             {| registered := registered s; waiting := waiting s;
                calls := calls s ++ [] |})) as Hsame.
  { rewrite app_nil_r. by destruct s. }
  destruct authorization as [|b|x|text|items|fields] eqn:Hauth;
    cbn [truthy];
    try (exists JNull; split; [|done];
         match goal with
         | |- context [if ?c then _ else _] => by destruct c
         end).
  - by exists JNull.
  - destruct (str_truthy text); [|by exists JNull]. ared.
    destruct (verify_token A (calls s) (replace "Bearer " "" text))
      as [user|e] eqn:Hverify; ared; [|by exists JNull].
    destruct (truthy user) eqn:Huser; ared; [|by exists JNull].
    destruct (subscript user "user_id") as [user_id|] eqn:Hkey; ared;
      [|by exists JNull].
    exists user_id. split; [done|]. intros _. by exists text, user.
Qed.

(** The run of the endpoint: the optional verification, then the store,
    then, if the store raised, the clock. *)
Lemma create_lecture_endpoint_run :
  ∃ user_id l' outcome,
    let l :=
      match authorization with
      | JString text =>
        if str_truthy text then [AVerifyToken (replace "Bearer " "" text)]
        else []
      | _ => []
      end in
    let subject_id := dict_get data "subject_id" in
    let title := dict_get_default data "title" (JString "New Lecture") in
    let stored := create_lecture A (calls s ++ l) user_id subject_id title in
    create_lecture_endpoint A data s
    = (outcome,
       {| registered := registered s; waiting := waiting s;
          calls := calls s ++ l ++ ACreateLecture user_id subject_id title :: l'
       |})
    ∧ (user_id ≠ JNull →
       ∃ text user,
         authorization = JString text
         ∧ verify_token A (calls s) (replace "Bearer " "" text) = Ok user
         ∧ truthy user = true
         ∧ subscript user "user_id" = Some user_id)
    ∧ match stored with
      | Ok lecture_id =>
        l' = []
        ∧ outcome = Ok {| response_id := lecture_id;
                          response_title := title;
                          response_subject_id := subject_id;
                          response_user_id := user_id;
                          response_status := "created" |}
      | Raise (Exception _) =>
        l' = [AClock]
        ∧ outcome
          = Ok {| response_id :=
                    JString
                      ("lecture-"
                       +:+ decimal
                             (py_int
                                (api_time A
                                   (calls s ++ l
                                    ++ [ACreateLecture user_id subject_id
                                                       title]))));
                  response_title := title;
                  response_subject_id := subject_id;
                  response_user_id := user_id;
                  response_status := "created" |}
      | Raise CancelledError => l' = [] ∧ outcome = Raise CancelledError
      end.
Proof.
  unfold create_lecture_endpoint. ared.
  destruct optional_user_returns as (user_id & -> & Howner).
  ared. exists user_id.
  destruct (create_lecture A _ user_id _ _)
    as [lecture_id|[msg|]]; ared; rewrite <- ?app_assoc; cbn [app].
  - eexists [], _. split; [reflexivity|]. by split_and!.
  - eexists [AClock], _. split; [reflexivity|]. by split_and!.
  - by exists [], (Raise CancelledError).
Qed.

(** X18: a lecture is always created.  Unless the task is cancelled while
    the lecture is stored, the endpoint answers [created], with the title
    and the subject of the request, whatever the credential and the token
    service and whether or not the lecture could be stored: the id is the
    one the store returned or, when the store raised, [lecture-] followed by
    the clock reading in whole seconds.  The connections and the queues are
    not touched. *)
Theorem lecture_always_created :
  (∀ h user_id subject_id title,
     not_cancelled (create_lecture A h user_id subject_id title)) →
  ∃ r,
    fst (create_lecture_endpoint A data s) = Ok r
    ∧ response_status r = "created"
    ∧ response_title r
      = dict_get_default data "title" (JString "New Lecture")
    ∧ response_subject_id r = dict_get data "subject_id"
    ∧ ((∃ h,
          create_lecture A h (response_user_id r) (response_subject_id r)
                         (response_title r) = Ok (response_id r))
       ∨ (∃ h msg,
            create_lecture A h (response_user_id r) (response_subject_id r)
                           (response_title r) = Raise (Exception msg))
         ∧ ∃ h, response_id r
                = JString ("lecture-" +:+ decimal (py_int (api_time A h))))
    ∧ registered (snd (create_lecture_endpoint A data s)) = registered s
    ∧ waiting (snd (create_lecture_endpoint A data s)) = waiting s.
Proof.
  intros Hstore.
  destruct create_lecture_endpoint_run
    as (user_id & l' & outcome & -> & _ & Hstored).
  cbn [fst snd registered waiting].
  match type of Hstored with
  | match create_lecture A ?h ?u ?sid ?t with _ => _ end =>
      pose proof (Hstore h u sid t) as Hnot;
      destruct (create_lecture A h u sid t) as [lecture_id|[msg|]] eqn:Hcreate;
      [| |done]
  end.
  all: destruct Hstored as [-> ->]; eexists; (split; [reflexivity|]); cbn;
    split_and!; try done.
  - left. eexists. exact Hcreate.
  - right. split; [by eexists _, _|]. by eexists.
Qed.

(** X19: the owner of a lecture is a verified user.  The [user_id] of the
    answer is null unless the request carries a credential that is a
    string ([authorization], or [token] when [authorization] is missing or
    false), the token service, given that string without its occurrences of
    ["Bearer "], returned a user, and that user has a [user_id], which is
    the one answered.  The token service is called once, with that string,
    when the credential is a non-empty string, and not at all otherwise. *)
Theorem lecture_owner_verified r :
  fst (create_lecture_endpoint A data s) = Ok r →
  (response_user_id r ≠ JNull →
   ∃ text user,
     authorization = JString text
     ∧ verify_token A (calls s) (replace "Bearer " "" text) = Ok user
     ∧ truthy user = true
     ∧ subscript user "user_id" = Some (response_user_id r))
  ∧ verified_tokens (requested (create_lecture_endpoint A data) s)
    = match authorization with
      | JString text =>
        if str_truthy text then [replace "Bearer " "" text] else []
      | _ => []
      end.
Proof.
  unfold requested.
  destruct create_lecture_endpoint_run
    as (user_id & l' & outcome & -> & Howner & Hstored).
  cbn [fst snd calls]. rewrite drop_app_length. intros ->.
  assert (response_user_id r = user_id ∧ verified_tokens l' = [])
    as [-> Hl'].
  { destruct (create_lecture A _ user_id _ _)
      as [lecture_id|[msg|]]; destruct Hstored as [-> Hr]; try done;
      by injection Hr as ->. }
  split; [exact Howner|].
  unfold verified_tokens in *. rewrite omap_app. cbn. rewrite Hl'.
  rewrite app_nil_r.
  destruct authorization as [|b|x|text|items|fields]; try done.
  by destruct (str_truthy text).
Qed.

End Lecture.

(** X20: the token service sees the bare token.  An [authorization] entry
    made of ["Bearer "] and a token that does not contain ["Bearer "] makes
    the verification of that token the first call of the endpoint; the
    [token] entry is not looked at. *)
Theorem bearer_scheme_removed A data s token :
  dict_get data "authorization" = JString ("Bearer " +:+ token) →
  contains "Bearer " token = false →
  head (requested (create_lecture_endpoint A data) s)
  = Some (AVerifyToken token).
Proof.
  intros Hauth Hbare.
  assert (replace "Bearer " "" ("Bearer " +:+ token) = token) as Htoken.
  { rewrite replace_prefix by done. by apply replace_absent. }
  assert (py_or (dict_get data "authorization") (dict_get data "token")
          = JString ("Bearer " +:+ token)) as Hchosen.
  { unfold py_or. by rewrite Hauth. }
  unfold requested.
  destruct (create_lecture_endpoint_run A data s)
    as (user_id & l' & outcome & -> & _).
  cbn [snd calls]. rewrite drop_app_length, Hchosen.
  change (str_truthy ("Bearer " +:+ token)) with true. cbn iota.
  by rewrite Htoken.
Qed.

(** A request with an unknown token while the lecture store is down. *)
Lemma lecture_always_created_witness :
  let data : gmap string json :=
    {[ "title" := JString "Graphs"; "token" := JString "Bearer stale" ]} in
  fst (create_lecture_endpoint sample_api data empty_site)
  = Ok {| response_id := JString "lecture-12";
          response_title := JString "Graphs";
          response_subject_id := JNull;
          response_user_id := JNull;
          response_status := "created" |}.
Proof.
  cbv zeta.
  destruct (lecture_always_created sample_api
              {[ "title" := JString "Graphs";
                 "token" := JString "Bearer stale" ]} empty_site)
    as (r & Hr & _).
  - intros; discriminate.
  - by vm_compute.
Defined.

(** A request with the token of user "u1". *)
Lemma lecture_owner_verified_witness :
  let data : gmap string json := {[ "token" := JString "Bearer t0k3n" ]} in
  ∃ r,
    fst (create_lecture_endpoint sample_api data empty_site) = Ok r
    ∧ response_user_id r = JString "u1"
    ∧ verify_token sample_api [] "t0k3n"
      = Ok (JObject {[ "user_id" := JString "u1" ]}).
Proof.
  cbv zeta. eexists. split; [by vm_compute|]. split; [reflexivity|].
  edestruct (lecture_owner_verified sample_api
               {[ "token" := JString "Bearer t0k3n" ]} empty_site)
    as [Howner _]; [by vm_compute|].
  destruct Howner as (text & user & Htext & Hverify & _ & _);
    [discriminate|].
  injection Htext as <-. by vm_compute.
Defined.

Lemma bearer_scheme_removed_witness :
  let data : gmap string json :=
    {[ "authorization" := JString "Bearer t0k3n";
       "token" := JString "other" ]} in
  head (requested (create_lecture_endpoint sample_api data) empty_site)
  = Some (AVerifyToken "t0k3n").
Proof.
  cbv zeta.
  apply (bearer_scheme_removed sample_api
           {[ "authorization" := JString "Bearer t0k3n";
              "token" := JString "other" ]} empty_site "t0k3n").
  - by vm_compute.
  - reflexivity.
Defined.

(** *** [upload_documents] *)

Section Upload.

Variables (A : api) (lecture_id upload_dir : string).

(** One turn of the loop: the document is handed to processing at most
    once, last, and a report carries the name of its file. *)
Lemma process_upload_run file s :
  ∃ outcome l,
    process_upload A lecture_id upload_dir file s
    = (outcome,
       {| registered := registered s; waiting := waiting s;
          calls := calls s ++ l |})
    ∧ match outcome with
      | Ok report =>
        report_filename report = upload_filename file
        ∧ processed_documents l = [upload_filename file]
      | Raise _ =>
        processed_documents l = []
        ∨ processed_documents l = [upload_filename file]
      end.
Proof.
  unfold process_upload. ared.
  destruct (open_wb A _ _) as [[]|e]; ared;
    [|eexists _, _; split; [reflexivity|by left]].
  destruct (upload_read file) as [content|e]; ared;
    [|rewrite <- ?app_assoc; eexists _, _; split; [reflexivity|by left]].
  destruct (write A _ _ _) as [[]|e]; ared;
    [|rewrite <- ?app_assoc; eexists _, _; split; [reflexivity|by left]].
  destruct (process_document A _ _ _ _) as [result|e]; ared;
    rewrite <- ?app_assoc; eexists _, _; (split; [reflexivity|]).
  - by split.
  - by right.
Qed.

Lemma process_uploads_run files processed_files s :
  ∃ outcome l,
    process_uploads A lecture_id upload_dir files processed_files s
    = (outcome,
       {| registered := registered s; waiting := waiting s;
          calls := calls s ++ l |})
    ∧ processed_documents l `prefix_of` (upload_filename <$> files)
    ∧ ∀ reports,
        outcome = Ok reports →
        ∃ new,
          reports = processed_files ++ new
          ∧ report_filename <$> new = upload_filename <$> files
          ∧ processed_documents l = upload_filename <$> files.
Proof.
  revert processed_files s.
  induction files as [|file files IH]; intros processed_files s;
    cbn [process_uploads]; ared.
  { exists (Ok processed_files), []. rewrite app_nil_r.
    split; [by destruct s|]. split; [done|].
    intros reports [= <-]. exists []. by rewrite app_nil_r. }
  destruct (process_upload_run file s) as (outcome & l1 & -> & Hturn).
  rewrite fmap_cons.
  destruct outcome as [report|e].
  - destruct Hturn as [Hname Hdoc].
    destruct (IH (processed_files ++ [report])
                 {| registered := registered s; waiting := waiting s;
                    calls := calls s ++ l1 |})
      as (outcome & l2 & -> & Hprefix & Hreports).
    cbn [registered waiting calls]. rewrite <- app_assoc.
    eexists _, _. split; [reflexivity|].
    unfold processed_documents in *. rewrite omap_app, Hdoc. cbn [app].
    split; [by apply prefix_cons|].
    intros reports Hok. destruct (Hreports reports Hok) as (new & -> & Hnew & ->).
    exists (report :: new). rewrite <- app_assoc. cbn. by rewrite Hname, Hnew.
  - eexists _, _. split; [reflexivity|]. split; [|done].
    destruct Hturn as [-> | ->]; [apply prefix_nil|].
    by eexists.
Qed.

End Upload.

(** X21: an upload reports every file, or none.  The documents are handed
    to processing in the order of the request, each once: those processed
    are a prefix of the files of the request.  An answer that lists files
    lists the names of all the files of the request, in order, with their
    number, every one of them having been processed; an answer that is an
    error names the lecture and lists no file, whatever was processed
    before the failure.  The connections and the queues are not touched. *)
Theorem upload_reports_every_file A lecture_id files s :
  let run := upload_documents A lecture_id files s in
  let documents :=
    processed_documents (requested (upload_documents A lecture_id files) s) in
  documents `prefix_of` (upload_filename <$> files)
  ∧ (∀ message lid reports total,
       fst run = Ok (Uploaded message lid reports total) →
       report_filename <$> reports = upload_filename <$> files
       ∧ total = length files
       ∧ lid = lecture_id
       ∧ message = "Documents uploaded and processed successfully"
       ∧ documents = upload_filename <$> files)
  ∧ (∀ error lid, fst run = Ok (UploadFailed error lid) → lid = lecture_id)
  ∧ registered (snd run) = registered s
  ∧ waiting (snd run) = waiting s.
Proof.
  cbv zeta. unfold requested, upload_documents. ared.
  destruct (mkdir A (calls s) _) as [[]|[msg|]]; ared;
    cbn [fst snd calls registered waiting]; rewrite ?drop_app_length.
  - match goal with
    | |- context [process_uploads A ?l ?d ?fs ?acc ?s1] =>
        destruct (process_uploads_run A l d fs acc s1)
          as (outcome & l2 & -> & Hprefix & Hreports)
    end.
    cbn [registered waiting calls] in *.
    assert (processed_documents (AMkdir (joinpath A "storage/uploads" lecture_id)
                                 :: l2)
            = processed_documents l2) as Hsame by done.
    destruct outcome as [reports|[msg|]]; ared;
      cbn [fst snd calls registered waiting];
      rewrite <- ?app_assoc, drop_app_length; cbn [app]; rewrite Hsame.
    + split; [done|]. split; [|by split_and!].
      intros message lid reports' total [= <- <- <- <-].
      destruct (Hreports reports eq_refl) as (new & -> & Hnew & Hall).
      by split_and!.
    + split; [done|]. split; [done|]. split; [|done].
      by intros error lid [= _ <-].
    + by split_and!.
  - split; [apply prefix_nil|]. split; [done|]. split; [|done].
    by intros error lid [= _ <-].
  - split; [apply prefix_nil|]. by split_and!.
Qed.

(** X22: an upload never fails loudly.  Unless the task is cancelled, the
    endpoint returns an answer whatever the file system, the uploaded files
    and document processing do: no exception of theirs reaches the
    caller. *)
Theorem upload_never_raises A lecture_id files s :
  upload_uncancelled A files →
  ∃ response, fst (upload_documents A lecture_id files s) = Ok response.
Proof.
  intros [Hmkdir Hopen Hread Hwrite Hprocess].
  assert (∀ upload_dir files' acc s1,
            files' ⊆ files →
            fst (process_uploads A lecture_id upload_dir files' acc s1)
            ≠ Raise CancelledError) as Hloop.
  { intros upload_dir files'. induction files' as [|file files' IH];
      intros acc s1 Hsub; cbn [process_uploads]; ared; [done|].
    unfold process_upload. ared.
    pose proof (Hopen (calls s1)
                  (joinpath A upload_dir (upload_filename file))) as H1.
    destruct (open_wb A _ _) as [[]|e]; ared; [|intros [= ->]; exact (H1 eq_refl)].
    pose proof (Hread file (Hsub file (list_elem_of_here _ _))) as H2.
    destruct (upload_read file) as [content|e]; ared; [|intros [= ->]; exact (H2 eq_refl)].
    match goal with
    | |- context [write A ?h ?p ?c] => pose proof (Hwrite h p c) as H3
    end.
    destruct (write A _ _ _) as [[]|e]; ared; [|intros [= ->]; exact (H3 eq_refl)].
    match goal with
    | |- context [process_document A ?h ?p ?l ?f] =>
        pose proof (Hprocess h p l f) as H4
    end.
    destruct (process_document A _ _ _ _) as [result|e]; ared; [|intros [= ->]; exact (H4 eq_refl)].
    apply IH. intros x Hx. apply Hsub. by apply list_elem_of_further. }
  unfold upload_documents. ared.
  pose proof (Hmkdir (calls s) (joinpath A "storage/uploads" lecture_id)) as H0.
  destruct (mkdir A _ _) as [[]|[msg|]]; ared; [|by eexists|done].
  match goal with
  | |- context [process_uploads A ?l ?d ?fs ?acc ?s1] =>
      pose proof (Hloop d fs acc s1 (reflexivity _)) as Hnot;
      destruct (process_uploads A l d fs acc s1) as [[reports|[msg|]] s2]
  end; cbn [fst] in *; try done; by eexists.
Qed.

(** Three documents, the second of which cannot be opened. *)
Lemma upload_never_raises_witness :
  let files := [document "a.pdf"; document "locked.pdf"; document "b.pdf"] in
  fst (upload_documents sample_api "L" files empty_site)
  = Ok (UploadFailed "permission denied" "L")
  ∧ processed_documents
      (requested (upload_documents sample_api "L" files) empty_site)
    = ["a.pdf"].
Proof.
  cbv zeta.
  destruct (upload_never_raises sample_api "L"
              [document "a.pdf"; document "locked.pdf"; document "b.pdf"]
              empty_site)
    as [response Hresponse].
  - split.
    + intros; discriminate.
    + intros h path. unfold not_cancelled. cbn. by case_decide.
    + intros file Hin.
      repeat (apply elem_of_cons in Hin as [->|Hin]; [discriminate|]).
      by apply elem_of_nil in Hin.
    + intros; discriminate.
    + intros h path lid filename. unfold not_cancelled. cbn. by case_decide.
  - split; by vm_compute.
Defined.

(** *** [receive_audio_chunk] and [process_audio_chunk] *)

Lemma waiting_of_put lecture_id item s :
  waiting_of (put lecture_id item s) lecture_id
  = waiting_of s lecture_id ++ [item].
Proof. unfold waiting_of at 1, put. cbn. by rewrite lookup_insert_eq. Qed.

(** The product of line 90 is rounded before it is truncated.  At the
    reading 1700000000.001 the clock gives the float 7130316800004194 / 2^22,
    which is below it; the exact product of that float with 1000 is below
    1700000000001, the float product is 1700000000001. *)
Lemma milliseconds_rounds :
  float_of_Q (1700000000001 # 1000)
  = SpecFloat.S754_finite false 7130316800004194 (-22)
  ∧ py_int ((7130316800004194 # 4194304) * 1000) = 1700000000000%Z
  ∧ milliseconds (1700000000001 # 1000) = Ok 1700000000001%Z
  ∧ milliseconds (25 # 2) = Ok 12500%Z.
Proof. split_and!; by vm_compute. Qed.

(** A chunk of the connected lecture "L", received at 12.5 seconds. *)
Lemma chunk_queued_sample :
  let s := {| registered := {[ "L" := 7 ]}; waiting := ∅; calls := [] |} in
  let run :=
    Http.receive_audio_chunk sample_api "L"
      {| upload_filename := "blob"; upload_read := Ok "RIFF" |} s in
  fst run = Ok (Queued 4 1)
  ∧ waiting_of (snd run) "L"
    = [{| chunk_file_path := "/tmp/eduscribe_audio/chunk_L_12500.wav";
          chunk_timestamp := 12500;
          chunk_websocket := 7 |}].
Proof. split; by vm_compute. Qed.

(** X23: a chunk is queued exactly when the answer says so.  The answer
    [queued] means that one item was put at the end of the queue of the
    lecture, with the websocket registered for the lecture at that moment,
    the timestamp [int(time.time() * 1000)], computed on floats, and the
    path of the stored file, which is named after the lecture and that
    timestamp; the answer gives the size of the content and the length of
    the queue with this item.  Any other answer, and a cancellation, leave
    the queue as it was.  The websockets, and the queues of the other
    lectures, are never touched, and no exception other than the
    cancellation reaches the caller. *)
Theorem chunk_queued_or_refused A lecture_id audio_file s :
  let run := Http.receive_audio_chunk A lecture_id audio_file s in
  let s' := snd run in
  registered s' = registered s
  ∧ (∀ other, other ≠ lecture_id → waiting s' !! other = waiting s !! other)
  ∧ (registered s !! lecture_id = None →
     run
     = (Ok (ChunkRefused "No active WebSocket connection for this lecture"),
        s))
  ∧ match fst run with
    | Ok (Queued size queue_size) =>
      ∃ ws content item,
        registered s !! lecture_id = Some ws
        ∧ upload_read audio_file = Ok content
        ∧ size = String.length content
        ∧ queue_size = S (length (waiting_of s lecture_id))
        ∧ waiting_of s' lecture_id = waiting_of s lecture_id ++ [item]
        ∧ chunk_websocket item = ws
        ∧ milliseconds (api_time A (calls s)) = Ok (chunk_timestamp item)
        ∧ chunk_file_path item
          = joinpath A (temp_dir A)
              ("chunk_" +:+ lecture_id +:+ "_"
               +:+ decimal (chunk_timestamp item) +:+ ".wav")
        ∧ AWrite (chunk_file_path item) content ∈ calls s'
    | Ok (ChunkRefused _) => waiting s' = waiting s
    | Raise e => e = CancelledError ∧ waiting s' = waiting s
    end.
Proof.
  cbv zeta. unfold Http.receive_audio_chunk.
  destruct (registered s !! lecture_id) as [ws|] eqn:Hws;
    [|by split_and!].
  unfold Http.process_audio_chunk. ared.
  destruct (milliseconds (api_time A (calls s))) as [timestamp|[msg|]]
    eqn:Hmillis; ared; [|by split_and!..].
  destruct (open_wb A _ _) as [[]|[msg|]]; ared; [|by split_and!..].
  destruct (upload_read audio_file) as [content|[msg|]] eqn:Hread; ared;
    [|by split_and!..].
  destruct (write A _ _ _) as [[]|[msg|]]; ared; [|by split_and!..].
  assert (∀ l, waiting_of {| registered := registered s; waiting := waiting s;
                             calls := l |} lecture_id
               = waiting_of s lecture_id) as Hsame by done.
  split; [done|]. split; [|split; [done|]].
  - intros other Hother. cbn. by rewrite lookup_insert_ne.
  - eexists ws, content, _. split_and!.
    + done.
    + done.
    + done.
    + rewrite waiting_of_put, Hsame, length_app. cbn. lia.
    + by rewrite waiting_of_put, Hsame.
    + done.
    + done.
    + done.
    + cbn [put calls chunk_file_path].
      apply elem_of_app. right. apply list_elem_of_here.
Qed.

Lemma process_upload_report A lecture_id upload_dir file s report :
  fst (process_upload A lecture_id upload_dir file s) = Ok report →
  reports_processing A lecture_id report.
Proof.
  unfold process_upload. ared.
  destruct (open_wb A _ _) as [[]|e]; ared; [|done].
  destruct (upload_read file) as [content|e]; ared; [|done].
  destruct (write A _ _ _) as [[]|e]; ared; [|done].
  destruct (process_document A _ _ _ _) as [result|e] eqn:Hresult; ared;
    [|done].
  intros [= <-]. by eexists _, _, result.
Qed.

Lemma process_uploads_report A lecture_id upload_dir files processed_files s
    reports :
  Forall (reports_processing A lecture_id) processed_files →
  fst (process_uploads A lecture_id upload_dir files processed_files s)
  = Ok reports →
  Forall (reports_processing A lecture_id) reports.
Proof.
  revert processed_files s.
  induction files as [|file files IH]; intros processed_files s Hbefore;
    cbn [process_uploads]; ared.
  { by intros [= <-]. }
  pose proof (process_upload_report A lecture_id upload_dir file s) as Hturn.
  destruct (process_upload A lecture_id upload_dir file s) as [[report|e] s1];
    cbn [fst] in *; [|done].
  apply IH. apply Forall_app. split; [done|].
  apply Forall_singleton. by apply Hturn.
Qed.

(** X24: a failed document does not fail the upload.  In an answer that
    lists files, the status of a file is [success] exactly when document
    processing returned, for that file, a result whose [success] entry is
    true, and [failed] otherwise; the document id is the one of that result
    and a missing chunk count is reported as 0.  The message of the answer
    says that the documents were processed successfully either way. *)
Theorem upload_status_reflects_processing A lecture_id files s message lid
    reports total :
  fst (upload_documents A lecture_id files s)
  = Ok (Uploaded message lid reports total) →
  Forall (reports_processing A lecture_id) reports
  ∧ message = "Documents uploaded and processed successfully".
Proof.
  unfold upload_documents. ared.
  destruct (mkdir A (calls s) _) as [[]|[msg|]]; ared; [|done..].
  match goal with
  | |- context [process_uploads A ?l ?d ?fs ?acc ?s1] =>
      pose proof (process_uploads_report A l d fs acc s1) as Hloop;
      destruct (process_uploads A l d fs acc s1) as [[rs|[msg|]] s2]
  end; cbn [fst] in *; ared; try done.
  intros [= <- <- <- <-]. split; [|done]. by apply Hloop.
Qed.

(** Two documents, the second of which yields no chunk. *)
Lemma upload_status_reflects_processing_witness :
  ∃ reports,
    fst (upload_documents sample_api "L"
           [document "a.pdf"; document "empty.pdf"] empty_site)
    = Ok (Uploaded "Documents uploaded and processed successfully" "L"
                   reports 2)
    ∧ report_status <$> reports = ["success"; "failed"]
    ∧ report_chunk_count <$> reports = [JNumber 3; JNumber 0]
    ∧ Forall (reports_processing sample_api "L") reports.
Proof.
  eexists. split; [by vm_compute|]. split; [reflexivity|].
  split; [reflexivity|].
  eapply (upload_status_reflects_processing sample_api "L"
            [document "a.pdf"; document "empty.pdf"] empty_site).
  by vm_compute.
Defined.
